(** * Incremental refresh of the RightNow data marts

    A shallow embedding of [etl_incremental.py] (class [IncrementalETL]) and of
    the full rebuild script [fix_ETL.py], followed by the properties of the
    change detector, the suppression inferencer, the dimension rebuilders and
    the run orchestration.

    Conventions of the embedding.
    - A pandas DataFrame or an SQL result is a [list] of records, in row order.
    - A timestamp is a [Z] (seconds since the epoch); a timestamp column that
      the code can leave empty is [option Z], [None] being NaT / SQL NULL.
      Text columns that can be null are [option string].
    - A table of the store that the pipeline creates itself is
      [option (list row)]: [None] is a table that does not exist yet.
    - Database calls may raise.  Which call sites raise is given by a fault
      oracle [Op -> bool]; the store is threaded through a small
      state-and-exception monad, and a [try/except] is [try_except]. *)

From Stdlib Require Import ZArith String Ascii List.
From stdpp Require Import base option list sorting gmap strings.

Open Scope string_scope.
Open Scope list_scope.
Open Scope Z_scope.

(** ** Orders used by [sort_values] and [ORDER BY] *)

Section Lexicographic.
Context {A B : Type} (RA : relation A) (RB : relation B).

(** Compare on the first component, then on the second. *)
Definition lex_le : relation (A * B) := fun x y =>
  (x.1 ≠ y.1 ∧ RA x.1 y.1) ∨ (x.1 = y.1 ∧ RB x.2 y.2).

#[global] Instance lex_le_dec `{!EqDecision A, !RelDecision RA, !RelDecision RB} :
  RelDecision lex_le.
Proof. intros x y. unfold lex_le. apply _. Defined.

End Lexicographic.

(** An entity key: [(cliente, folio)]. *)
Abbreviation Key := (string * string)%type.

(** Order of the key columns: client first, then folio, both by code point. *)
Definition key_le : relation Key := lex_le String.le String.le.

#[global] Instance key_le_dec : RelDecision key_le.
Proof. unfold key_le. apply _. Defined.

(** Ascending order of a timestamp column with pandas' [na_position='last']:
    NaT sorts after every timestamp. *)
Definition ts_le (a b : option Z) : Prop :=
  match a, b with
  | Some x, Some y => x ≤ y
  | _, None => True
  | None, Some _ => False
  end.

#[global] Instance ts_le_dec : RelDecision ts_le.
Proof. intros [x|] [y|]; simpl; apply _. Defined.

(** Descending order as PostgreSQL's [ORDER BY ... DESC]: NULLS FIRST. *)
Definition ts_ge_nulls_first (a b : option Z) : Prop := ts_le b a.

#[global] Instance ts_ge_nulls_first_dec : RelDecision ts_ge_nulls_first.
Proof. intros a b. unfold ts_ge_nulls_first. apply _. Defined.

(** ** A stable sort

    [sort_values] on several columns and [ORDER BY] are modelled by a stable
    insertion sort: rows that compare equal keep their relative order. *)

Section StableSort.
Context {A : Type} (R : relation A) `{!RelDecision R}.

Fixpoint insert_sorted (x : A) (l : list A) : list A :=
  match l with
  | [] => [x]
  | y :: l' => if decide (R x y) then x :: y :: l' else y :: insert_sorted x l'
  end.

Definition stable_sort (l : list A) : list A := foldr insert_sorted [] l.

End StableSort.

(** ** [SELECT DISTINCT ON (key) ... ORDER BY key, fecha DESC] *)

Section DistinctOn.
Context {A K : Type} (key : A → K) (le : relation K) (fecha : A → option Z).
Context `{!EqDecision K, !RelDecision le}.

(** The order of [ORDER BY key, fecha DESC]. *)
Definition order_by_key_fecha_desc : relation A := fun r1 r2 =>
  lex_le le ts_ge_nulls_first (key r1, fecha r1) (key r2, fecha r2).

#[global] Instance order_by_key_fecha_desc_dec : RelDecision order_by_key_fecha_desc.
Proof. intros r1 r2. unfold order_by_key_fecha_desc. apply _. Defined.

(** [DISTINCT ON (key)]: the first row of each run of rows with equal key. *)
Fixpoint distinct_on (prev : option K) (l : list A) : list A :=
  match l with
  | [] => []
  | r :: l' =>
      if decide (prev = Some (key r)) then distinct_on prev l'
      else r :: distinct_on (Some (key r)) l'
  end.

(** For each key the row with the latest timestamp, keys in ascending order.
    Among rows of a key with the same timestamp PostgreSQL may return any;
    the model returns the first in table order. *)
Definition select_distinct_on (t : list A) : list A :=
  distinct_on None (stable_sort order_by_key_fecha_desc t).

End DistinctOn.

(** [pd.merge(left, right, how='left')]: every left row is kept, once per
    matching right row, or once with nulls when nothing matches. *)
Definition merge_left {A B C : Type} (on : A → B → bool)
    (combine : A → option B → C) (left : list A) (right : list B) : list C :=
  left ≫= fun a =>
    match filter (fun b => on a b = true) right with
    | [] => [combine a None]
    | ms => (fun b => combine a (Some b)) <$> ms
    end.

(** [Series.min()] and [Series.max()] of a timestamp column; NaT is skipped,
    and the result is NaT when nothing is left. *)
Definition ts_min (l : list (option Z)) : option Z :=
  foldr (fun t acc =>
    match t, acc with
    | Some x, Some m => Some (Z.min x m)
    | Some x, None => Some x
    | None, _ => acc
    end) None l.

Definition ts_max (l : list (option Z)) : option Z :=
  foldr (fun t acc =>
    match t, acc with
    | Some x, Some m => Some (Z.max x m)
    | Some x, None => Some x
    | None, _ => acc
    end) None l.

(** ** History frames *)

(** The sentinel status of a removed folio. *)
Definition FOLIO_SUPRIMIDO : string := "Folio suprimido".

(** What the generic functions of [IncrementalETL] read off a frame: the
    [group_cols] and [state_col] they are called with, and the column
    "fecha_registro". *)
Class HistoryFrame (R : Type) := {
  group_cols : R → Key;
  state_col : R → string;
  fecha_registro : R → option Z;
}.

(** A row of "dm_rn_fechas_folio_padre". *)
Record PadreHist := {
  ph_cliente : string;
  ph_folio_padre : string;
  ph_fecha_registro : option Z;
  ph_estado_padre : string;
}.

(** A row of "dm_rn_fechas_folio_hijo".  The columns that the suppression
    rows take from a left merge can be null. *)
Record HijoHist := {
  hh_cliente : string;
  hh_folio_padre : option string;
  hh_folio_hijo : string;
  hh_ppa_grd : option string;
  hh_fecha_registro : option Z;
  hh_estado_padre : option string;
  hh_estado_hijo : string;
}.

#[global] Instance PadreHist_eq_dec : EqDecision PadreHist.
Proof. solve_decision. Defined.
#[global] Instance HijoHist_eq_dec : EqDecision HijoHist.
Proof. solve_decision. Defined.

(** [group_cols = ['cliente', 'folio_padre']], [state_col = 'estado_padre']. *)
#[global] Instance padre_frame : HistoryFrame PadreHist := {|
  group_cols r := (ph_cliente r, ph_folio_padre r);
  state_col := ph_estado_padre;
  fecha_registro := ph_fecha_registro;
|}.

(** [group_cols = ['cliente', 'folio_hijo']], [state_col = 'estado_hijo']. *)
#[global] Instance hijo_frame : HistoryFrame HijoHist := {|
  group_cols r := (hh_cliente r, hh_folio_hijo r);
  state_col := hh_estado_hijo;
  fecha_registro := hh_fecha_registro;
|}.

(** A row built by [detect_suprimidos]: the group columns, the state column
    and "fecha_registro". *)
Record Suprimido := {
  sup_key : Key;
  sup_estado : string;
  sup_fecha : option Z;
}.

Section ChangeDetector.
Context {R : Type} `{!HistoryFrame R}.

(** The order of [sort_values(by=group_cols + ["fecha_registro"])]. *)
Definition row_le : relation R := fun r1 r2 =>
  lex_le key_le ts_le (group_cols r1, fecha_registro r1)
                      (group_cols r2, fecha_registro r2).

#[global] Instance row_le_dec : RelDecision row_le.
Proof. intros r1 r2. unfold row_le. apply _. Defined.

Definition sort_values : list R → list R := stable_sort row_le.

(** The order of [sort_values("fecha_registro")]. *)
Definition fecha_le : relation R := fun r1 r2 =>
  ts_le (fecha_registro r1) (fecha_registro r2).

#[global] Instance fecha_le_dec : RelDecision fecha_le.
Proof. intros r1 r2. unfold fecha_le. apply _. Defined.

(** [combined.groupby(group_cols)[state_col].shift()]: every row is paired
    with the status of the previous row of its own group, in frame order;
    [seen] holds the last status met for each key so far. *)
Fixpoint groupby_shift (seen : gmap Key string) (l : list R) : list (R * option string) :=
  match l with
  | [] => []
  | r :: l' =>
      (r, seen !! group_cols r)
        :: groupby_shift (<[group_cols r := state_col r]> seen) l'
  end.

(** [combined[state_col] != combined['prev_state']]; NaN differs from every
    status. *)
Definition state_changed (x : R * option string) : Prop :=
  x.2 ≠ Some (state_col x.1).

#[global] Instance state_changed_dec x : Decision (state_changed x).
Proof. unfold state_changed. apply _. Defined.

(** [changes['fecha_registro'] >= min_new_date]; false when either side is NaT. *)
Definition fecha_ge (min_new_date : option Z) (r : R) : Prop :=
  match fecha_registro r, min_new_date with
  | Some t, Some m => m ≤ t
  | _, _ => False
  end.

#[global] Instance fecha_ge_dec m r : Decision (fecha_ge m r).
Proof. unfold fecha_ge. destruct (fecha_registro r), m; apply _. Defined.

(** [IncrementalETL.process_status_changes]. *)
Definition process_status_changes (df_new df_db_state : list R) : list R :=
  let combined := sort_values (df_db_state ++ df_new) in
  let changes := filter state_changed (groupby_shift ∅ combined) in
  let min_new_date := ts_min (fecha_registro <$> df_new) in
  filter (fecha_ge min_new_date) (changes.*1).

(** [SELECT DISTINCT ON (group_cols) * FROM t ORDER BY group_cols,
    fecha_registro DESC]: for each key its row with the latest timestamp. *)
Definition latest_state (t : list R) : list R :=
  select_distinct_on group_cols key_le fecha_registro t.

(** The part of [detect_suprimidos] after its query: the keys whose last
    status is not the sentinel and that have no row in the snapshot get a
    sentinel row dated at the snapshot's latest timestamp. *)
Definition suprimidos_of (df_batch_snapshot current_db_state : list R) : list Suprimido :=
  match current_db_state with
  | [] => []
  | _ =>
      let active_db :=
        filter (fun r => state_col r ≠ FOLIO_SUPRIMIDO) current_db_state in
      let missing :=
        filter (fun r => group_cols r ∉ (group_cols <$> df_batch_snapshot)) active_db in
      let snapshot_date := ts_max (fecha_registro <$> df_batch_snapshot) in
      (fun r => {| sup_key := group_cols r;
                   sup_estado := FOLIO_SUPRIMIDO;
                   sup_fecha := snapshot_date |}) <$> missing
  end.

End ChangeDetector.

(** ** The store *)

(** A row of the raw snapshot table "rn_registro_casos_transi". *)
Record RawRow := {
  raw_cliente : string;
  raw_folio_padre : string;
  raw_folio_hijo : option string;
  raw_estado_padre : string;
  raw_estado_hijo : string;
  raw_fecha_registro : Z;
  raw_fecha_asignacion : option Z;
  raw_rut_paciente : string;
  raw_nombre_paciente : string;
  raw_intervencion_sanitaria : string;
  raw_url_ficha : option string;
  raw_ppa_grd : option string;
  raw_monto_total : Z;
}.

(** A row of "rn_detalle_casos_info_general". *)
Record InfoGeneral := {
  ig_url_ficha : string;
  ig_fecha_atencion : option string;
  ig_intervencion_sanitaria_ingreso : option string;
  ig_problema_salud : option string;
}.

(** A row of "rn_detalle_casos_prestaciones". *)
Record Prestacion := {
  pr_cliente : string;
  pr_folio : string;
  pr_descripcion : option string;
  pr_estado : option string;
}.

(** A row of the parent dimension "dm_rn_folio_padre". *)
Record DimPadre := {
  dp_cliente : string;
  dp_folio_padre : string;
  dp_fecha_asignacion : option Z;
  dp_rut_paciente : string;
  dp_nombre_paciente : string;
  dp_intervencion_sanitaria : string;
  dp_url_ficha : option string;
  dp_tipo_seguimiento : string;
  dp_fecha_asignacion_aceptada : option Z;
  dp_fecha_atencion : option string;
  dp_intervencion_sanitaria_ingreso : option string;
  dp_problema_salud : option string;
  dp_ultimo_estado_folio_padre : option string;
  dp_fecha_ultimo_estado_folio_padre : option Z;
}.

(** A row of the child dimension "dm_rn_folio_hijo". *)
Record DimHijo := {
  dh_cliente : string;
  dh_folio_padre : string;
  dh_folio_hijo : string;
  dh_intervencion_sanitaria : string;
  dh_ppa_grd : option string;
  dh_monto_total : Z;
  dh_url_ficha : option string;
  dh_descripcion : option string;
  dh_estado_prestacion : option string;
  dh_tipo_seguimiento : option string;
  dh_ultimo_estado_folio_hijo : option string;
  dh_fecha_ultimo_estado_folio_hijo : option Z;
  dh_primer_estado_folio_hijo : option string;
  dh_fecha_primer_estado_folio_hijo : option Z;
  dh_grd : option string;
}.

#[global] Instance RawRow_eq_dec : EqDecision RawRow.
Proof. solve_decision. Defined.
#[global] Instance DimPadre_eq_dec : EqDecision DimPadre.
Proof. solve_decision. Defined.
#[global] Instance DimHijo_eq_dec : EqDecision DimHijo.
Proof. solve_decision. Defined.

(** The tables.  The raw store and the two detail tables are filled by the
    scraper; the history and dimension tables are created by the first
    [to_sql] that writes them. *)
Record DB := {
  rn_registro_casos_transi : list RawRow;
  rn_detalle_casos_info_general : list InfoGeneral;
  rn_detalle_casos_prestaciones : list Prestacion;
  dm_rn_fechas_folio_padre : option (list PadreHist);
  dm_rn_fechas_folio_hijo : option (list HijoHist);
  dm_rn_folio_padre : option (list DimPadre);
  dm_rn_folio_hijo : option (list DimHijo);
}.

Definition set_dm_rn_fechas_folio_padre (t : option (list PadreHist)) (db : DB) : DB :=
  {| rn_registro_casos_transi := rn_registro_casos_transi db;
     rn_detalle_casos_info_general := rn_detalle_casos_info_general db;
     rn_detalle_casos_prestaciones := rn_detalle_casos_prestaciones db;
     dm_rn_fechas_folio_padre := t;
     dm_rn_fechas_folio_hijo := dm_rn_fechas_folio_hijo db;
     dm_rn_folio_padre := dm_rn_folio_padre db;
     dm_rn_folio_hijo := dm_rn_folio_hijo db |}.

Definition set_dm_rn_fechas_folio_hijo (t : option (list HijoHist)) (db : DB) : DB :=
  {| rn_registro_casos_transi := rn_registro_casos_transi db;
     rn_detalle_casos_info_general := rn_detalle_casos_info_general db;
     rn_detalle_casos_prestaciones := rn_detalle_casos_prestaciones db;
     dm_rn_fechas_folio_padre := dm_rn_fechas_folio_padre db;
     dm_rn_fechas_folio_hijo := t;
     dm_rn_folio_padre := dm_rn_folio_padre db;
     dm_rn_folio_hijo := dm_rn_folio_hijo db |}.

Definition set_dm_rn_folio_padre (t : option (list DimPadre)) (db : DB) : DB :=
  {| rn_registro_casos_transi := rn_registro_casos_transi db;
     rn_detalle_casos_info_general := rn_detalle_casos_info_general db;
     rn_detalle_casos_prestaciones := rn_detalle_casos_prestaciones db;
     dm_rn_fechas_folio_padre := dm_rn_fechas_folio_padre db;
     dm_rn_fechas_folio_hijo := dm_rn_fechas_folio_hijo db;
     dm_rn_folio_padre := t;
     dm_rn_folio_hijo := dm_rn_folio_hijo db |}.

Definition set_dm_rn_folio_hijo (t : option (list DimHijo)) (db : DB) : DB :=
  {| rn_registro_casos_transi := rn_registro_casos_transi db;
     rn_detalle_casos_info_general := rn_detalle_casos_info_general db;
     rn_detalle_casos_prestaciones := rn_detalle_casos_prestaciones db;
     dm_rn_fechas_folio_padre := dm_rn_fechas_folio_padre db;
     dm_rn_fechas_folio_hijo := dm_rn_fechas_folio_hijo db;
     dm_rn_folio_padre := dm_rn_folio_padre db;
     dm_rn_folio_hijo := t |}.

(** ** Text helpers of the dimension rebuilders

    A [string] is the sequence of characters of the Python [str]; one [ascii]
    stands for one character. *)

(** [str.isspace] on one character, for the ASCII range. *)
Definition is_space (c : ascii) : bool :=
  let n := N_of_ascii c in
  ((9 <=? n) && (n <=? 13) || (28 <=? n) && (n <=? 32))%N.

Fixpoint lstrip (s : string) : string :=
  match s with
  | String c s' => if is_space c then lstrip s' else s
  | EmptyString => EmptyString
  end.

(** [str.strip()]. *)
Definition strip (s : string) : string :=
  String.rev (lstrip (String.rev (lstrip s))).

(** [str.split(sep)] for a one-character separator: the text is cut at every
    occurrence of [sep]. *)
Fixpoint split (sep : ascii) (s : string) : list string :=
  match s with
  | EmptyString => [EmptyString]
  | String c s' =>
      if Ascii.eqb c sep then EmptyString :: split sep s'
      else match split sep s' with
           | w :: ws => String c w :: ws
           | [] => [String c EmptyString]
           end
  end.

Fixpoint zeros (n : nat) : string :=
  match n with
  | O => EmptyString
  | S n' => String "0" (zeros n')
  end.

(** [str.zfill(width)]: zeros are put in front, after a leading sign. *)
Definition zfill (width : nat) (s : string) : string :=
  let n := String.length s in
  if (width <=? n)%nat then s
  else match s with
       | String c s' =>
           if Ascii.eqb c "+" || Ascii.eqb c "-"
           then String c (zeros (width - n) +:+ s')
           else zeros (width - n) +:+ s
       | EmptyString => zeros width
       end.

(** [Series.str.contains(needle)] for a needle without regex metacharacters. *)
Fixpoint contains (needle s : string) : bool :=
  String.prefix needle s ||
  match s with
  | EmptyString => false
  | String _ s' => contains needle s'
  end.

(** [descripcion.str.split(":").str[1].str.strip().str.zfill(6)]; null when
    the description is null or has no second piece. *)
Definition grd_of_descripcion (descripcion : option string) : option string :=
  d ← descripcion;
  piece ← split ":" d !! 1%nat;
  Some (zfill 6 (strip piece)).

(** [np.where(ppa_grd == "GRD", ..., None)]. *)
Definition format_grd (ppa_grd descripcion : option string) : option string :=
  if decide (ppa_grd = Some "GRD") then grd_of_descripcion descripcion else None.

(** ** The parent dimension: the frame computed by [update_dimensions_padre] *)

(** Comparisons of timestamp columns; false when either side is null. *)
Definition ts_ge (a b : option Z) : Prop :=
  match a, b with
  | Some x, Some y => y ≤ x
  | _, _ => False
  end.

Definition ts_lt (a b : option Z) : Prop :=
  match a, b with
  | Some x, Some y => x < y
  | _, _ => False
  end.

#[global] Instance ts_ge_dec : RelDecision ts_ge.
Proof. intros [x|] [y|]; simpl; apply _. Defined.
#[global] Instance ts_lt_dec : RelDecision ts_lt.
Proof. intros [x|] [y|]; simpl; apply _. Defined.

Definition non_accepted_states : list string :=
  ["Asignado"; "Folio suprimido"; "SIN Prestador";
   "Rechazo paciente sin consulta"; "No acepta tratamiento"].

(** [padre_cols]: the columns of a raw row that the parent history keeps. *)
Definition padre_cols (r : RawRow) : PadreHist :=
  {| ph_cliente := raw_cliente r;
     ph_folio_padre := raw_folio_padre r;
     ph_fecha_registro := Some (raw_fecha_registro r);
     ph_estado_padre := raw_estado_padre r |}.

(** [hijo_cols], for the rows that pass [~folio_hijo.isin(["", None])]. *)
Definition hijo_cols (r : RawRow) : option HijoHist :=
  match raw_folio_hijo r with
  | None => None
  | Some h =>
      if decide (h = "") then None
      else Some {| hh_cliente := raw_cliente r;
                   hh_folio_padre := Some (raw_folio_padre r);
                   hh_folio_hijo := h;
                   hh_ppa_grd := raw_ppa_grd r;
                   hh_fecha_registro := Some (raw_fecha_registro r);
                   hh_estado_padre := Some (raw_estado_padre r);
                   hh_estado_hijo := raw_estado_hijo r |}
  end.

Definition raw_padre_key (r : RawRow) : Key := (raw_cliente r, raw_folio_padre r).

(** [query_static]: the latest raw row of each (cliente, folio_padre) among
    the folios asked for. *)
Definition query_static (placeholders : list string) (raw : list RawRow) : list RawRow :=
  select_distinct_on raw_padre_key key_le (fun r => Some (raw_fecha_registro r))
    (filter (fun r => raw_folio_padre r ∈ placeholders) raw).

(** [~df_static["url_ficha"].str.contains("codificado", na=False)]. *)
Definition not_codificado (r : RawRow) : Prop :=
  match raw_url_ficha r with
  | Some u => contains "codificado" u = false
  | None => True
  end.

#[global] Instance not_codificado_dec r : Decision (not_codificado r).
Proof. unfold not_codificado. destruct (raw_url_ficha r); apply _. Defined.

(** [SELECT cliente, MIN(fecha_registro) ... GROUP BY cliente]. *)
Definition client_start_dates (raw : list RawRow) : list (string * option Z) :=
  (fun c => (c, ts_min ((fun r => Some (raw_fecha_registro r)) <$>
                          filter (fun r => raw_cliente r = c) raw)))
    <$> remove_dups (raw_cliente <$> raw).

(** [pd.merge(df_static, client_starts, on="cliente", how="left")]: a static
    row with its "fecha_primer_registro". *)
Definition merge_client_starts (df_static : list RawRow)
    (client_starts : list (string * option Z)) : list (RawRow * option Z) :=
  merge_left (fun s cs => bool_decide (raw_cliente s = cs.1))
             (fun s o => (s, o ≫= snd)) df_static client_starts.

(** The two filters of "Split Current vs Legacy". *)
Definition is_current (x : RawRow * option Z) : Prop :=
  ts_ge (raw_fecha_asignacion x.1) x.2.
Definition is_legacy (x : RawRow * option Z) : Prop :=
  ts_lt (raw_fecha_asignacion x.1) x.2.

#[global] Instance is_current_dec x : Decision (is_current x).
Proof. unfold is_current. apply _. Defined.
#[global] Instance is_legacy_dec x : Decision (is_legacy x).
Proof. unfold is_legacy. apply _. Defined.

(** A row of [df_current] or [df_legacy] before the detail and last-state
    columns are merged in. *)
Definition dim_padre_row (s : RawRow) (tipo_seguimiento : string)
    (fecha_asignacion_aceptada : option Z) : DimPadre :=
  {| dp_cliente := raw_cliente s;
     dp_folio_padre := raw_folio_padre s;
     dp_fecha_asignacion := raw_fecha_asignacion s;
     dp_rut_paciente := raw_rut_paciente s;
     dp_nombre_paciente := raw_nombre_paciente s;
     dp_intervencion_sanitaria := raw_intervencion_sanitaria s;
     dp_url_ficha := raw_url_ficha s;
     dp_tipo_seguimiento := tipo_seguimiento;
     dp_fecha_asignacion_aceptada := fecha_asignacion_aceptada;
     dp_fecha_atencion := None;
     dp_intervencion_sanitaria_ingreso := None;
     dp_problema_salud := None;
     dp_ultimo_estado_folio_padre := None;
     dp_fecha_ultimo_estado_folio_padre := None |}.

(** "Logic for Current": the accepted date is the earliest timestamp of the
    key's history rows whose status is not one of [non_accepted_states]
    ([sort_values].[groupby].[first] takes the first non-null value). *)
Definition current_rows (df_history : list PadreHist)
    (df_current : list (RawRow * option Z)) : list DimPadre :=
  let hist_curr :=
    filter (fun h => ph_folio_padre h ∈ (raw_folio_padre ∘ fst <$> df_current)) df_history in
  let valid_states :=
    filter (fun h => ph_estado_padre h ∉ non_accepted_states) hist_curr in
  (fun x : RawRow * option Z =>
     dim_padre_row x.1 "current"
       (ts_min (ph_fecha_registro <$>
                  filter (fun h => group_cols h = raw_padre_key x.1) valid_states)))
    <$> df_current.

(** "Logic for Legacy": a folio with an "Asignado" row in the history takes
    the earliest timestamp of its rows that are not "Asignado"; any other
    folio takes its assignment date. *)
Definition legacy_rows (df_history : list PadreHist)
    (df_legacy : list (RawRow * option Z)) : list DimPadre :=
  let hist_leg :=
    filter (fun h => ph_folio_padre h ∈ (raw_folio_padre ∘ fst <$> df_legacy)) df_history in
  let has_asignado :=
    ph_folio_padre <$> filter (fun h => ph_estado_padre h = "Asignado") hist_leg in
  let first_non_asignado :=
    filter (fun h => ph_estado_padre h ≠ "Asignado") hist_leg in
  (fun x : RawRow * option Z =>
     dim_padre_row x.1 "legacy"
       (if decide (raw_folio_padre x.1 ∈ has_asignado)
        then ts_min (ph_fecha_registro <$>
                       filter (fun h => group_cols h = raw_padre_key x.1) first_non_asignado)
        else raw_fecha_asignacion x.1))
    <$> df_legacy.

(** [pd.concat([df_current, df_legacy])]: the classified rows. *)
Definition classify_padre (df_history : list PadreHist)
    (df_proc : list (RawRow * option Z)) : list DimPadre :=
  current_rows df_history (filter is_current df_proc)
  ++ legacy_rows df_history (filter is_legacy df_proc).

(** [query_details] with [drop_duplicates(subset=["url_ficha"], keep="last")]:
    one detail row per url.  The query has no ORDER BY; the model keeps the
    last row of the table for the url. *)
Definition details_of (info : list InfoGeneral) (url : option string) : option InfoGeneral :=
  u ← url; last (filter (fun i => ig_url_ficha i = u) info).

Definition with_details (info : list InfoGeneral) (d : DimPadre) : DimPadre :=
  let i := details_of info (dp_url_ficha d) in
  {| dp_cliente := dp_cliente d;
     dp_folio_padre := dp_folio_padre d;
     dp_fecha_asignacion := dp_fecha_asignacion d;
     dp_rut_paciente := dp_rut_paciente d;
     dp_nombre_paciente := dp_nombre_paciente d;
     dp_intervencion_sanitaria := dp_intervencion_sanitaria d;
     dp_url_ficha := dp_url_ficha d;
     dp_tipo_seguimiento := dp_tipo_seguimiento d;
     dp_fecha_asignacion_aceptada := dp_fecha_asignacion_aceptada d;
     dp_fecha_atencion := i ≫= ig_fecha_atencion;
     dp_intervencion_sanitaria_ingreso := i ≫= ig_intervencion_sanitaria_ingreso;
     dp_problema_salud := i ≫= ig_problema_salud;
     dp_ultimo_estado_folio_padre := dp_ultimo_estado_folio_padre d;
     dp_fecha_ultimo_estado_folio_padre := dp_fecha_ultimo_estado_folio_padre d |}.

(** [sort_values("fecha_registro").groupby(keys).last()] on a history frame:
    the status of the last row of the group and the last non-null timestamp. *)
Definition last_state_of {R : Type} `{!HistoryFrame R} (group : list R) : option string * option Z :=
  let sorted := stable_sort fecha_le group in
  (state_col <$> last sorted, ts_max (fecha_registro <$> group)).

(** [sort_values("fecha_registro").groupby(keys).first()]. *)
Definition first_state_of {R : Type} `{!HistoryFrame R} (group : list R) : option string * option Z :=
  let sorted := stable_sort fecha_le group in
  (state_col <$> head sorted, ts_min (fecha_registro <$> group)).

Definition with_last_state (df_history : list PadreHist) (d : DimPadre) : DimPadre :=
  let ls := last_state_of
              (filter (fun h => group_cols h = (dp_cliente d, dp_folio_padre d)) df_history) in
  {| dp_cliente := dp_cliente d;
     dp_folio_padre := dp_folio_padre d;
     dp_fecha_asignacion := dp_fecha_asignacion d;
     dp_rut_paciente := dp_rut_paciente d;
     dp_nombre_paciente := dp_nombre_paciente d;
     dp_intervencion_sanitaria := dp_intervencion_sanitaria d;
     dp_url_ficha := dp_url_ficha d;
     dp_tipo_seguimiento := dp_tipo_seguimiento d;
     dp_fecha_asignacion_aceptada := dp_fecha_asignacion_aceptada d;
     dp_fecha_atencion := dp_fecha_atencion d;
     dp_intervencion_sanitaria_ingreso := dp_intervencion_sanitaria_ingreso d;
     dp_problema_salud := dp_problema_salud d;
     dp_ultimo_estado_folio_padre := ls.1;
     dp_fecha_ultimo_estado_folio_padre := ls.2 |}.

(** ** The child dimension: the frame computed by [update_dimensions_hijo] *)

(** The key columns [cliente, folio_padre, folio_hijo] of the frame handed to
    [update_dimensions_hijo]; "folio_padre" is null on the rows that come from
    [detect_suprimidos], which do not carry that column. *)
Abbreviation HijoKey := (string * option string * string)%type.

Definition hijo_key_of_row (h : HijoHist) : HijoKey :=
  (hh_cliente h, hh_folio_padre h, hh_folio_hijo h).

Definition hijo_key_of_suprimido (s : Suprimido) : HijoKey :=
  ((sup_key s).1, None, (sup_key s).2).

(** [WHERE folio_hijo IN (placeholders_hijo)]. *)
Definition folio_hijo_in (placeholders : list string) (r : RawRow) : Prop :=
  match raw_folio_hijo r with
  | Some h => h ∈ placeholders
  | None => False
  end.

#[global] Instance folio_hijo_in_dec ps r : Decision (folio_hijo_in ps r).
Proof. unfold folio_hijo_in. destruct (raw_folio_hijo r); apply _. Defined.

(** The order of [ORDER BY cliente, folio_padre, folio_hijo]. *)
Definition hijo_key_le : relation (Key * string) := lex_le key_le String.le.

#[global] Instance hijo_key_le_dec : RelDecision hijo_key_le.
Proof. unfold hijo_key_le. apply _. Defined.

(** [query_base]: the latest raw row of each (cliente, folio_padre,
    folio_hijo) among the child folios asked for. *)
Definition query_base (placeholders : list string) (raw : list RawRow) : list RawRow :=
  select_distinct_on (fun r => (raw_padre_key r, default "" (raw_folio_hijo r)))
    hijo_key_le (fun r => Some (raw_fecha_registro r))
    (filter (folio_hijo_in placeholders) raw).

(** [drop_duplicates(subset, keep="last")]. *)
Fixpoint drop_duplicates_last {A K : Type} `{!EqDecision K} (subset : A → K)
    (l : list A) : list A :=
  match l with
  | [] => []
  | x :: l' =>
      if decide (subset x ∈ (subset <$> l')) then drop_duplicates_last subset l'
      else x :: drop_duplicates_last subset l'
  end.

(** The rows of [df_base] that one base row gives: the detail row of the
    child folio ([df_prest], when that frame was merged), one row per
    matching row of the parent dimension, the first and last status of the
    child history, and the formatted code when the frame has the columns
    "ppa_grd" and "descripcion". *)
Definition dim_hijo_rows (df_prest : list Prestacion) (df_padre_info : list DimPadre)
    (df_hist_hijo : list HijoHist) (r : RawRow) : list DimHijo :=
  let folio_hijo := default "" (raw_folio_hijo r) in
  let has_descripcion := bool_decide (df_prest ≠ []) in
  let prest :=
    head (filter (fun p => pr_cliente p = raw_cliente r ∧ pr_folio p = folio_hijo)
                 (drop_duplicates_last pr_folio df_prest)) in
  let group :=
    filter (fun h => hh_cliente h = raw_cliente r
                     ∧ hh_folio_padre h = Some (raw_folio_padre r)
                     ∧ hh_folio_hijo h = folio_hijo) df_hist_hijo in
  merge_left
    (fun (_ : unit) d => bool_decide ((dp_cliente d, dp_folio_padre d) = raw_padre_key r))
    (fun _ d =>
       {| dh_cliente := raw_cliente r;
          dh_folio_padre := raw_folio_padre r;
          dh_folio_hijo := folio_hijo;
          dh_intervencion_sanitaria := raw_intervencion_sanitaria r;
          dh_ppa_grd := raw_ppa_grd r;
          dh_monto_total := raw_monto_total r;
          dh_url_ficha := raw_url_ficha r;
          dh_descripcion := prest ≫= pr_descripcion;
          dh_estado_prestacion := prest ≫= pr_estado;
          dh_tipo_seguimiento := dp_tipo_seguimiento <$> d;
          dh_ultimo_estado_folio_hijo := (last_state_of group).1;
          dh_fecha_ultimo_estado_folio_hijo := (last_state_of group).2;
          dh_primer_estado_folio_hijo := (first_state_of group).1;
          dh_fecha_primer_estado_folio_hijo := (first_state_of group).2;
          dh_grd := if has_descripcion
                    then format_grd (raw_ppa_grd r) (prest ≫= pr_descripcion)
                    else None |})
    [tt] df_padre_info.

(** A suppression row as a row of the parent history. *)
Definition padre_of_suprimido (s : Suprimido) : PadreHist :=
  {| ph_cliente := (sup_key s).1;
     ph_folio_padre := (sup_key s).2;
     ph_fecha_registro := sup_fecha s;
     ph_estado_padre := sup_estado s |}.

(** [pd.merge(df_suprimidos_hijo[...], full_state[[...]], on=['cliente',
    'folio_hijo'], how='left')]: a child suppression row takes "folio_padre",
    "ppa_grd" and "estado_padre" from the last state of its key. *)
Definition hijo_of_suprimido (s : Suprimido) (st : option HijoHist) : HijoHist :=
  {| hh_cliente := (sup_key s).1;
     hh_folio_padre := st ≫= hh_folio_padre;
     hh_folio_hijo := (sup_key s).2;
     hh_ppa_grd := st ≫= hh_ppa_grd;
     hh_fecha_registro := sup_fecha s;
     hh_estado_padre := st ≫= hh_estado_padre;
     hh_estado_hijo := sup_estado s |}.

(** ** Database calls, exceptions and the store monad *)

(** The call sites of [etl_incremental.py] that talk to the database. *)
Inductive Op :=
  | OpMaxDate              (* get_max_date *)
  | OpExtract              (* extract_new_data *)
  | OpLatestStatePadre     (* get_latest_state_from_db, parent *)
  | OpSuprimidosPadre      (* the query of detect_suprimidos, parent *)
  | OpPersistPadre         (* to_sql("dm_rn_fechas_folio_padre") *)
  | OpDimPadreHistory      (* update_dimensions_padre: query_history *)
  | OpDimPadreStatic       (* update_dimensions_padre: query_static *)
  | OpClientStarts         (* get_static_client_start_dates *)
  | OpDimPadreDetails      (* update_dimensions_padre: query_details *)
  | OpDimPadreDelete       (* update_dimensions_padre: DELETE and commit *)
  | OpDimPadreInsert       (* update_dimensions_padre: to_sql *)
  | OpLatestStateHijo      (* get_latest_state_from_db, child *)
  | OpSuprimidosHijo       (* the query of detect_suprimidos, child *)
  | OpFullStateHijo        (* get_latest_state_from_db, child, second call *)
  | OpPersistHijo          (* to_sql("dm_rn_fechas_folio_hijo") *)
  | OpDimHijoBase          (* update_dimensions_hijo: query_base *)
  | OpDimHijoPrestaciones  (* update_dimensions_hijo: query_prest_simple *)
  | OpDimHijoPadreInfo     (* update_dimensions_hijo: query_padre *)
  | OpDimHijoHistory       (* update_dimensions_hijo: query_hist_hijo *)
  | OpDimHijoDelete        (* update_dimensions_hijo: DELETE and commit *)
  | OpDimHijoInsert.       (* update_dimensions_hijo: to_sql *)

#[global] Instance Op_eq_dec : EqDecision Op.
Proof. solve_decision. Defined.

Inductive Exception :=
  | OperationalError (op : Op)   (* the connection or the statement failed *)
  | UndefinedTable (op : Op).    (* the statement names a table that does not exist *)

Inductive Result (A : Type) :=
  | Ok (a : A)
  | Raise (e : Exception).
Arguments Ok {A} a.
Arguments Raise {A} e.

(** A computation on the store: the store it leaves, and a value or the
    exception it raised.  What was committed before a raise stays. *)
Definition M (A : Type) : Type := DB → DB * Result A.

#[global] Instance M_ret : MRet M := fun A a db => (db, Ok a).

#[global] Instance M_bind : MBind M := fun A B k m db =>
  match m db with
  | (db', Ok a) => k a db'
  | (db', Raise e) => (db', Raise e)
  end.

#[global] Instance M_fmap : FMap M := fun A B f m db =>
  match m db with
  | (db', Ok a) => (db', Ok (f a))
  | (db', Raise e) => (db', Raise e)
  end.

Definition raise {A : Type} (e : Exception) : M A := fun db => (db, Raise e).

(** [try: m except Exception as e: handler e]. *)
Definition try_except {A : Type} (m : M A) (handler : Exception → M A) : M A :=
  fun db =>
    match m db with
    | (db', Ok a) => (db', Ok a)
    | (db', Raise e) => handler e db'
    end.

(** [latest_ts = df_new['fecha_registro'].max()] and [latest_snapshot =
    df_new[df_new['fecha_registro'] == latest_ts]]: the current snapshot
    slice of a batch. *)
Definition latest_ts (df_new : list RawRow) : option Z :=
  ts_max ((fun r => Some (raw_fecha_registro r)) <$> df_new).

Definition latest_snapshot (df_new : list RawRow) : list RawRow :=
  filter (fun r => Some (raw_fecha_registro r) = latest_ts df_new) df_new.

Section Pipeline.
(** [faults op] tells whether the database call at [op] fails in this run. *)
Variable faults : Op → bool.

(** A read of a table that always exists. *)
Definition read_rows {T : Type} (op : Op) (table : DB → list T) : M (list T) :=
  fun db =>
    if faults op then (db, Raise (OperationalError op)) else (db, Ok (table db)).

(** A read of a table that may not exist. *)
Definition read_table {T : Type} (op : Op) (table : DB → option (list T)) : M (list T) :=
  fun db =>
    if faults op then (db, Raise (OperationalError op))
    else match table db with
         | Some rows => (db, Ok rows)
         | None => (db, Raise (UndefinedTable op))
         end.

(** [sqlalchemy.inspect(engine).has_table(table_name)]. *)
Definition has_table {T : Type} (op : Op) (table : DB → option (list T)) : M bool :=
  fun db =>
    if faults op then (db, Raise (OperationalError op))
    else (db, Ok (bool_decide (is_Some (table db)))).

(** [df.to_sql(table, if_exists="append")]: one transaction; the table is
    created when it does not exist. *)
Definition to_sql_append {T : Type} (op : Op) (table : DB → option (list T))
    (set : option (list T) → DB → DB) (rows : list T) : M unit :=
  fun db =>
    if faults op then (db, Raise (OperationalError op))
    else (set (Some (default [] (table db) ++ rows)) db, Ok tt).

(** [conn.execute(text("DELETE FROM table WHERE ...")); conn.commit()]. *)
Definition delete_where {T : Type} (op : Op) (table : DB → option (list T))
    (set : option (list T) → DB → DB) (P : T → Prop) `{!∀ x, Decision (P x)} : M unit :=
  fun db =>
    if faults op then (db, Raise (OperationalError op))
    else match table db with
         | Some rows => (set (Some (filter (fun x => ¬ P x) rows)) db, Ok tt)
         | None => (db, Raise (UndefinedTable op))
         end.

(** [IncrementalETL.get_max_date]: the watermark. *)
Definition get_max_date {R : Type} `{!HistoryFrame R}
    (table : DB → option (list R)) : M (option Z) :=
  try_except
    (exists_ ← has_table OpMaxDate table;
     if exists_ : bool then
       rows ← read_table OpMaxDate table;
       mret (ts_max (fecha_registro <$> rows))
     else mret None)
    (fun e => raise e).

(** [IncrementalETL.extract_new_data]. *)
Definition extract_new_data (start_date : option Z) : M (list RawRow) :=
  try_except
    (rows ← read_rows OpExtract rn_registro_casos_transi;
     mret (match start_date with
           | Some w => filter (fun r => w < raw_fecha_registro r) rows
           | None => rows
           end))
    (fun e => raise e).

(** [IncrementalETL.get_latest_state_from_db]: an exception is logged and an
    empty frame is returned. *)
Definition get_latest_state_from_db {R : Type} `{!HistoryFrame R}
    (op : Op) (table : DB → option (list R)) : M (list R) :=
  try_except
    (exists_ ← has_table op table;
     if exists_ : bool then
       rows ← read_table op table;
       mret (latest_state rows)
     else mret [])
    (fun _ => mret []).

(** [IncrementalETL.detect_suprimidos]: the query is not guarded. *)
Definition detect_suprimidos {R : Type} `{!HistoryFrame R}
    (op : Op) (df_batch_snapshot : list R) (table : DB → option (list R)) : M (list Suprimido) :=
  rows ← read_table op table;
  mret (suprimidos_of df_batch_snapshot (latest_state rows)).

(** [IncrementalETL.get_static_client_start_dates]. *)
Definition get_static_client_start_dates : M (list (string * option Z)) :=
  client_start_dates <$> read_rows OpClientStarts rn_registro_casos_transi.

(** Step 6 of [update_dimensions_padre], "UPSERT into Postgres": the
    existing rows of the folios are deleted and the deletion is committed,
    an exception of that block being logged; then the new rows are
    inserted, outside the [try]. *)
Definition upsert_padre (placeholders : list string) (df_final : list DimPadre) : M unit :=
  try_except
    (delete_where OpDimPadreDelete dm_rn_folio_padre set_dm_rn_folio_padre
       (fun d => dp_folio_padre d ∈ placeholders))
    (fun _ => mret tt);;
  to_sql_append OpDimPadreInsert dm_rn_folio_padre set_dm_rn_folio_padre df_final.

(** Step 6 of [update_dimensions_hijo], "UPSERT": the committed deletion and
    the insertion stand under one [try], whose exception is logged. *)
Definition upsert_hijo (placeholders_hijo : list string) (df_base : list DimHijo) : M unit :=
  try_except
    (delete_where OpDimHijoDelete dm_rn_folio_hijo set_dm_rn_folio_hijo
       (fun d => dh_folio_hijo d ∈ placeholders_hijo);;
     to_sql_append OpDimHijoInsert dm_rn_folio_hijo set_dm_rn_folio_hijo df_base)
    (fun _ => mret tt).

(** [IncrementalETL.update_dimensions_padre]. *)
Definition update_dimensions_padre (df_new_folios : list string) : M unit :=
  match df_new_folios with
  | [] => mret tt
  | _ =>
    (* 1. history of the folios; an exception is logged and ends the call *)
    history ← try_except
      (Some <$> read_table OpDimPadreHistory dm_rn_fechas_folio_padre)
      (fun _ => mret None);
    match filter (fun h => ph_folio_padre h ∈ df_new_folios) <$> history with
    | None | Some [] => mret tt
    | Some df_history =>
      (* 2. static info; an exception is logged and ends the call *)
      static ← try_except
        (Some <$> read_rows OpDimPadreStatic rn_registro_casos_transi)
        (fun _ => mret None);
      match query_static df_new_folios <$> static with
      | None | Some [] => mret tt
      | Some df_static =>
        let df_static := filter not_codificado df_static in
        (* 3. classification and accepted date *)
        client_starts ← get_static_client_start_dates;
        let df_proc := merge_client_starts df_static client_starts in
        match classify_padre df_history df_proc with
        | [] => mret tt
        | df_final =>
          (* 4. details; an exception is logged and the columns stay empty *)
          details ← try_except
            (Some <$> read_rows OpDimPadreDetails rn_detalle_casos_info_general)
            (fun _ => mret None);
          let df_final :=
            match details with
            | Some info => with_details info <$> df_final
            | None => df_final
            end in
          (* 5. latest state *)
          let df_final := with_last_state df_history <$> df_final in
          (* 6. upsert *)
          upsert_padre df_new_folios df_final
        end
      end
    end
  end.

(** [IncrementalETL.update_dimensions_hijo]. *)
Definition update_dimensions_hijo (df_new_hijos : list HijoKey) : M unit :=
  match df_new_hijos with
  | [] => mret tt
  | _ =>
    let keys := remove_dups df_new_hijos in
    let placeholders_hijo := snd <$> keys in
    (* 1. base info; an exception is logged and ends the call *)
    base ← try_except
      (Some <$> read_rows OpDimHijoBase rn_registro_casos_transi)
      (fun _ => mret None);
    match query_base placeholders_hijo <$> base with
    | None => mret tt
    | Some df_base =>
      (* 2. prestaciones; an exception is logged and nothing is merged *)
      df_prest ← try_except
        (filter (fun p => pr_folio p ∈ placeholders_hijo)
           <$> read_rows OpDimHijoPrestaciones rn_detalle_casos_prestaciones)
        (fun _ => mret []);
      (* 3. tipo_seguimiento from the parent dimension; an exception is passed over *)
      let folio_padres := remove_dups (omap (fun k : HijoKey => k.1.2) keys) in
      df_padre_info ←
        match df_base with
        | [] => mret []
        | _ =>
          try_except
            (filter (fun d => dp_folio_padre d ∈ folio_padres)
               <$> read_table OpDimHijoPadreInfo dm_rn_folio_padre)
            (fun _ => mret [])
        end;
      (* 4. first and last states; an exception is logged *)
      df_hist_hijo ← try_except
        (filter (fun h => hh_folio_hijo h ∈ placeholders_hijo)
           <$> read_table OpDimHijoHistory dm_rn_fechas_folio_hijo)
        (fun _ => mret []);
      (* 5. the frame, with the formatted code *)
      let df_base := df_base ≫= dim_hijo_rows df_prest df_padre_info df_hist_hijo in
      (* 6. upsert *)
      upsert_hijo placeholders_hijo df_base
    end
  end.

(** Step 3 of [run], "Process Folio Padre". *)
Definition process_folio_padre (df_new latest_snapshot : list RawRow) : M unit :=
  df_state_padre ←
    get_latest_state_from_db OpLatestStatePadre dm_rn_fechas_folio_padre;
  let df_changes_padre :=
    process_status_changes (padre_cols <$> df_new) df_state_padre in
  df_suprimidos_padre ←
    detect_suprimidos OpSuprimidosPadre (padre_cols <$> latest_snapshot)
      dm_rn_fechas_folio_padre;
  let df_changes_padre :=
    df_changes_padre ++ (padre_of_suprimido <$> df_suprimidos_padre) in
  match df_changes_padre with
  | [] => mret tt
  | _ =>
    to_sql_append OpPersistPadre dm_rn_fechas_folio_padre
      set_dm_rn_fechas_folio_padre df_changes_padre;;
    let affected_folios :=
      (raw_folio_padre <$> df_new) ++ (snd ∘ sup_key <$> df_suprimidos_padre) in
    update_dimensions_padre (remove_dups affected_folios)
  end.

(** Step 4 of [run], "Process Folio Hijo". *)
Definition process_folio_hijo (df_new latest_snapshot : list RawRow) : M unit :=
  let df_hijo_raw := omap hijo_cols df_new in
  match df_hijo_raw with
  | [] => mret tt
  | _ =>
    df_state_hijo ←
      get_latest_state_from_db OpLatestStateHijo dm_rn_fechas_folio_hijo;
    let df_changes_hijo := process_status_changes df_hijo_raw df_state_hijo in
    let latest_snapshot_hijo := omap hijo_cols latest_snapshot in
    df_suprimidos_hijo ←
      detect_suprimidos OpSuprimidosHijo latest_snapshot_hijo dm_rn_fechas_folio_hijo;
    df_changes_hijo ←
      match df_suprimidos_hijo with
      | [] => mret df_changes_hijo
      | _ =>
        full_state ←
          get_latest_state_from_db OpFullStateHijo dm_rn_fechas_folio_hijo;
        match full_state with
        | [] => mret df_changes_hijo
        | _ =>
          mret (df_changes_hijo ++
                merge_left (fun s st => bool_decide (sup_key s = group_cols st))
                           hijo_of_suprimido df_suprimidos_hijo full_state)
        end
      end;
    match df_changes_hijo with
    | [] => mret tt
    | _ =>
      to_sql_append OpPersistHijo dm_rn_fechas_folio_hijo
        set_dm_rn_fechas_folio_hijo df_changes_hijo;;
      update_dimensions_hijo
        ((hijo_key_of_row <$> df_hijo_raw)
         ++ (hijo_key_of_suprimido <$> df_suprimidos_hijo))
    end
  end.

(** [IncrementalETL.run]: every exception that reaches it is logged and
    raised again. *)
Definition run : M unit :=
  try_except
    (max_date ← get_max_date dm_rn_fechas_folio_padre;
     df_new ← extract_new_data max_date;
     match df_new with
     | [] => mret tt
     | _ =>
       process_folio_padre df_new (latest_snapshot df_new);;
       process_folio_hijo df_new (latest_snapshot df_new)
     end)
    (fun e => raise e).

End Pipeline.

(** ** The full rebuild, [fix_ETL.py] *)

(** [Timestamp.date()]: the calendar day of a timestamp, in days since the
    epoch. *)
Definition dt_date (t : Z) : Z := t / 86400.

(** [drop_duplicates(subset, keep="first")]. *)
Fixpoint drop_duplicates_first {A K : Type} `{!EqDecision K} (subset : A → K)
    (seen : list K) (l : list A) : list A :=
  match l with
  | [] => []
  | x :: l' =>
      if decide (subset x ∈ seen) then drop_duplicates_first subset seen l'
      else x :: drop_duplicates_first subset (subset x :: seen) l'
  end.

(** [df.groupby(keys)['fecha_registro'].agg(['max']).reset_index()]: one row
    per key, keys in ascending order, with the latest timestamp of the key. *)
Definition groupby_max {A K : Type} `{!EqDecision K} (key : A → K) (le : relation K)
    `{!RelDecision le} (fecha : A → option Z) (l : list A) : list (K * option Z) :=
  (fun k => (k, ts_max (fecha <$> filter (fun r => key r = k) l)))
    <$> stable_sort le (remove_dups (key <$> l)).

(** [suprimidos_df["fecha_registro"].dt.date != fecha_hoy]. *)
Definition not_seen_today (fecha_hoy : Z) (fecha : option Z) : Prop :=
  match fecha with
  | Some t => dt_date t ≠ fecha_hoy
  | None => True
  end.

#[global] Instance not_seen_today_dec d f : Decision (not_seen_today d f).
Proof. unfold not_seen_today. destruct f; apply _. Defined.

Section FullRebuild.
Context {R : Type} `{!HistoryFrame R}.

(** The order of [sort_values(by=["cliente", "fecha_registro"])]. *)
Definition cliente_fecha_le : relation R := fun r1 r2 =>
  lex_le String.le ts_le ((group_cols r1).1, fecha_registro r1)
                         ((group_cols r2).1, fecha_registro r2).

#[global] Instance cliente_fecha_le_dec : RelDecision cliente_fecha_le.
Proof. intros r1 r2. unfold cliente_fecha_le. apply _. Defined.

(** "Filtra solo cuando cambia el estado": the frame is sorted by client and
    timestamp, then by key and timestamp, and a row stays when the shifted
    status of its group differs from its own. *)
Definition compress_changes (df : list R) : list R :=
  let df := sort_values (stable_sort cliente_fecha_le df) in
  (filter state_changed (groupby_shift ∅ df)).*1.

End FullRebuild.

(** [suprimidos_df] of the parent history: every (cliente, folio_padre) whose
    latest snapshot is not dated [fecha_hoy] (= [date.today()]) gets a
    sentinel row carrying that latest timestamp. *)
Definition suprimidos_df_padre (fecha_hoy : Z) (df_global : list RawRow) : list PadreHist :=
  let suprimidos_df :=
    groupby_max raw_padre_key key_le (fun r => Some (raw_fecha_registro r)) df_global in
  let suprimidos_df :=
    filter (fun x : Key * option Z => not_seen_today fecha_hoy x.2) suprimidos_df in
  let suprimidos_df :=
    (fun x : Key * option Z =>
       {| ph_cliente := x.1.1; ph_folio_padre := x.1.2;
          ph_fecha_registro := x.2; ph_estado_padre := FOLIO_SUPRIMIDO |})
      <$> suprimidos_df in
  drop_duplicates_first (fun r => (ph_cliente r, ph_folio_padre r, ph_estado_padre r))
    [] suprimidos_df.

(** The table "dm_rn_fechas_folio_padre" that [fix_ETL.py] writes. *)
Definition fix_dm_rn_fechas_folio_padre (fecha_hoy : Z) (df_global : list RawRow) : list PadreHist :=
  sort_values (compress_changes (padre_cols <$> df_global)
               ++ suprimidos_df_padre fecha_hoy df_global).

(** [suprimidos_df] of the child history.  The groups are taken on the whole
    raw frame: [groupby] leaves out the rows whose "folio_hijo" is null and
    keeps those where it is the empty text. *)
Definition suprimidos_df_hijo (fecha_hoy : Z) (df_global : list RawRow) : list HijoHist :=
  let grouped :=
    groupby_max (fun r => (raw_padre_key r, default "" (raw_folio_hijo r))) hijo_key_le
      (fun r => Some (raw_fecha_registro r))
      (filter (fun r => is_Some (raw_folio_hijo r)) df_global) in
  let suprimidos_df :=
    filter (fun x : Key * string * option Z => not_seen_today fecha_hoy x.2) grouped in
  let suprimidos_df :=
    (fun x : Key * string * option Z =>
       {| hh_cliente := x.1.1.1; hh_folio_padre := Some x.1.1.2;
          hh_folio_hijo := x.1.2; hh_ppa_grd := None;
          hh_fecha_registro := x.2; hh_estado_padre := None;
          hh_estado_hijo := FOLIO_SUPRIMIDO |})
      <$> suprimidos_df in
  drop_duplicates_first (fun r => (hh_cliente r, hh_folio_hijo r, hh_estado_hijo r))
    [] suprimidos_df.

(** The order of [sort_values(by=["cliente", "folio_padre", "folio_hijo",
    "fecha_registro"])] on the child history; a null "folio_padre" sorts last
    within its client. *)
Definition hijo_full_le : relation HijoHist := fun r1 r2 =>
  lex_le (lex_le (lex_le String.le (fun a b : option string =>
                                     match a, b with
                                     | Some x, Some y => String.le x y
                                     | _, None => True
                                     | None, Some _ => False
                                     end))
                 String.le)
         ts_le
    ((hh_cliente r1, hh_folio_padre r1, hh_folio_hijo r1), hh_fecha_registro r1)
    ((hh_cliente r2, hh_folio_padre r2, hh_folio_hijo r2), hh_fecha_registro r2).

#[global] Instance hijo_full_le_dec : RelDecision hijo_full_le.
Proof.
  intros r1 r2. unfold hijo_full_le.
  assert (RelDecision (fun a b : option string =>
            match a, b with
            | Some x, Some y => String.le x y
            | _, None => True
            | None, Some _ => False
            end)) by (intros [x|] [y|]; apply _).
  apply _.
Defined.

(** The table "dm_rn_fechas_folio_hijo" that [fix_ETL.py] writes. *)
Definition fix_dm_rn_fechas_folio_hijo (fecha_hoy : Z) (df_global : list RawRow) : list HijoHist :=
  stable_sort hijo_full_le
    (compress_changes (omap hijo_cols df_global)
     ++ suprimidos_df_hijo fecha_hoy df_global).

(** The static frame [dm_rn_folio_padre] of [fix_ETL.py]: rows whose url holds
    "codificado" are left out and the first row of each (cliente,
    folio_padre) stays, with its client's first snapshot timestamp. *)
Definition fix_folio_padre_static (df_global : list RawRow) : list (RawRow * option Z) :=
  merge_client_starts
    (drop_duplicates_first raw_padre_key [] (filter not_codificado df_global))
    (client_start_dates df_global).

(** [dm_rn_folio_padre_current] and [dm_rn_folio_padre_legacy] of
    [fix_ETL.py], before the accepted date is merged in. *)
Definition dm_rn_folio_padre_current (df_global : list RawRow) : list (RawRow * option Z) :=
  filter is_current (fix_folio_padre_static df_global).

Definition dm_rn_folio_padre_legacy (df_global : list RawRow) : list (RawRow * option Z) :=
  filter is_legacy (fix_folio_padre_static df_global).

(** ** Rows and stores used in the examples *)

(** A snapshot row; the columns that play no part are fixed. *)
Definition snapshot_row (cliente folio_padre : string) (folio_hijo : option string)
    (estado_padre estado_hijo : string) (fecha_registro : Z)
    (fecha_asignacion : option Z) : RawRow :=
  {| raw_cliente := cliente;
     raw_folio_padre := folio_padre;
     raw_folio_hijo := folio_hijo;
     raw_estado_padre := estado_padre;
     raw_estado_hijo := estado_hijo;
     raw_fecha_registro := fecha_registro;
     raw_fecha_asignacion := fecha_asignacion;
     raw_rut_paciente := "1-9";
     raw_nombre_paciente := "paciente";
     raw_intervencion_sanitaria := "intervencion";
     raw_url_ficha := Some "ficha";
     raw_ppa_grd := Some "GRD";
     raw_monto_total := 0 |}.

(** A store whose history and dimension tables exist and are empty. *)
Definition empty_store (raw : list RawRow) : DB :=
  {| rn_registro_casos_transi := raw;
     rn_detalle_casos_info_general := [];
     rn_detalle_casos_prestaciones := [];
     dm_rn_fechas_folio_padre := Some [];
     dm_rn_fechas_folio_hijo := Some [];
     dm_rn_folio_padre := Some [];
     dm_rn_folio_hijo := Some [] |}.

(** A store before the first run: raw snapshots and no table of the
    pipeline. *)
Definition cold_store (raw : list RawRow) : DB :=
  {| rn_registro_casos_transi := raw;
     rn_detalle_casos_info_general := [];
     rn_detalle_casos_prestaciones := [];
     dm_rn_fechas_folio_padre := None;
     dm_rn_fechas_folio_hijo := None;
     dm_rn_folio_padre := None;
     dm_rn_folio_hijo := None |}.

(** A store whose parent history holds the given rows. *)
Definition store_with_history (raw : list RawRow) (history : list PadreHist) : DB :=
  set_dm_rn_fechas_folio_padre (Some history) (empty_store raw).

(** A store after a first run over one parent folio "F1" with one child
    folio "H1", both seen at 100. *)
Definition store_after_first_run : DB :=
  (run (fun _ => false)
     (empty_store
        [snapshot_row "107223" "F1" (Some "H1") "Asignado" "Pendiente" 100 (Some 90)])).1.

(** A run in which no database call fails, and one in which exactly one
    call site fails. *)
Definition no_faults : Op → bool := fun _ => false.
Definition only (op : Op) : Op → bool := fun o => bool_decide (o = op).

(** A row of the parent history. *)
Definition padre_hist (cliente folio_padre : string) (fecha : Z) (estado : string) : PadreHist :=
  {| ph_cliente := cliente; ph_folio_padre := folio_padre;
     ph_fecha_registro := Some fecha; ph_estado_padre := estado |}.

(** ** The change detector in the words of the specification *)

Section TransitionsBySpec.
Context {R : Type} `{!HistoryFrame R}.

(** A row is a transition when it has no predecessor in its entity-key
    group, or when its status differs from that predecessor's. *)
Definition is_transition (prev : option R) (r : R) : Prop :=
  match prev with
  | Some p => group_cols p = group_cols r → state_col p ≠ state_col r
  | None => True
  end.

#[global] Instance is_transition_dec prev r : Decision (is_transition prev r).
Proof. unfold is_transition. destruct prev; apply _. Defined.

(** One linear scan of a sequence, each row compared with the row just
    before it. *)
Fixpoint transitions (prev : option R) (l : list R) : list R :=
  match l with
  | [] => []
  | r :: l' =>
      if decide (is_transition prev r) then r :: transitions (Some r) l'
      else transitions (Some r) l'
  end.

End TransitionsBySpec.

(** ** Notions used in the statements *)

(** The rows of the parent history of a store; none when the table does not
    exist. *)
Definition parent_history (db : DB) : list PadreHist :=
  default [] (dm_rn_fechas_folio_padre db).

(** The watermark of a store: the latest timestamp of its parent history. *)
Definition watermark (db : DB) : option Z :=
  ts_max (fecha_registro <$> parent_history db).

(** The raw rows that a run extracts: those newer than the watermark. *)
Definition new_batch (db : DB) : list RawRow :=
  match watermark db with
  | Some w => filter (fun r => w < raw_fecha_registro r) (rn_registro_casos_transi db)
  | None => rn_registro_casos_transi db
  end.

(** The tracking label that the specification gives a parent with
    assignment date [a] whose client was first seen at [f]. *)
Definition label_by_spec (a f : Z) : string :=
  if decide (f ≤ a) then "current" else "legacy".

(** The rows of [df_proc] that carry an assignment date and a first-snapshot
    timestamp. *)
Definition dated (x : RawRow * option Z) : Prop :=
  is_Some (raw_fecha_asignacion x.1) ∧ is_Some x.2.

#[global] Instance dated_dec x : Decision (dated x).
Proof. unfold dated. apply _. Defined.

(** Key and label of a dimension row, and of a dated row of [df_proc]. *)
Definition classified_as (d : DimPadre) : Key * string :=
  ((dp_cliente d, dp_folio_padre d), dp_tipo_seguimiento d).

Definition classified_by_spec (x : RawRow * option Z) : Key * string :=
  (raw_padre_key x.1,
   match raw_fecha_asignacion x.1, x.2 with
   | Some a, Some f => label_by_spec a f
   | _, _ => ""
   end).




(** The records that the parent branch of a run appends to a parent history
    [rows]: the transitions detected against the last known state, which is
    empty when its query failed, followed by the suppression records. *)
Definition parent_changes (state_query_failed : bool) (df_new snapshot : list RawRow)
    (rows : list PadreHist) : list PadreHist :=
  process_status_changes (padre_cols <$> df_new)
    (if state_query_failed then [] else latest_state rows)
  ++ (padre_of_suprimido <$> suprimidos_of (padre_cols <$> snapshot) (latest_state rows)).





(** A batch is admissible for a store when none of its rows carries the
    sentinel as a raw status and none belongs to a key that the parent
    history has already suppressed (no suppressed folio reappears). *)
Definition batch_admissible (db : DB) : Prop :=
  ∀ r, r ∈ new_batch db →
    raw_estado_padre r ≠ FOLIO_SUPRIMIDO
    ∧ ∀ h, h ∈ parent_history db → group_cols h = raw_padre_key r →
           state_col h ≠ FOLIO_SUPRIMIDO.

(** The scraper appends snapshot rows to the raw store. *)
Definition add_snapshots (rows : list RawRow) (db : DB) : DB :=
  {| rn_registro_casos_transi := rn_registro_casos_transi db ++ rows;
     rn_detalle_casos_info_general := rn_detalle_casos_info_general db;
     rn_detalle_casos_prestaciones := rn_detalle_casos_prestaciones db;
     dm_rn_fechas_folio_padre := dm_rn_fechas_folio_padre db;
     dm_rn_fechas_folio_hijo := dm_rn_fechas_folio_hijo db;
     dm_rn_folio_padre := dm_rn_folio_padre db;
     dm_rn_folio_hijo := dm_rn_folio_hijo db |}.


(** Every batch of the sequence is admissible for the store it meets. *)
Fixpoint admissible (steps : list ((Op → bool) * list RawRow)) (db : DB) : Prop :=
  match steps with
  | [] => True
  | (faults, added) :: rest =>
      batch_admissible (add_snapshots added db)
      ∧ admissible rest (run faults (add_snapshots added db)).1
  end.

(** ** Effects of a computation on the store *)

(** [m] leaves the part [proj] of the store as it found it, whatever it
    returns or raises. *)
Definition preserves {A T : Type} (proj : DB → T) (m : M A) : Prop :=
  ∀ db, proj (m db).1 = proj db.

(** [m] never ends with the exception [e]. *)
Definition never_raises {A : Type} (e : Exception) (m : M A) : Prop :=
  ∀ db, (m db).2 ≠ Raise e.

(** The rows of the child history of a store; none when the table does not
    exist. *)
Definition child_history (db : DB) : list HijoHist :=
  default [] (dm_rn_fechas_folio_hijo db).

(** The records that the child branch of a run appends to a child history
    [rows]: the transitions detected against the last known state, which is
    empty when its query failed, followed by the suppression records, each
    completed from the last row of its key; the suppression records are left
    out when the second query of the last known state failed. *)
Definition child_changes (state_query_failed full_state_query_failed : bool)
    (df_new snapshot : list RawRow) (rows : list HijoHist) : list HijoHist :=
  process_status_changes (omap hijo_cols df_new)
    (if state_query_failed then [] else latest_state rows)
  ++ match suprimidos_of (omap hijo_cols snapshot) (latest_state rows),
           (if full_state_query_failed then [] else latest_state rows) with
     | [], _ | _, [] => []
     | df_suprimidos_hijo, full_state =>
         merge_left (fun s st => bool_decide (sup_key s = group_cols st))
                    hijo_of_suprimido df_suprimidos_hijo full_state
     end.

(** ** Invariants and exceptions of a computation

    [hoare I m Q E]: started in a store that satisfies [I], the computation
    [m] leaves a store that satisfies [I]; when it returns, the value
    satisfies [Q], and when it raises, the exception satisfies [E]. *)
Definition hoare {A : Type} (I : DB → Prop) (m : M A) (Q : A → Prop)
    (E : Exception → Prop) : Prop :=
  ∀ db, I db →
    I (m db).1 ∧ match (m db).2 with
                 | Ok a => Q a
                 | Raise e => E e
                 end.

(** The database calls of a run that stand under no [try] of their own:
    their exception reaches the handler of [run], which raises it again. *)
Definition fatal_ops : list Op :=
  [OpMaxDate; OpExtract; OpSuprimidosPadre; OpPersistPadre; OpClientStarts;
   OpDimPadreInsert; OpSuprimidosHijo; OpPersistHijo].

(** Two rows tie in an order when each sorts before the other; a stable sort
    keeps such rows in the order it found them. *)
Definition ties {A : Type} (R : relation A) (x y : A) : Prop := R x y ∧ R y x.

#[global] Instance ties_dec {A : Type} (R : relation A) `{!RelDecision R} x y :
  Decision (ties R x y).
Proof. unfold ties. apply _. Defined.

(** The key of a row of the parent dimension. *)
Definition dim_padre_key (d : DimPadre) : Key := (dp_cliente d, dp_folio_padre d).

(** The rows of a dimension table; none when the table does not exist. *)
Definition padre_dimension (db : DB) : list DimPadre := default [] (dm_rn_folio_padre db).
Definition hijo_dimension (db : DB) : list DimHijo := default [] (dm_rn_folio_hijo db).

(** What holds of every frame that [update_dimensions_padre] hands to its
    upsert for the folios [folios]: one row per key, each of an affected
    folio, classified, with an assignment date, and with no url that holds
    "codificado". *)
Definition rebuilt_padre (folios : list string) (df : list DimPadre) : Prop :=
  NoDup (dim_padre_key <$> df)
  ∧ ∀ d, d ∈ df →
      dp_folio_padre d ∈ folios
      ∧ (dp_tipo_seguimiento d = "current" ∨ dp_tipo_seguimiento d = "legacy")
      ∧ is_Some (dp_fecha_asignacion d)
      ∧ ∀ u, dp_url_ficha d = Some u → contains "codificado" u = false.

(** What holds of every frame that [update_dimensions_hijo] hands to its
    upsert: every row belongs to one of the child folios asked for. *)
Definition rebuilt_hijo (placeholders_hijo : list string) (df : list DimHijo) : Prop :=
  ∀ d, d ∈ df → dh_folio_hijo d ∈ placeholders_hijo.

(** The rows of the two dimensions in [store_after_first_run]. *)
Definition first_run_dim_padre : DimPadre :=
  {| dp_cliente := "107223"; dp_folio_padre := "F1"; dp_fecha_asignacion := Some 90;
     dp_rut_paciente := "1-9"; dp_nombre_paciente := "paciente";
     dp_intervencion_sanitaria := "intervencion"; dp_url_ficha := Some "ficha";
     dp_tipo_seguimiento := "legacy"; dp_fecha_asignacion_aceptada := None;
     dp_fecha_atencion := None; dp_intervencion_sanitaria_ingreso := None;
     dp_problema_salud := None; dp_ultimo_estado_folio_padre := Some "Asignado";
     dp_fecha_ultimo_estado_folio_padre := Some 100 |}.

Definition first_run_dim_hijo : DimHijo :=
  {| dh_cliente := "107223"; dh_folio_padre := "F1"; dh_folio_hijo := "H1";
     dh_intervencion_sanitaria := "intervencion"; dh_ppa_grd := Some "GRD";
     dh_monto_total := 0; dh_url_ficha := Some "ficha"; dh_descripcion := None;
     dh_estado_prestacion := None; dh_tipo_seguimiento := Some "legacy";
     dh_ultimo_estado_folio_hijo := Some "Pendiente";
     dh_fecha_ultimo_estado_folio_hijo := Some 100;
     dh_primer_estado_folio_hijo := Some "Pendiente";
     dh_fecha_primer_estado_folio_hijo := Some 100; dh_grd := None |}.

(** ** The snapshot store helpers, [config/db_manager/db_manager.py] *)

Module db_manager.

(** The tables that [settings.py] names and the scraper fills. *)
Inductive Tabla : Type → Type :=
  | TABLA_REGISTRO_CASOS : Tabla RawRow
  | TABLA_DETALLE_CASOS : Tabla InfoGeneral
  | TABLA_PRESTACIONES_CASOS : Tabla Prestacion.

(** The database calls of the module. *)
Inductive Query :=
  | QryUltimaFecha      (* revisar_ultima_actualizacion: first query *)
  | QryUltimoRegistro   (* revisar_ultima_actualizacion: second query *)
  | QryGuardar.         (* guardar_en_db: to_sql *)

Inductive Error :=
  | IndexError                  (* [values[0]] on a frame without rows *)
  | DatabaseError (q : Query).  (* the connection or the statement failed *)

(** The order of [ORDER BY fecha_registro DESC]. *)
Definition fecha_desc : relation Z := fun a b => b ≤ a.

#[global] Instance fecha_desc_dec : RelDecision fecha_desc.
Proof. intros a b. unfold fecha_desc. apply _. Defined.

(** [SELECT fecha_registro FROM rn_registro_casos_transi WHERE cliente = id
    ORDER BY fecha_registro DESC LIMIT 1]. *)
Definition ultima_fecha_registro (cliente_id : string) (raw : list RawRow) : list Z :=
  take 1 (stable_sort fecha_desc
            (raw_fecha_registro <$> filter (fun r => raw_cliente r = cliente_id) raw)).

(** [revisar_ultima_actualizacion]: the timestamp of the client's latest row,
    [df['fecha_registro'].values[0]], then every row of the client that
    carries that timestamp. *)
Definition revisar_ultima_actualizacion (faults : Query → bool) (cliente_id : string)
    (db : DB) : Error + list RawRow :=
  if faults QryUltimaFecha then inl (DatabaseError QryUltimaFecha)
  else match ultima_fecha_registro cliente_id (rn_registro_casos_transi db) with
       | [] => inl IndexError
       | fecha_registro :: _ =>
           if faults QryUltimoRegistro then inl (DatabaseError QryUltimoRegistro)
           else inr (filter (fun r => raw_cliente r = cliente_id
                                      ∧ raw_fecha_registro r = fecha_registro)
                            (rn_registro_casos_transi db))
       end.

(** [datos.to_sql(tabla, engine, if_exists='append', index=False)] on a
    store. *)
Definition append_rows {T : Type} (tabla : Tabla T) : list T → DB → DB :=
  match tabla in Tabla T return list T → DB → DB with
  | TABLA_REGISTRO_CASOS => add_snapshots
  | TABLA_DETALLE_CASOS => fun datos db =>
      {| rn_registro_casos_transi := rn_registro_casos_transi db;
         rn_detalle_casos_info_general := rn_detalle_casos_info_general db ++ datos;
         rn_detalle_casos_prestaciones := rn_detalle_casos_prestaciones db;
         dm_rn_fechas_folio_padre := dm_rn_fechas_folio_padre db;
         dm_rn_fechas_folio_hijo := dm_rn_fechas_folio_hijo db;
         dm_rn_folio_padre := dm_rn_folio_padre db;
         dm_rn_folio_hijo := dm_rn_folio_hijo db |}
  | TABLA_PRESTACIONES_CASOS => fun datos db =>
      {| rn_registro_casos_transi := rn_registro_casos_transi db;
         rn_detalle_casos_info_general := rn_detalle_casos_info_general db;
         rn_detalle_casos_prestaciones := rn_detalle_casos_prestaciones db ++ datos;
         dm_rn_fechas_folio_padre := dm_rn_fechas_folio_padre db;
         dm_rn_fechas_folio_hijo := dm_rn_fechas_folio_hijo db;
         dm_rn_folio_padre := dm_rn_folio_padre db;
         dm_rn_folio_hijo := dm_rn_folio_hijo db |}
  end.

(** [guardar_en_db]. *)
Definition guardar_en_db {T : Type} (faults : Query → bool) (datos : list T)
    (tabla : Tabla T) (db : DB) : DB * (Error + unit) :=
  if faults QryGuardar then (db, inl (DatabaseError QryGuardar))
  else (append_rows tabla datos db, inr tt).

End db_manager.

(** * Properties *)

(** ** The orders are total preorders *)

Section LexicographicFacts.
Context {A B : Type} (RA : relation A) (RB : relation B).

Lemma lex_le_total `{!EqDecision A, !Total RA, !Total RB} : Total (lex_le RA RB).
Proof.
  intros [a1 b1] [a2 b2]. unfold lex_le. simpl.
  destruct (decide (a1 = a2)) as [->|Hne].
  - destruct (total RB b1 b2); [left | right]; right; done.
  - destruct (total RA a1 a2); [left | right]; left; split; congruence.
Qed.

Lemma lex_le_trans `{!PartialOrder RA, !Transitive RB} : Transitive (lex_le RA RB).
Proof.
  intros [a1 b1] [a2 b2] [a3 b3]. unfold lex_le. simpl.
  intros [[Hn1 H1]|[-> H1]] [[Hn2 H2]|[-> H2]].
  - left. split; [|by etrans].
    intros ->. apply Hn1. by apply (anti_symm RA).
  - left. done.
  - left. done.
  - right. split; [done|by etrans].
Qed.

Lemma lex_le_refl `{!Reflexive RB} : Reflexive (lex_le RA RB).
Proof. intros [a b]. right. done. Qed.

Lemma lex_le_antisym `{!PartialOrder RA, !AntiSymm (=) RB} : AntiSymm (=) (lex_le RA RB).
Proof.
  intros [a1 b1] [a2 b2]. unfold lex_le. simpl.
  intros [[Hn1 H1]|[-> H1]] [[Hn2 H2]|[E2 H2]]; try congruence.
  - exfalso. apply Hn1. by apply (anti_symm RA).
  - f_equal. by apply (anti_symm RB).
Qed.

(** The first components of two ordered pairs are ordered. *)
Lemma lex_le_fst `{!Reflexive RA} x y : lex_le RA RB x y → RA x.1 y.1.
Proof. intros [[_ H]|[-> _]]; done. Qed.

End LexicographicFacts.

#[global] Instance key_le_po : PartialOrder key_le.
Proof.
  split; [split|].
  - apply lex_le_refl; apply _.
  - apply lex_le_trans; apply _.
  - apply lex_le_antisym; apply _.
Qed.

#[global] Instance key_le_total : Total key_le.
Proof. apply lex_le_total; apply _. Qed.

#[global] Instance ts_le_po : PartialOrder ts_le.
Proof.
  split; [split|].
  - intros [x|]; simpl; lia.
  - intros [x|] [y|] [z|]; simpl; lia.
  - intros [x|] [y|]; simpl; try done. intros. f_equal. lia.
Qed.

#[global] Instance ts_le_total : Total ts_le.
Proof. intros [x|] [y|]; simpl; try lia; auto. Qed.

#[global] Instance ts_ge_nulls_first_po : PartialOrder ts_ge_nulls_first.
Proof.
  unfold ts_ge_nulls_first. split; [split|].
  - intros x. reflexivity.
  - intros x y z ??. by etrans.
  - intros x y ??. by apply (anti_symm ts_le).
Qed.

#[global] Instance ts_ge_nulls_first_total : Total ts_ge_nulls_first.
Proof. intros x y. unfold ts_ge_nulls_first. destruct (total ts_le x y); auto. Qed.

(** ** The stable sort returns a sorted permutation *)

Section StableSortFacts.
Context {A : Type} (R : relation A) `{!RelDecision R}.

Lemma insert_sorted_Permutation x l : insert_sorted R x l ≡ₚ x :: l.
Proof.
  induction l as [|y l IH]; simpl; [done|].
  case_decide; [done|]. rewrite IH. apply Permutation_swap.
Qed.

Lemma stable_sort_Permutation l : stable_sort R l ≡ₚ l.
Proof.
  induction l as [|x l IH]; simpl; [done|].
  by rewrite insert_sorted_Permutation, IH.
Qed.

Lemma elem_of_stable_sort x l : x ∈ stable_sort R l ↔ x ∈ l.
Proof. by rewrite stable_sort_Permutation. Qed.

Context `{!Total R, !Transitive R}.

Lemma insert_sorted_StronglySorted x l :
  StronglySorted R l → StronglySorted R (insert_sorted R x l).
Proof.
  induction 1 as [|y l Hl IH Hy]; simpl.
  - repeat constructor.
  - case_decide as Hxy.
    + constructor; [by constructor|].
      constructor; [done|]. eapply Forall_impl; [exact Hy|].
      intros z Hz. by etrans.
    + constructor; [done|].
      rewrite insert_sorted_Permutation. constructor; [|done].
      destruct (total R x y); done.
Qed.

Lemma stable_sort_StronglySorted l : StronglySorted R (stable_sort R l).
Proof.
  induction l; simpl; [constructor|]. by apply insert_sorted_StronglySorted.
Qed.

Lemma insert_sorted_head x l :
  Forall (R x) l → insert_sorted R x l = x :: l.
Proof. destruct 1; simpl; [done|]. by rewrite decide_True. Qed.

Lemma filter_insert_sorted (P : A → Prop) `{!∀ x, Decision (P x)} x l :
  StronglySorted R l →
  filter P (insert_sorted R x l) =
    if decide (P x) then insert_sorted R x (filter P l) else filter P l.
Proof.
  induction 1 as [|y l Hl IH Hy]; simpl.
  - rewrite filter_cons, filter_nil. by destruct (decide (P x)).
  - destruct (decide (R x y)) as [Hxy|Hxy].
    + rewrite !filter_cons. destruct (decide (P x)); [|done].
      destruct (decide (P y)); simpl.
      * by rewrite decide_True.
      * rewrite insert_sorted_head; [done|].
        apply Forall_forall. intros z [_ Hz]%list_elem_of_filter.
        rewrite Forall_forall in Hy. etrans; [exact Hxy|]. by apply Hy.
    + rewrite !filter_cons, IH.
      destruct (decide (P x)), (decide (P y)); simpl; try done.
      by rewrite decide_False.
Qed.

(** Sorting commutes with a filter: the sort is stable. *)
Lemma filter_stable_sort (P : A → Prop) `{!∀ x, Decision (P x)} l :
  filter P (stable_sort R l) = stable_sort R (filter P l).
Proof.
  induction l as [|x l IH]; simpl; [done|].
  rewrite filter_insert_sorted by apply stable_sort_StronglySorted.
  rewrite filter_cons. case_decide; simpl; by rewrite IH.
Qed.

(** A list that is already sorted is left as it is. *)
Lemma stable_sort_sorted l : StronglySorted R l → stable_sort R l = l.
Proof.
  induction 1 as [|x l Hl IH Hx]; simpl; [done|].
  rewrite IH. by apply insert_sorted_head.
Qed.

End StableSortFacts.

Section FrameOrderFacts.
Context {R : Type} `{!HistoryFrame R}.

#[global] Instance row_le_total : Total (row_le (R:=R)).
Proof.
  intros r1 r2. unfold row_le.
  apply (lex_le_total key_le ts_le).
Qed.

#[global] Instance row_le_trans : Transitive (row_le (R:=R)).
Proof.
  intros r1 r2 r3. unfold row_le.
  apply (lex_le_trans key_le ts_le).
Qed.

Lemma row_le_key r1 r2 : row_le r1 r2 → key_le (group_cols r1) (group_cols r2).
Proof. intros H. exact (lex_le_fst key_le ts_le _ _ H). Qed.

Lemma sort_values_sorted (l : list R) : StronglySorted row_le (sort_values l).
Proof. apply stable_sort_StronglySorted; apply _. Qed.

Lemma sort_values_Permutation (l : list R) : sort_values l ≡ₚ l.
Proof. apply stable_sort_Permutation. Qed.

End FrameOrderFacts.

(** ** The change detector *)

Section ChangeDetectorFacts.
Context {R : Type} `{!HistoryFrame R}.

Implicit Types (l : list R) (seen : gmap Key string) (k : Key).

(** On a frame sorted by key, the shifted status of a row is the status of the
    row just before it when both have the same key, and null otherwise: the
    rows kept by the shift-and-compare are the transitions of one scan. *)
Lemma changes_of_sorted seen prev l :
  StronglySorted row_le l →
  (∀ r k, r ∈ l → is_Some (seen !! k) → key_le k (group_cols r)) →
  match prev with
  | None => seen = ∅
  | Some p => seen !! group_cols p = Some (state_col p)
              ∧ ∀ k, is_Some (seen !! k) → key_le k (group_cols p)
  end →
  (filter state_changed (groupby_shift seen l)).*1 = transitions prev l.
Proof.
  intros Hs. revert seen prev.
  induction Hs as [|r l Hl IH Hr]; intros seen prev Hseen Hprev; [done|].
  simpl. rewrite filter_cons.
  assert (state_changed (r, seen !! group_cols r) ↔ is_transition prev r) as Hiff.
  { unfold state_changed, is_transition. simpl. destruct prev as [p|].
    - destruct Hprev as [Hp Hmax].
      destruct (decide (group_cols p = group_cols r)) as [E|NE].
      + rewrite <- E, Hp. split; [intros H _ | intros H]; [congruence|].
        specialize (H eq_refl). congruence.
      + destruct (seen !! group_cols r) eqn:Hk; [|done].
        exfalso. apply NE. apply (anti_symm key_le).
        * apply (Hseen r); [left|]. by rewrite Hp.
        * apply Hmax. by rewrite Hk.
    - subst seen. by rewrite lookup_empty. }
  assert ((filter state_changed
             (groupby_shift (<[group_cols r:=state_col r]> seen) l)).*1
          = transitions (Some r) l) as Htail.
  { apply IH.
    - intros r' k Hr' Hk. destruct (decide (k = group_cols r)) as [->|NE].
      + apply row_le_key. rewrite Forall_forall in Hr. by apply Hr.
      + rewrite lookup_insert_ne in Hk by done. apply Hseen; [by right|done].
    - split; [by rewrite lookup_insert_eq|].
      intros k Hk. destruct (decide (k = group_cols r)) as [->|NE]; [done|].
      rewrite lookup_insert_ne in Hk by done. apply Hseen; [left|done]. }
  destruct (decide (state_changed (r, seen !! group_cols r))) as [Hc|Hc];
    destruct (decide (is_transition prev r)) as [Ht|Ht]; try tauto.
  by rewrite fmap_cons, Htail.
Qed.

(** The shifted status of a row depends on the rows of its own key only. *)
Lemma changes_of_group k seen seen' l :
  seen !! k = seen' !! k →
  filter (fun r => group_cols r = k) (filter state_changed (groupby_shift seen l)).*1
  = (filter state_changed
       (groupby_shift seen' (filter (fun r => group_cols r = k) l))).*1.
Proof.
  revert seen seen'. induction l as [|r l IH]; intros seen seen' Hk; [done|].
  simpl. rewrite !filter_cons.
  destruct (decide (group_cols r = k)) as [E|NE].
  - simpl. rewrite filter_cons. simpl.
    assert (seen !! group_cols r = seen' !! group_cols r) as -> by by rewrite E.
    assert (∀ tl tl' : list R,
              filter (fun r => group_cols r = k) tl = tl' →
              filter (fun r => group_cols r = k) (r :: tl) = r :: tl') as Hcons.
    { intros tl tl' <-. by rewrite filter_cons_True. }
    specialize (IH (<[group_cols r:=state_col r]> seen)
                   (<[group_cols r:=state_col r]> seen')).
    destruct (decide (state_changed (r, seen' !! group_cols r))); simpl.
    + apply Hcons, IH. rewrite E. by rewrite !lookup_insert_eq.
    + apply IH. rewrite E. by rewrite !lookup_insert_eq.
  - assert (filter (fun r => group_cols r = k)
              (filter state_changed
                 (groupby_shift (<[group_cols r:=state_col r]> seen) l)).*1
            = (filter state_changed
                 (groupby_shift seen' (filter (fun r => group_cols r = k) l))).*1)
      as Htail.
    { apply IH. by rewrite lookup_insert_ne. }
    destruct (decide (state_changed (r, seen !! group_cols r))); simpl; [|done].
    by rewrite filter_cons_False.
Qed.

Lemma filter_comm (P Q : R → Prop) `{!∀ x, Decision (P x), !∀ x, Decision (Q x)} l :
  filter P (filter Q l) = filter Q (filter P l).
Proof.
  rewrite !list_filter_filter. apply list_filter_iff. tauto.
Qed.

Lemma sort_values_filter (P : R → Prop) `{!∀ x, Decision (P x)} l :
  filter P (sort_values l) = sort_values (filter P l).
Proof. apply filter_stable_sort; apply _. Qed.

(** The rows of one key that [process_status_changes] returns are computed
    from the rows of that key alone. *)
Lemma process_status_changes_group k (df_new df_db_state : list R) :
  filter (fun r => group_cols r = k) (process_status_changes df_new df_db_state)
  = filter (fecha_ge (ts_min (fecha_registro <$> df_new)))
      (filter state_changed
         (groupby_shift ∅
            (sort_values (filter (fun r => group_cols r = k) df_db_state
                          ++ filter (fun r => group_cols r = k) df_new)))).*1.
Proof.
  unfold process_status_changes.
  rewrite filter_comm, (changes_of_group k ∅ ∅) by done.
  by rewrite sort_values_filter, filter_app.
Qed.

(** [process_status_changes] in the words of the specification. *)
Lemma process_status_changes_transitions (df_new df_db_state : list R) :
  process_status_changes df_new df_db_state
  = filter (fecha_ge (ts_min (fecha_registro <$> df_new)))
      (transitions None (sort_values (df_db_state ++ df_new))).
Proof.
  unfold process_status_changes.
  rewrite (changes_of_sorted ∅ None); [done|apply sort_values_sorted| |done].
  intros r k _ [x Hx]. by rewrite lookup_empty in Hx.
Qed.

(** The two sorts of [fix_ETL.py] amount to the second one. *)
Lemma compress_changes_transitions (df : list R) :
  compress_changes df = transitions None (sort_values (stable_sort cliente_fecha_le df)).
Proof.
  unfold compress_changes.
  rewrite (changes_of_sorted ∅ None); [done|apply sort_values_sorted| |done].
  intros r k _ [x Hx]. by rewrite lookup_empty in Hx.
Qed.

Lemma ts_min_le (ts : list (option Z)) t :
  Some t ∈ ts → ∃ m, ts_min ts = Some m ∧ m ≤ t.
Proof.
  induction ts as [|x ts IH]; [by intros ?%elem_of_nil|].
  intros [<-|Hin]%elem_of_cons; simpl.
  - destruct (ts_min ts) as [m|]; eexists; split; try done; lia.
  - destruct (IH Hin) as (m & -> & Hm).
    destruct x as [x|]; eexists; split; try done; lia.
Qed.

Lemma ts_max_ge (ts : list (option Z)) t :
  Some t ∈ ts → ∃ m, ts_max ts = Some m ∧ t ≤ m.
Proof.
  induction ts as [|x ts IH]; [by intros ?%elem_of_nil|].
  intros [<-|Hin]%elem_of_cons; simpl.
  - destruct (ts_max ts) as [m|]; eexists; split; try done; lia.
  - destruct (IH Hin) as (m & -> & Hm).
    destruct x as [x|]; eexists; split; try done; lia.
Qed.

Lemma fecha_ge_new (df_new : list R) r t :
  r ∈ df_new → fecha_registro r = Some t →
  fecha_ge (ts_min (fecha_registro <$> df_new)) r.
Proof.
  intros Hin Ht. unfold fecha_ge. rewrite Ht.
  destruct (ts_min_le (fecha_registro <$> df_new) t) as (m & -> & Hm); [|done].
  rewrite <- Ht. by apply list_elem_of_fmap_2.
Qed.

End ChangeDetectorFacts.

Section RunLengthCompression.
Context {R : Type} `{!HistoryFrame R}.

Lemma filter_none (P : R → Prop) `{!∀ x, Decision (P x)} (l : list R) :
  (∀ x, x ∈ l → ¬ P x) → filter P l = [].
Proof.
  induction l as [|x l IH]; intros Hall; [done|].
  rewrite filter_cons_False by (apply Hall; left).
  apply IH. intros y Hy. apply Hall. by right.
Qed.



End RunLengthCompression.


(** ** Reads of the store *)

Ltac unfold_M :=
  unfold mbind, mret, fmap, M_bind, M_ret, M_fmap, try_except, raise in *.

Section ReadFacts.
Variable faults : Op → bool.

(** The watermark query returns the latest persisted timestamp, or nothing
    for an absent or empty history, and does not touch the store. *)
Lemma get_max_date_ok db :
  faults OpMaxDate = false →
  get_max_date faults dm_rn_fechas_folio_padre db = (db, Ok (watermark db)).
Proof.
  intros Hf. unfold get_max_date, has_table, read_table, watermark, parent_history.
  unfold_M. rewrite Hf.
  destruct (dm_rn_fechas_folio_padre db) as [rows|] eqn:E; simpl;
    by rewrite ?Hf, ?E.
Qed.

Lemma get_max_date_fault {R : Type} `{!HistoryFrame R} (table : DB → option (list R)) db :
  faults OpMaxDate = true →
  get_max_date faults table db = (db, Raise (OperationalError OpMaxDate)).
Proof.
  intros Hf. unfold get_max_date, has_table. unfold_M. by rewrite Hf.
Qed.

Lemma extract_new_data_ok db :
  faults OpExtract = false →
  extract_new_data faults (watermark db) db = (db, Ok (new_batch db)).
Proof.
  intros Hf. unfold extract_new_data, read_rows, new_batch. unfold_M.
  by rewrite Hf.
Qed.


(** The last-known-state query never raises and does not touch the store:
    it returns the latest row of each key, or an empty frame when the table
    is absent or the query fails. *)
Lemma get_latest_state_from_db_spec {R : Type} `{!HistoryFrame R}
    op (table : DB → option (list R)) db :
  get_latest_state_from_db faults op table db
  = (db, Ok (if faults op then []
             else match table db with
                  | Some rows => latest_state rows
                  | None => []
                  end)).
Proof.
  unfold get_latest_state_from_db, has_table, read_table. unfold_M.
  destruct (faults op) eqn:Hf; [done|].
  destruct (table db) as [rows|] eqn:E; simpl; by rewrite ?Hf, ?E.
Qed.

(** The suppression query is not guarded: it raises when the table is
    absent or the query fails. *)
Lemma detect_suprimidos_spec {R : Type} `{!HistoryFrame R}
    op (snapshot : list R) (table : DB → option (list R)) db :
  detect_suprimidos faults op snapshot table db
  = (db, if faults op then Raise (OperationalError op)
         else match table db with
              | Some rows => Ok (suprimidos_of snapshot (latest_state rows))
              | None => Raise (UndefinedTable op)
              end).
Proof.
  unfold detect_suprimidos, read_table. unfold_M.
  destruct (faults op); [done|]. by destruct (table db).
Qed.

End ReadFacts.

(** C10.  On a cold start the suppression inferencer synthesizes nothing:
    against a history table that exists and is empty it returns an empty
    frame for every snapshot slice.  Against a table that does not exist,
    however, its unguarded query raises, where the last-known-state query,
    which tests for the table first, returns an empty frame. *)
Theorem detect_suprimidos_cold_start {R : Type} `{!HistoryFrame R}
    (faults : Op → bool) (op : Op) (snapshot : list R)
    (table : DB → option (list R)) (db : DB) :
  faults op = false →
  (table db = Some [] →
     detect_suprimidos faults op snapshot table db = (db, Ok []))
  ∧ (table db = None →
     detect_suprimidos faults op snapshot table db = (db, Raise (UndefinedTable op))
     ∧ get_latest_state_from_db faults op table db = (db, Ok [])).
Proof.
  intros Hf. split; intros E.
  - by rewrite detect_suprimidos_spec, Hf, E.
  - by rewrite detect_suprimidos_spec, get_latest_state_from_db_spec, Hf, E.
Qed.

Lemma detect_suprimidos_cold_start_witness :
  let snapshot := [padre_hist "107223" "F1" 100 "Asignado"] in
  let raw := [snapshot_row "107223" "F1" None "Asignado" "" 100 (Some 90)] in
  detect_suprimidos no_faults OpSuprimidosPadre snapshot dm_rn_fechas_folio_padre
    (empty_store raw) = (empty_store raw, Ok [])
  ∧ detect_suprimidos no_faults OpSuprimidosPadre snapshot dm_rn_fechas_folio_padre
      (cold_store raw) = (cold_store raw, Raise (UndefinedTable OpSuprimidosPadre))
  ∧ get_latest_state_from_db no_faults OpSuprimidosPadre dm_rn_fechas_folio_padre
      (cold_store raw) = (cold_store raw, Ok []).
Proof.
  intros snapshot raw.
  split.
  - exact (proj1 (detect_suprimidos_cold_start no_faults OpSuprimidosPadre snapshot
                    dm_rn_fechas_folio_padre (empty_store raw) eq_refl) eq_refl).
  - exact (proj2 (detect_suprimidos_cold_start no_faults OpSuprimidosPadre snapshot
                    dm_rn_fechas_folio_padre (cold_store raw) eq_refl) eq_refl).
Defined.

(** The first run on a store without history tables does not complete: the
    suppression query of the parent branch raises and [run] passes the
    exception on. *)
Lemma run_on_cold_store_raises :
  let raw := [snapshot_row "107223" "F1" None "Asignado" "" 100 (Some 90)] in
  run no_faults (cold_store raw)
  = (cold_store raw, Raise (UndefinedTable OpSuprimidosPadre)).
Proof. vm_compute. reflexivity. Qed.

(** ** The run: watermark, extraction and the two branches *)

Lemma try_except_reraise {A : Type} (m : M A) db :
  try_except m (fun e => raise e) db = m db.
Proof. unfold try_except, raise. by destruct (m db) as [db' [a|e]]. Qed.

(** When the watermark and extraction queries succeed, a run is over if
    nothing is newer than the watermark, and otherwise it is the parent
    branch followed by the child branch on the extracted batch. *)
Lemma run_spec faults db :
  faults OpMaxDate = false → faults OpExtract = false →
  run faults db
  = match new_batch db with
    | [] => (db, Ok tt)
    | _ =>
      (process_folio_padre faults (new_batch db) (latest_snapshot (new_batch db));;
       process_folio_hijo faults (new_batch db) (latest_snapshot (new_batch db))) db
    end.
Proof.
  intros Hm He. unfold run. rewrite try_except_reraise.
  unfold mbind at 1. unfold M_bind. rewrite get_max_date_ok by done.
  unfold mbind at 1. unfold M_bind. rewrite extract_new_data_ok by done.
  by destruct (new_batch db).
Qed.






(** The slip behind the second way in which a rerun is not idempotent: the
    child history is read up to its own latest timestamp while the batch
    starts at the parent watermark, so the last persisted child row can be
    dated inside the batch; it then passes the date filter of
    [process_status_changes] and is appended a second time. *)
Lemma second_run_reinserts_a_child_row :
  let db := empty_store
              [snapshot_row "107223" "F1" (Some "H1") "Asignado" "Pendiente" 100 (Some 90);
               snapshot_row "107223" "F1" (Some "H1") "Asignado" "Aceptado" 200 (Some 90)] in
  let db1 := (run no_faults db).1 in
  let db2 := (run no_faults db1).1 in
  (hh_fecha_registro <$> default [] (dm_rn_fechas_folio_hijo db1), 
   hh_estado_hijo <$> default [] (dm_rn_fechas_folio_hijo db1))
  = ([Some 100; Some 200], ["Pendiente"; "Aceptado"])
  ∧ (hh_fecha_registro <$> default [] (dm_rn_fechas_folio_hijo db2),
     hh_estado_hijo <$> default [] (dm_rn_fechas_folio_hijo db2))
    = ([Some 100; Some 200; Some 200], ["Pendiente"; "Aceptado"; "Aceptado"]).
Proof. intros db db1 db2. split; vm_compute; reflexivity. Qed.

(** ** Failures of database reads *)






(** ** Replacement of dimension rows *)

Section UpsertFacts.
Variable faults : Op → bool.

Lemma upsert_padre_spec placeholders df_final db :
  upsert_padre faults placeholders df_final db
  = let db' :=
      if faults OpDimPadreDelete then db
      else match dm_rn_folio_padre db with
           | Some rows =>
               set_dm_rn_folio_padre
                 (Some (filter (fun d => ¬ dp_folio_padre d ∈ placeholders) rows)) db
           | None => db
           end in
    if faults OpDimPadreInsert then (db', Raise (OperationalError OpDimPadreInsert))
    else (set_dm_rn_folio_padre
            (Some (default [] (dm_rn_folio_padre db') ++ df_final)) db', Ok tt).
Proof.
  unfold upsert_padre, delete_where, to_sql_append. unfold_M.
  destruct (faults OpDimPadreDelete); simpl.
  - by destruct (faults OpDimPadreInsert).
  - destruct (dm_rn_folio_padre db); by destruct (faults OpDimPadreInsert).
Qed.

Lemma upsert_hijo_spec placeholders df_base db :
  upsert_hijo faults placeholders df_base db
  = if faults OpDimHijoDelete then (db, Ok tt)
    else match dm_rn_folio_hijo db with
         | Some rows =>
             let deleted := filter (fun d => ¬ dh_folio_hijo d ∈ placeholders) rows in
             if faults OpDimHijoInsert
             then (set_dm_rn_folio_hijo (Some deleted) db, Ok tt)
             else (set_dm_rn_folio_hijo (Some (deleted ++ df_base)) db, Ok tt)
         | None => (db, Ok tt)
         end.
Proof.
  unfold upsert_hijo, delete_where, to_sql_append. unfold_M.
  destruct (faults OpDimHijoDelete); simpl; [done|].
  destruct (dm_rn_folio_hijo db); [|done].
  by destruct (faults OpDimHijoInsert).
Qed.

End UpsertFacts.

(** C5, as amended.  The replacement of dimension rows is a delete that is
    committed on its own, followed by a separate insert; the two are not one
    atomic unit.  When both succeed the rows of the affected folios are
    replaced by the new rows.  In the child rebuilder a failed delete skips
    the insert and leaves the table unchanged.  In both rebuilders an insert
    that fails after the committed delete leaves the affected rows deleted
    with no replacement; the child rebuilder logs that failure, the parent
    rebuilder raises it. *)
Theorem dimension_replacement_steps (faults : Op → bool) (db : DB)
    (folios : list string) (df_final : list DimPadre)
    (placeholders_hijo : list string) (df_base : list DimHijo)
    (padres : list DimPadre) (hijos : list DimHijo) :
  dm_rn_folio_padre db = Some padres →
  dm_rn_folio_hijo db = Some hijos →
  (faults OpDimPadreDelete = false → faults OpDimPadreInsert = false →
     upsert_padre faults folios df_final db
     = (set_dm_rn_folio_padre
          (Some (filter (fun d => ¬ dp_folio_padre d ∈ folios) padres ++ df_final)) db,
        Ok tt))
  ∧ (faults OpDimHijoDelete = false → faults OpDimHijoInsert = false →
     upsert_hijo faults placeholders_hijo df_base db
     = (set_dm_rn_folio_hijo
          (Some (filter (fun d => ¬ dh_folio_hijo d ∈ placeholders_hijo) hijos ++ df_base)) db,
        Ok tt))
  ∧ (faults OpDimHijoDelete = true →
     upsert_hijo faults placeholders_hijo df_base db = (db, Ok tt))
  ∧ (faults OpDimHijoDelete = false → faults OpDimHijoInsert = true →
     upsert_hijo faults placeholders_hijo df_base db
     = (set_dm_rn_folio_hijo
          (Some (filter (fun d => ¬ dh_folio_hijo d ∈ placeholders_hijo) hijos)) db,
        Ok tt))
  ∧ (faults OpDimPadreDelete = false → faults OpDimPadreInsert = true →
     upsert_padre faults folios df_final db
     = (set_dm_rn_folio_padre
          (Some (filter (fun d => ¬ dp_folio_padre d ∈ folios) padres)) db,
        Raise (OperationalError OpDimPadreInsert))).
Proof.
  intros Hp Hh. split; [|split; [|split; [|split]]].
  - intros Hd Hi. by rewrite upsert_padre_spec, Hd, Hp, Hi.
  - intros Hd Hi. by rewrite upsert_hijo_spec, Hd, Hh, Hi.
  - intros Hd. by rewrite upsert_hijo_spec, Hd.
  - intros Hd Hi. by rewrite upsert_hijo_spec, Hd, Hh, Hi.
  - intros Hd Hi. by rewrite upsert_padre_spec, Hd, Hp, Hi.
Qed.

Lemma dimension_replacement_steps_witness :
  let db := store_after_first_run in
  let padres := default [] (dm_rn_folio_padre db) in
  let hijos := default [] (dm_rn_folio_hijo db) in
  (dp_folio_padre <$> padres, dh_folio_hijo <$> hijos) = (["F1"], ["H1"])
  ∧ upsert_padre no_faults ["F1"] padres db
    = (set_dm_rn_folio_padre
         (Some (filter (fun d => ¬ dp_folio_padre d ∈ ["F1"]) padres ++ padres)) db, Ok tt)
  ∧ upsert_hijo no_faults ["H1"] hijos db
    = (set_dm_rn_folio_hijo
         (Some (filter (fun d => ¬ dh_folio_hijo d ∈ ["H1"]) hijos ++ hijos)) db, Ok tt)
  ∧ upsert_hijo (only OpDimHijoDelete) ["H1"] hijos db = (db, Ok tt)
  ∧ upsert_hijo (only OpDimHijoInsert) ["H1"] hijos db
    = (set_dm_rn_folio_hijo
         (Some (filter (fun d => ¬ dh_folio_hijo d ∈ ["H1"]) hijos)) db, Ok tt)
  ∧ upsert_padre (only OpDimPadreInsert) ["F1"] padres db
    = (set_dm_rn_folio_padre
         (Some (filter (fun d => ¬ dp_folio_padre d ∈ ["F1"]) padres)) db,
       Raise (OperationalError OpDimPadreInsert)).
Proof.
  intros db padres hijos.
  assert (dm_rn_folio_padre db = Some padres) as Hp by (vm_compute; reflexivity).
  assert (dm_rn_folio_hijo db = Some hijos) as Hh by (vm_compute; reflexivity).
  split; [vm_compute; reflexivity|].
  split; [|split; [|split; [|split]]].
  - exact (proj1 (dimension_replacement_steps no_faults db ["F1"] padres ["H1"] hijos
                    padres hijos Hp Hh) eq_refl eq_refl).
  - exact (proj1 (proj2 (dimension_replacement_steps no_faults db ["F1"] padres ["H1"]
                           hijos padres hijos Hp Hh)) eq_refl eq_refl).
  - exact (proj1 (proj2 (proj2 (dimension_replacement_steps (only OpDimHijoDelete) db
                                  ["F1"] padres ["H1"] hijos padres hijos Hp Hh)))
             eq_refl).
  - exact (proj1 (proj2 (proj2 (proj2 (dimension_replacement_steps (only OpDimHijoInsert)
                                         db ["F1"] padres ["H1"] hijos padres hijos
                                         Hp Hh)))) eq_refl eq_refl).
  - exact (proj2 (proj2 (proj2 (proj2 (dimension_replacement_steps (only OpDimPadreInsert)
                                         db ["F1"] padres ["H1"] hijos padres hijos
                                         Hp Hh)))) eq_refl eq_refl).
Defined.

(** C5, counterexample.  On the store left by a first run over the folios
    "F1" and "H1": when the insert of the child rebuilder fails, the delete
    has been committed, the error is logged and the row of "H1" is gone from
    the dimension; when the delete of the parent rebuilder fails, the error
    is logged and the new row of "F1" is inserted beside the old one. *)
Lemma dimension_replacement_is_not_atomic :
  let db := store_after_first_run in
  let hijo_failed :=
    update_dimensions_hijo (only OpDimHijoInsert) [("107223", Some "F1", "H1")] db in
  let padre_failed := update_dimensions_padre (only OpDimPadreDelete) ["F1"] db in
  dh_folio_hijo <$> default [] (dm_rn_folio_hijo db) = ["H1"]
  ∧ hijo_failed.2 = Ok tt
  ∧ dm_rn_folio_hijo hijo_failed.1 = Some []
  ∧ dp_folio_padre <$> default [] (dm_rn_folio_padre db) = ["F1"]
  ∧ padre_failed.2 = Ok tt
  ∧ dp_folio_padre <$> default [] (dm_rn_folio_padre padre_failed.1) = ["F1"; "F1"].
Proof. intros db hf pf. repeat split; vm_compute; reflexivity. Qed.

(** The parent rebuilder on a failed delete: the exception is logged, the
    insert still runs, and the table holds the old rows and the new ones.
    The child rebuilder skips the insert in that case. *)
Lemma upsert_padre_after_failed_delete faults folios df_final db :
  faults OpDimPadreDelete = true → faults OpDimPadreInsert = false →
  upsert_padre faults folios df_final db
  = (set_dm_rn_folio_padre (Some (default [] (dm_rn_folio_padre db) ++ df_final)) db,
     Ok tt).
Proof. intros Hd Hi. by rewrite upsert_padre_spec, Hd, Hi. Qed.

(** ** Classification of parent folios *)

Lemma is_current_dated x : is_current x → dated x.
Proof.
  unfold is_current, dated, ts_ge.
  destruct (raw_fecha_asignacion x.1), x.2; done.
Qed.

Lemma is_legacy_dated x : is_legacy x → dated x.
Proof.
  unfold is_legacy, dated, ts_lt.
  destruct (raw_fecha_asignacion x.1), x.2; done.
Qed.

Lemma is_legacy_not_current x : dated x → is_legacy x ↔ ¬ is_current x.
Proof.
  unfold is_current, is_legacy, dated, ts_ge, ts_lt.
  intros [[a ->] [f ->]]. lia.
Qed.

Lemma classified_current x :
  is_current x → classified_by_spec x = (raw_padre_key x.1, "current").
Proof.
  unfold is_current, classified_by_spec, ts_ge, label_by_spec.
  destruct (raw_fecha_asignacion x.1), x.2; try done.
  intros. by rewrite decide_True.
Qed.

Lemma classified_legacy x :
  is_legacy x → classified_by_spec x = (raw_padre_key x.1, "legacy").
Proof.
  unfold is_legacy, classified_by_spec, ts_lt, label_by_spec.
  destruct (raw_fecha_asignacion x.1), x.2; try done.
  intros. rewrite decide_False; [done|lia].
Qed.

Lemma fmap_ext_elem {A B : Type} (f g : A → B) (l : list A) :
  (∀ x, x ∈ l → f x = g x) → f <$> l = g <$> l.
Proof.
  induction l as [|x l IH]; intros Hfg; [done|].
  rewrite !fmap_cons, (Hfg x) by left. f_equal. apply IH.
  intros y Hy. apply Hfg. by right.
Qed.

Lemma filter_dated (P : RawRow * option Z → Prop) `{!∀ x, Decision (P x)}
    (l : list (RawRow * option Z)) :
  (∀ x, P x → dated x) → filter P l = filter P (filter dated l).
Proof.
  intros HP. rewrite list_filter_filter. apply list_filter_iff.
  intros x. split; [|tauto]. intros Hx. split; [done|by apply HP].
Qed.

Lemma filter_ext_elem {A : Type} (P Q : A → Prop)
    `{!∀ x, Decision (P x), !∀ x, Decision (Q x)} (l : list A) :
  (∀ x, x ∈ l → P x ↔ Q x) → filter P l = filter Q l.
Proof.
  induction l as [|x l IH]; intros HPQ; [done|].
  rewrite !filter_cons.
  assert (P x ↔ Q x) as Hx by (apply HPQ; left).
  rewrite IH by (intros y Hy; apply HPQ; by right).
  destruct (decide (P x)), (decide (Q x)); tauto.
Qed.

(** C4 (the part that holds, and what becomes of a missing date).  The
    parent rebuilder classifies every row of its frame that carries an
    assignment date exactly once: the classified frame holds, up to order,
    one row per such parent, labelled "current" when the date is not earlier
    than the client's first snapshot timestamp and "legacy" otherwise, and no
    row passes both filters.  A parent whose assignment date is null passes
    neither filter: it gets no label and is not in the classified frame. *)
Theorem classification_of_parents (df_history : list PadreHist)
    (df_proc : list (RawRow * option Z)) :
  classified_as <$> classify_padre df_history df_proc
    ≡ₚ classified_by_spec <$> filter dated df_proc
  ∧ (∀ x, is_current x → ¬ is_legacy x)
  ∧ (∀ x, raw_fecha_asignacion x.1 = None →
          ¬ is_current x ∧ ¬ is_legacy x ∧ classify_padre df_history [x] = []).
Proof.
  split; [|split].
  - unfold classify_padre, current_rows, legacy_rows.
    rewrite fmap_app, <- !list_fmap_compose.
    rewrite (filter_dated is_current) by apply is_current_dated.
    rewrite (filter_dated is_legacy) by apply is_legacy_dated.
    rewrite (filter_ext_elem is_legacy (fun x => ¬ is_current x) (filter dated df_proc)).
    2:{ intros x [Hd _]%list_elem_of_filter. by apply is_legacy_not_current. }
    set (D := filter dated df_proc).
    rewrite (fmap_ext_elem _ classified_by_spec (filter is_current D)).
    2:{ intros x [Hc _]%list_elem_of_filter. by rewrite classified_current. }
    rewrite (fmap_ext_elem _ classified_by_spec (filter (fun x => ¬ is_current x) D)).
    2:{ intros x [Hc Hx]%list_elem_of_filter. rewrite classified_legacy; [done|].
        apply is_legacy_not_current; [|done].
        by apply list_elem_of_filter in Hx as [? _]. }
    rewrite <- fmap_app. by rewrite filter_app_complement.
  - intros x. unfold is_current, is_legacy, ts_ge, ts_lt.
    destruct (raw_fecha_asignacion x.1), x.2; try done. lia.
  - intros x Hx.
    assert (¬ is_current x ∧ ¬ is_legacy x) as [Hc Hl].
    { unfold is_current, is_legacy, ts_ge, ts_lt. rewrite Hx. tauto. }
    split; [done|]. split; [done|].
    unfold classify_padre. by rewrite !filter_cons_False, filter_nil.
Qed.

(** C4, the defect on a concrete store.  Two parents of client "107223" are
    in the first batch: "F1" with an assignment date and "F2" without one.
    The run records a transition for both, and the rebuilt parent dimension
    holds "F1" only: "F2" is left unclassified and has no dimension row. *)
Lemma parent_without_assignment_date_is_dropped :
  let db := (run no_faults
               (empty_store
                  [snapshot_row "107223" "F1" None "Asignado" "" 100 (Some 90);
                   snapshot_row "107223" "F2" None "Asignado" "" 100 None])).1 in
  ph_folio_padre <$> parent_history db = ["F1"; "F2"]
  ∧ classified_as <$> default [] (dm_rn_folio_padre db) = [(("107223", "F1"), "legacy")].
Proof. intros db. split; vm_compute; reflexivity. Qed.

(** The full rebuild splits its static frame with the same two filters. *)
Lemma full_rebuild_classification (df_global : list RawRow) :
  dm_rn_folio_padre_current df_global ++ dm_rn_folio_padre_legacy df_global
    ≡ₚ filter dated (fix_folio_padre_static df_global).
Proof.
  unfold dm_rn_folio_padre_current, dm_rn_folio_padre_legacy.
  rewrite (filter_dated is_current) by apply is_current_dated.
  rewrite (filter_dated is_legacy) by apply is_legacy_dated.
  rewrite (filter_ext_elem is_legacy (fun x => ¬ is_current x)).
  - apply filter_app_complement.
  - intros x [Hd _]%list_elem_of_filter. by apply is_legacy_not_current.
Qed.

(** ** Suppression in the full rebuild *)

Section GroupFacts.
Context {A K : Type} `{!EqDecision K}.



Context (key : A → K) (le : relation K) `{!RelDecision le} (fecha : A → option Z).



End GroupFacts.




(** ** The formatted code of the child dimension *)



Lemma split_nonempty sep s : split sep s ≠ [].
Proof.
  destruct s as [|c s]; simpl; [done|].
  destruct (Ascii.eqb c sep); [done|]. by destruct (split sep s).
Qed.

Lemma merge_left_singleton {A B C : Type} (on : A → B → bool)
    (combine : A → option B → C) (a : A) (right : list B) (c : C) :
  c ∈ merge_left on combine [a] right → ∃ o, c = combine a o.
Proof.
  unfold merge_left.
  assert (∀ f : A → list C, [a] ≫= f = f a) as ->.
  { intros f. simpl. apply app_nil_r. }
  destruct (filter _ right) as [|b bs].
  - intros ->%list_elem_of_singleton. eauto.
  - intros (b' & -> & _)%list_elem_of_fmap. eauto.
Qed.



(** ** Which tables a computation writes and which exceptions it raises *)

Section Effects.
Context {T : Type} (proj : DB → T) (e : Exception) (faults : Op → bool).

Lemma preserves_ret {A : Type} (a : A) : preserves proj (mret a).
Proof. by intros db. Qed.

Lemma preserves_raise {A : Type} (x : Exception) : preserves proj (raise (A:=A) x).
Proof. by intros db. Qed.

Lemma preserves_bind {A B : Type} (m : M A) (k : A → M B) :
  preserves proj m → (∀ a, preserves proj (k a)) → preserves proj (m ≫= k).
Proof.
  intros Hm Hk db. unfold mbind, M_bind. specialize (Hm db).
  destruct (m db) as [db' [a|x]]; simpl in *; [|done].
  by rewrite Hk.
Qed.

Lemma preserves_fmap {A B : Type} (f : A → B) (m : M A) :
  preserves proj m → preserves proj (f <$> m).
Proof.
  intros Hm db. unfold fmap, M_fmap. specialize (Hm db).
  by destruct (m db) as [db' [a|x]].
Qed.

Lemma preserves_try {A : Type} (m : M A) (h : Exception → M A) :
  preserves proj m → (∀ x, preserves proj (h x)) → preserves proj (try_except m h).
Proof.
  intros Hm Hh db. unfold try_except. specialize (Hm db).
  destruct (m db) as [db' [a|x]]; simpl in *; [done|].
  by rewrite Hh.
Qed.

Lemma preserves_read_rows {A : Type} op (table : DB → list A) :
  preserves proj (read_rows faults op table).
Proof. intros db. unfold read_rows. by destruct (faults op). Qed.

Lemma preserves_read_table {A : Type} op (table : DB → option (list A)) :
  preserves proj (read_table faults op table).
Proof.
  intros db. unfold read_table. destruct (faults op); [done|].
  by destruct (table db).
Qed.

Lemma preserves_has_table {A : Type} op (table : DB → option (list A)) :
  preserves proj (has_table faults op table).
Proof. intros db. unfold has_table. by destruct (faults op). Qed.

Lemma preserves_to_sql_append {A : Type} op (table : DB → option (list A)) set rows :
  (∀ t db, proj (set t db) = proj db) →
  preserves proj (to_sql_append faults op table set rows).
Proof. intros Hset db. unfold to_sql_append. destruct (faults op); simpl; done. Qed.

Lemma preserves_delete_where {A : Type} op (table : DB → option (list A)) set
    (P : A → Prop) `{!∀ x, Decision (P x)} :
  (∀ t db, proj (set t db) = proj db) →
  preserves proj (delete_where faults op table set P).
Proof.
  intros Hset db. unfold delete_where. destruct (faults op); [done|].
  destruct (table db); simpl; done.
Qed.

Lemma never_raises_ret {A : Type} (a : A) : never_raises e (mret a).
Proof. by intros db. Qed.

Lemma never_raises_bind {A B : Type} (m : M A) (k : A → M B) :
  never_raises e m → (∀ a, never_raises e (k a)) → never_raises e (m ≫= k).
Proof.
  intros Hm Hk db. unfold mbind, M_bind. specialize (Hm db).
  destruct (m db) as [db' [a|x]]; simpl in *; [apply Hk|congruence].
Qed.

Lemma never_raises_fmap {A B : Type} (f : A → B) (m : M A) :
  never_raises e m → never_raises e (f <$> m).
Proof.
  intros Hm db. unfold fmap, M_fmap. specialize (Hm db).
  destruct (m db) as [db' [a|x]]; simpl in *; [done|congruence].
Qed.

(** A [try] whose handler does not raise [e] does not raise it. *)
Lemma never_raises_try {A : Type} (m : M A) (h : Exception → M A) :
  (∀ x, never_raises e (h x)) → never_raises e (try_except m h).
Proof.
  intros Hh db. unfold try_except.
  destruct (m db) as [db' [a|x]]; simpl; [done|apply Hh].
Qed.

Lemma never_raises_read_rows {A : Type} op (table : DB → list A) :
  e ≠ OperationalError op → never_raises e (read_rows faults op table).
Proof. intros He db. unfold read_rows. destruct (faults op); simpl; congruence. Qed.

Lemma never_raises_read_table {A : Type} op (table : DB → option (list A)) :
  e ≠ OperationalError op → e ≠ UndefinedTable op →
  never_raises e (read_table faults op table).
Proof.
  intros He1 He2 db. unfold read_table. destruct (faults op); simpl; [congruence|].
  destruct (table db); simpl; congruence.
Qed.

Lemma never_raises_to_sql_append {A : Type} op (table : DB → option (list A)) set rows :
  e ≠ OperationalError op → never_raises e (to_sql_append faults op table set rows).
Proof. intros He db. unfold to_sql_append. destruct (faults op); simpl; congruence. Qed.

End Effects.

Ltac effects_step :=
  first
    [ apply preserves_ret | apply preserves_raise | apply preserves_bind
    | apply preserves_fmap | apply preserves_try | apply preserves_read_rows
    | apply preserves_read_table | apply preserves_has_table
    | apply preserves_to_sql_append | apply preserves_delete_where
    | apply never_raises_ret | apply never_raises_bind | apply never_raises_fmap
    | apply never_raises_try | apply never_raises_read_rows
    | apply never_raises_read_table | apply never_raises_to_sql_append
    | match goal with
      | |- preserves _ (match ?x with _ => _ end) => destruct x
      | |- never_raises _ (match ?x with _ => _ end) => destruct x
      | |- preserves _ (if ?x then _ else _) => destruct x
      | |- never_raises _ (if ?x then _ else _) => destruct x
      | |- ∀ _, _ => intros
      end ].

Ltac effects := repeat effects_step; try done.

Section BranchEffects.
Variable faults : Op → bool.

Lemma upsert_padre_preserves_history folios df :
  preserves dm_rn_fechas_folio_padre (upsert_padre faults folios df).
Proof. unfold upsert_padre. effects. Qed.

Lemma update_dimensions_padre_preserves_history folios :
  preserves dm_rn_fechas_folio_padre (update_dimensions_padre faults folios).
Proof.
  unfold update_dimensions_padre, get_static_client_start_dates. effects.
Qed.

Lemma get_latest_state_from_db_preserves {T R : Type} `{!HistoryFrame R}
    (proj : DB → T) op (table : DB → option (list R)) :
  preserves proj (get_latest_state_from_db faults op table).
Proof. unfold get_latest_state_from_db. effects. Qed.

Lemma detect_suprimidos_preserves {T R : Type} `{!HistoryFrame R}
    (proj : DB → T) op snapshot (table : DB → option (list R)) :
  preserves proj (detect_suprimidos faults op snapshot table).
Proof. unfold detect_suprimidos. effects. Qed.

Lemma update_dimensions_hijo_preserves_history keys :
  preserves dm_rn_fechas_folio_padre (update_dimensions_hijo faults keys).
Proof. unfold update_dimensions_hijo, upsert_hijo. effects. Qed.

Lemma process_folio_hijo_preserves_history df_new snapshot :
  preserves dm_rn_fechas_folio_padre (process_folio_hijo faults df_new snapshot).
Proof.
  unfold process_folio_hijo. effects.
Qed.

End BranchEffects.

(** ** A failure while persisting the parent transitions *)

Section PersistFailure.
Variable faults : Op → bool.



(** The parent branch, call by call. *)
Lemma process_folio_padre_spec df_new snapshot db :
  process_folio_padre faults df_new snapshot db
  = if faults OpSuprimidosPadre
    then (db, Raise (OperationalError OpSuprimidosPadre))
    else match dm_rn_fechas_folio_padre db with
         | None => (db, Raise (UndefinedTable OpSuprimidosPadre))
         | Some rows =>
           match parent_changes (faults OpLatestStatePadre) df_new snapshot rows with
           | [] => (db, Ok tt)
           | changes =>
             if faults OpPersistPadre
             then (db, Raise (OperationalError OpPersistPadre))
             else update_dimensions_padre faults
                    (remove_dups
                       ((raw_folio_padre <$> df_new)
                        ++ (snd ∘ sup_key
                              <$> suprimidos_of (padre_cols <$> snapshot)
                                    (latest_state rows))))
                    (set_dm_rn_fechas_folio_padre (Some (rows ++ changes)) db)
           end
         end.
Proof.
  unfold process_folio_padre.
  unfold mbind at 1. unfold M_bind. rewrite get_latest_state_from_db_spec.
  unfold mbind at 1. unfold M_bind. rewrite detect_suprimidos_spec.
  destruct (faults OpSuprimidosPadre); [done|].
  destruct (dm_rn_fechas_folio_padre db) as [rows|] eqn:E; [|done].
  unfold parent_changes.
  destruct (faults OpLatestStatePadre);
    (destruct (_ ++ _) as [|c cs]; [done|]);
    unfold mbind, M_bind, to_sql_append;
    destruct (faults OpPersistPadre); by rewrite ?E.
Qed.


End PersistFailure.




(** ** The last known state *)

Section DistinctOnFacts.
Context {A K : Type} (key : A → K) (le : relation K) (fecha : A → option Z).
Context `{!EqDecision K, !RelDecision le, !PartialOrder le, !Total le}.

Lemma order_by_key_fecha_desc_key x y :
  order_by_key_fecha_desc key le fecha x y → le (key x) (key y).
Proof. intros H. exact (lex_le_fst le ts_ge_nulls_first _ _ H). Qed.

(** Of a frame in the order of [ORDER BY key, fecha DESC], [DISTINCT ON]
    keeps rows of the frame, one per key, each the latest of its key. *)
Lemma distinct_on_facts prev (l : list A) :
  StronglySorted (order_by_key_fecha_desc key le fecha) l →
  (∀ p x, prev = Some p → x ∈ l → le p (key x)) →
  (∀ x, x ∈ distinct_on key prev l → x ∈ l ∧ Some (key x) ≠ prev)
  ∧ NoDup (key <$> distinct_on key prev l)
  ∧ (∀ x y, x ∈ distinct_on key prev l → y ∈ l → key y = key x →
            ts_le (fecha y) (fecha x)).
Proof.
  intros Hs. revert prev.
  induction Hs as [|r l Hl IH Hr]; intros prev Hprev; simpl.
  { split; [by intros x ?%elem_of_nil|]. split; [constructor|].
    by intros x y ?%elem_of_nil. }
  rewrite Forall_forall in Hr.
  assert (∀ p x, Some (key r) = Some p → x ∈ l → le p (key x)) as Hnext.
  { intros p x [= <-] Hx. by apply order_by_key_fecha_desc_key, Hr. }
  destruct (IH (Some (key r)) Hnext) as (Ha & Hb & Hc).
  destruct (decide (prev = Some (key r))) as [->|Hne].
  - split; [|split; [done|]].
    + intros x Hx. destruct (Ha x Hx). split; [by right|done].
    + intros x y Hx [->|Hy]%elem_of_cons Hk; [|by eapply Hc].
      destruct (Ha x Hx) as [_ Hneq]. congruence.
  - split; [|split].
    + intros x [->|Hx]%elem_of_cons; [split; [left|congruence]|].
      destruct (Ha x Hx) as [Hxl Hneq]. split; [by right|].
      intros E. apply Hneq. f_equal. apply (anti_symm le).
      * eapply (Hprev (key x)); [done|left].
      * by apply order_by_key_fecha_desc_key, Hr.
    + rewrite fmap_cons. constructor; [|done].
      intros (x & Hkx & Hx)%list_elem_of_fmap.
      destruct (Ha x Hx) as [_ Hneq]. congruence.
    + intros x y [->|Hx]%elem_of_cons [->|Hy]%elem_of_cons Hk.
      * reflexivity.
      * destruct (Hr y Hy) as [[Hne' _]|[_ Hts]]; simpl in *; [congruence|done].
      * destruct (Ha x Hx) as [_ Hneq]. congruence.
      * by eapply Hc.
Qed.

Lemma order_by_key_fecha_desc_total : Total (order_by_key_fecha_desc key le fecha).
Proof.
  intros x y. unfold order_by_key_fecha_desc.
  apply (lex_le_total le ts_ge_nulls_first).
Qed.

Lemma order_by_key_fecha_desc_trans : Transitive (order_by_key_fecha_desc key le fecha).
Proof.
  intros x y z. unfold order_by_key_fecha_desc.
  apply (lex_le_trans le ts_ge_nulls_first).
Qed.

Lemma select_distinct_on_facts (t : list A) :
  (∀ x, x ∈ select_distinct_on key le fecha t → x ∈ t)
  ∧ NoDup (key <$> select_distinct_on key le fecha t)
  ∧ (∀ x y, x ∈ select_distinct_on key le fecha t → y ∈ t → key y = key x →
            ts_le (fecha y) (fecha x)).
Proof.
  unfold select_distinct_on.
  set (ord := order_by_key_fecha_desc key le fecha).
  destruct (distinct_on_facts None (stable_sort ord t)) as (Ha & Hb & Hc).
  - apply stable_sort_StronglySorted.
    + apply order_by_key_fecha_desc_total.
    + apply order_by_key_fecha_desc_trans.
  - done.
  - split; [|split; [done|]].
    + intros x Hx. destruct (Ha x Hx) as [Hin _].
      by apply elem_of_stable_sort in Hin.
    + intros x y Hx Hy. apply Hc; [done|]. by apply elem_of_stable_sort.
Qed.

End DistinctOnFacts.

Section LatestStateFacts.
Context {R : Type} `{!HistoryFrame R}.

(** The last known state holds rows of the history, one per key, each the
    latest of its key. *)
Lemma latest_state_facts (history : list R) :
  (∀ x, x ∈ latest_state history → x ∈ history)
  ∧ NoDup (group_cols <$> latest_state history)
  ∧ (∀ x y, x ∈ latest_state history → y ∈ history →
            group_cols y = group_cols x →
            ts_le (fecha_registro y) (fecha_registro x)).
Proof. apply select_distinct_on_facts; apply _. Qed.

End LatestStateFacts.

(** ** The sentinel invariant of the parent history *)

Lemma ts_min_in (ts : list (option Z)) m : ts_min ts = Some m → Some m ∈ ts.
Proof.
  revert m. induction ts as [|[x|] ts IH]; intros m; simpl; [done| |].
  - destruct (ts_min ts) as [m'|]; intros [= <-].
    + destruct (Z.min_spec x m') as [[_ ->]|[_ ->]]; [left|].
      right. by apply IH.
    + left.
  - intros Hm. right. by apply IH.
Qed.

Lemma ts_max_in (ts : list (option Z)) m : ts_max ts = Some m → Some m ∈ ts.
Proof.
  revert m. induction ts as [|[x|] ts IH]; intros m; simpl; [done| |].
  - destruct (ts_max ts) as [m'|]; intros [= <-].
    + destruct (Z.max_spec x m') as [[_ ->]|[_ ->]]; [|left].
      right. by apply IH.
    + left.
  - intros Hm. right. by apply IH.
Qed.

Section ChangeElements.
Context {R : Type} `{!HistoryFrame R}.

Lemma elem_of_transitions prev (l : list R) x : x ∈ transitions prev l → x ∈ l.
Proof.
  revert prev. induction l as [|r l IH]; intros prev; simpl; [done|].
  case_decide.
  - intros [->|Hx]%elem_of_cons; [left|right; by eapply IH].
  - intros Hx. right. by eapply IH.
Qed.

(** A row returned by the change detector is a row of the prior state or of
    the batch, dated from the batch's earliest timestamp on. *)
Lemma elem_of_process_status_changes (df_new df_db_state : list R) x :
  x ∈ process_status_changes df_new df_db_state →
  (x ∈ df_db_state ∨ x ∈ df_new)
  ∧ fecha_ge (ts_min (fecha_registro <$> df_new)) x.
Proof.
  rewrite process_status_changes_transitions.
  intros [Hge Hx]%list_elem_of_filter. split; [|done].
  apply elem_of_transitions in Hx.
  rewrite sort_values_Permutation in Hx. by apply elem_of_app in Hx.
Qed.

(** A suppression row is a sentinel dated at the snapshot's latest timestamp,
    for a key whose last status is not the sentinel and that the snapshot
    does not show. *)
Lemma elem_of_suprimidos_of (snapshot state : list R) u :
  u ∈ suprimidos_of snapshot state →
  sup_estado u = FOLIO_SUPRIMIDO
  ∧ sup_fecha u = ts_max (fecha_registro <$> snapshot)
  ∧ (sup_key u ∉ group_cols <$> snapshot)
  ∧ ∃ a, a ∈ state ∧ group_cols a = sup_key u ∧ state_col a ≠ FOLIO_SUPRIMIDO.
Proof.
  unfold suprimidos_of. destruct state as [|a0 state]; [by intros ?%elem_of_nil|].
  intros (a & -> & Ha)%list_elem_of_fmap.
  apply list_elem_of_filter in Ha as [Hmiss Ha].
  apply list_elem_of_filter in Ha as [Hact Ha].
  simpl. eauto 10.
Qed.

Lemma suprimidos_of_NoDup (snapshot state : list R) :
  NoDup (group_cols <$> state) →
  NoDup (sup_key <$> suprimidos_of snapshot state).
Proof.
  intros Hnd. unfold suprimidos_of.
  destruct state as [|a0 state]; [constructor|].
  rewrite <- list_fmap_compose.
  eapply sublist_NoDup; [exact Hnd|].
  rewrite (fmap_ext_elem _ group_cols) by done.
  apply fmap_sublist. etrans; apply sublist_filter.
Qed.



End ChangeElements.

Section ParentInvariant.

Implicit Types (history : list PadreHist) (df_new : list RawRow).


Lemma snapshot_date df_new M :
  latest_ts df_new = Some M →
  (∃ r0, r0 ∈ df_new ∧ raw_fecha_registro r0 = M) →
  ts_max (fecha_registro <$> (padre_cols <$> latest_snapshot df_new)) = Some M.
Proof.
  intros HM (r0 & Hr0 & Hf0).
  set (l := fecha_registro <$> (padre_cols <$> latest_snapshot df_new)).
  assert (∀ t, Some t ∈ l → t = M) as Hall.
  { intros t (p & Ht & (r & -> & Hr)%list_elem_of_fmap)%list_elem_of_fmap.
    apply list_elem_of_filter in Hr as [Hr _]. simpl in Ht. congruence. }
  destruct (ts_max_ge l M) as (m & Hm & _).
  { apply list_elem_of_fmap. exists (padre_cols r0). split; [simpl; by rewrite Hf0|].
    apply list_elem_of_fmap_2, list_elem_of_filter. split; [congruence|done]. }
  rewrite Hm. f_equal. apply Hall. by apply ts_max_in.
Qed.


End ParentInvariant.

Section RunInvariant.
Variable faults : Op → bool.

Lemma bind_preserved {A B T : Type} (proj : DB → T) (m : M A) (k : A → M B) db :
  (∀ a, preserves proj (k a)) →
  proj ((m ≫= k) db).1 = proj (m db).1.
Proof.
  intros Hk. unfold mbind, M_bind.
  destruct (m db) as [db' [a|x]]; simpl; [apply Hk|done].
Qed.




End RunInvariant.




Lemma batch_admissible_Forall db :
  batch_admissible db
  ↔ Forall (fun r =>
              raw_estado_padre r ≠ FOLIO_SUPRIMIDO
              ∧ Forall (fun h => group_cols h = raw_padre_key r →
                                 state_col h ≠ FOLIO_SUPRIMIDO)
                       (parent_history db))
           (new_batch db).
Proof.
  unfold batch_admissible. rewrite Forall_forall.
  apply forall_proper. intros r. apply forall_proper. intros Hr.
  by rewrite Forall_forall.
Qed.

#[global] Instance batch_admissible_dec db : Decision (batch_admissible db).
Proof.
  destruct (decide (Forall (fun r =>
              raw_estado_padre r ≠ FOLIO_SUPRIMIDO
              ∧ Forall (fun h => group_cols h = raw_padre_key r →
                                 state_col h ≠ FOLIO_SUPRIMIDO)
                       (parent_history db))
           (new_batch db))) as [H|H]; [left|right];
    by rewrite batch_admissible_Forall.
Defined.

#[global] Instance admissible_dec steps db : Decision (admissible steps db).
Proof.
  revert db. induction steps as [|[faults added] steps IH]; intros db; simpl; apply _.
Defined.



(** ** Instances of the statements above on concrete rows *)

(** C4 on three parents of a client first seen at 100: one assigned at 120,
    one assigned at 90 and one without an assignment date. *)
Lemma classification_of_parents_witness :
  let current := (snapshot_row "107223" "F1" None "Asignado" "" 100 (Some 120), Some 100) in
  let legacy := (snapshot_row "107223" "F2" None "Asignado" "" 100 (Some 90), Some 100) in
  let undated := (snapshot_row "107223" "F3" None "Asignado" "" 100 None, Some 100) in
  classified_as <$> classify_padre [] [current; legacy; undated]
    ≡ₚ [(("107223", "F1"), "current"); (("107223", "F2"), "legacy")]
  ∧ (is_current current ∧ ¬ is_legacy current)
  ∧ (¬ is_current undated ∧ ¬ is_legacy undated ∧ classify_padre [] [undated] = []).
Proof.
  intros current legacy undated.
  pose proof (classification_of_parents [] [current; legacy; undated])
    as (Hperm & Hexcl & Hnull).
  split; [exact Hperm|]. split.
  - assert (is_current current) as Hc by (unfold is_current, ts_ge; simpl; lia).
    split; [exact Hc|]. by apply Hexcl.
  - exact (Hnull undated eq_refl).
Defined.


(** * Further properties of the pipeline *)

(** ** The frames that the dimension rebuilders compute *)

Section KeyedLists.
Context {A K : Type} `{!EqDecision K} (f : A → K).

Lemma NoDup_fmap_filter (P : A → Prop) `{!∀ x, Decision (P x)} (l : list A) :
  NoDup (f <$> l) → NoDup (f <$> filter P l).
Proof.
  intros Hnd. eapply sublist_NoDup; [done|]. apply fmap_sublist, sublist_filter.
Qed.

Lemma NoDup_fmap_elem_inj (l : list A) x y :
  NoDup (f <$> l) → x ∈ l → y ∈ l → f x = f y → x = y.
Proof.
  induction l as [|a l IH]; intros Hnd Hx Hy Hxy; [by apply elem_of_nil in Hx|].
  rewrite fmap_cons in Hnd. apply NoDup_cons in Hnd as [Ha Hnd].
  apply elem_of_cons in Hx as [->|Hx]; apply elem_of_cons in Hy as [->|Hy].
  - done.
  - exfalso. apply Ha. rewrite Hxy. by apply list_elem_of_fmap_2.
  - exfalso. apply Ha. rewrite <- Hxy. by apply list_elem_of_fmap_2.
  - by apply IH.
Qed.

Lemma NoDup_fmap_filter_app (P Q : A → Prop)
    `{!∀ x, Decision (P x), !∀ x, Decision (Q x)} (l : list A) :
  (∀ x, P x → ¬ Q x) → NoDup (f <$> l) →
  NoDup (f <$> (filter P l ++ filter Q l)).
Proof.
  intros Hex Hnd. rewrite fmap_app. apply NoDup_app.
  split; [by apply NoDup_fmap_filter|]. split; [|by apply NoDup_fmap_filter].
  intros k (x & -> & [HP Hx]%list_elem_of_filter)%list_elem_of_fmap
           (y & Hk & [HQ Hy]%list_elem_of_filter)%list_elem_of_fmap.
  apply (Hex x HP). by rewrite (NoDup_fmap_elem_inj l x y).
Qed.

(** A filter that fixes the key keeps at most one row of a keyed list. *)
Lemma filter_at_most_one (P : A → Prop) `{!∀ x, Decision (P x)} k (l : list A) :
  (∀ b, P b → f b = k) → NoDup (f <$> l) →
  filter P l = [] ∨ ∃ c, filter P l = [c].
Proof.
  intros HP. induction l as [|b l IH]; intros Hnd; [by left|].
  rewrite fmap_cons in Hnd. apply NoDup_cons in Hnd as [Hb Hnd].
  rewrite filter_cons. destruct (decide (P b)) as [Hpb|Hpb]; [|by apply IH].
  right. exists b. f_equal. apply filter_none.
  intros c Hc Hpc. apply Hb. rewrite (HP b Hpb), <- (HP c Hpc).
  by apply list_elem_of_fmap_2.
Qed.

End KeyedLists.

(** [client_starts] has one row per client. *)
Lemma client_start_dates_NoDup (raw : list RawRow) : NoDup (client_start_dates raw).*1.
Proof.
  unfold client_start_dates. rewrite <- list_fmap_compose.
  rewrite (fmap_ext_elem _ id) by done. rewrite list_fmap_id. apply NoDup_remove_dups.
Qed.

(** The left merge with the client start dates keeps the static rows as they
    are, one for one. *)
Lemma merge_client_starts_fst (df_static : list RawRow)
    (client_starts : list (string * option Z)) :
  NoDup client_starts.*1 → (merge_client_starts df_static client_starts).*1 = df_static.
Proof.
  intros Hnd. unfold merge_client_starts, merge_left.
  induction df_static as [|s l IH]; [done|].
  rewrite bind_cons, fmap_app, IH. change (s :: l) with ([s] ++ l). f_equal.
  destruct (filter_at_most_one fst
              (fun cs : string * option Z => bool_decide (raw_cliente s = cs.1) = true)
              (raw_cliente s) client_starts) as [->|[c ->]]; [|done|done|done].
  intros b Hb. by apply bool_decide_eq_true in Hb.
Qed.

(** The static rows of the folios asked for: one per key. *)
Lemma query_static_facts (folios : list string) (raw : list RawRow) :
  (∀ x, x ∈ query_static folios raw → raw_folio_padre x ∈ folios ∧ x ∈ raw)
  ∧ NoDup (raw_padre_key <$> query_static folios raw).
Proof.
  destruct (select_distinct_on_facts raw_padre_key key_le
              (fun r : RawRow => Some (raw_fecha_registro r))
              (filter (fun r => raw_folio_padre r ∈ folios) raw)) as (Hin & Hnd & _).
  split; [|done]. intros x Hx. by apply Hin, list_elem_of_filter in Hx.
Qed.

(** The rows that the classification gives: each comes from a row of
    [df_proc] that passes one of the two filters. *)
Lemma elem_of_classify_padre df_history (df_proc : list (RawRow * option Z)) d :
  d ∈ classify_padre df_history df_proc →
  ∃ x fecha_aceptada,
    x ∈ df_proc
    ∧ ((is_current x ∧ d = dim_padre_row x.1 "current" fecha_aceptada)
       ∨ (is_legacy x ∧ d = dim_padre_row x.1 "legacy" fecha_aceptada)).
Proof.
  unfold classify_padre, current_rows, legacy_rows.
  intros [Hd|Hd]%elem_of_app;
    apply list_elem_of_fmap in Hd as (x & -> & [Hx Hin]%list_elem_of_filter);
    eexists x, _; (split; [done|]); [left|right]; by split.
Qed.

Lemma classify_padre_keys df_history (df_proc : list (RawRow * option Z)) :
  dim_padre_key <$> classify_padre df_history df_proc
  = raw_padre_key ∘ fst <$> (filter is_current df_proc ++ filter is_legacy df_proc).
Proof.
  unfold classify_padre, current_rows, legacy_rows.
  by rewrite !fmap_app, <- !list_fmap_compose.
Qed.

(** The frame that [update_dimensions_padre] hands to its upsert. *)
Lemma df_final_rebuilt (folios : list string) (raw : list RawRow)
    (client_starts : list (string * option Z)) (df_history : list PadreHist)
    (details : option (list InfoGeneral)) :
  NoDup client_starts.*1 →
  rebuilt_padre folios
    (with_last_state df_history <$>
       match details with
       | Some info =>
           with_details info <$>
             classify_padre df_history
               (merge_client_starts (filter not_codificado (query_static folios raw))
                  client_starts)
       | None =>
           classify_padre df_history
             (merge_client_starts (filter not_codificado (query_static folios raw))
                client_starts)
       end).
Proof.
  intros Hcs.
  set (df_static := filter not_codificado (query_static folios raw)).
  set (df_proc := merge_client_starts df_static client_starts).
  set (cl := classify_padre df_history df_proc).
  assert (rebuilt_padre folios cl) as [Hnd Hrows].
  { split.
    - unfold cl. rewrite classify_padre_keys. apply NoDup_fmap_filter_app.
      + intros x Hc Hl. by apply (is_legacy_not_current x); [apply is_legacy_dated|..].
      + rewrite list_fmap_compose. unfold df_proc.
        rewrite merge_client_starts_fst by done.
        apply NoDup_fmap_filter, query_static_facts.
    - intros d (x & acc & Hx & Hd)%elem_of_classify_padre.
      assert (x.1 ∈ df_static) as [Hnc Hq]%list_elem_of_filter.
      { rewrite <- (merge_client_starts_fst df_static client_starts) by done.
        by apply list_elem_of_fmap_2. }
      apply query_static_facts in Hq as [Hf _].
      assert (is_Some (raw_fecha_asignacion x.1)) as Hdate.
      { destruct Hd as [[Hc _]|[Hl _]].
        - by apply is_current_dated in Hc as [? _].
        - by apply is_legacy_dated in Hl as [? _]. }
      assert (∀ u, raw_url_ficha x.1 = Some u → contains "codificado" u = false) as Hurl.
      { intros u Hu. unfold not_codificado in Hnc. by rewrite Hu in Hnc. }
      destruct Hd as [[_ ->]|[_ ->]]; simpl; eauto. }
  assert (∀ (g : DimPadre → DimPadre) (l : list DimPadre),
            (∀ d, dim_padre_key (g d) = dim_padre_key d
                  ∧ dp_folio_padre (g d) = dp_folio_padre d
                  ∧ dp_tipo_seguimiento (g d) = dp_tipo_seguimiento d
                  ∧ dp_fecha_asignacion (g d) = dp_fecha_asignacion d
                  ∧ dp_url_ficha (g d) = dp_url_ficha d) →
            rebuilt_padre folios l → rebuilt_padre folios (g <$> l)) as Hmap.
  { intros g l Hg [Hn Hr]. split.
    - rewrite <- list_fmap_compose. rewrite (fmap_ext_elem _ dim_padre_key); [done|].
      intros d _. apply Hg.
    - intros ? (d & -> & Hd)%list_elem_of_fmap.
      destruct (Hg d) as (_ & -> & -> & -> & ->). by apply Hr. }
  apply Hmap; [done|]. destruct details as [info|]; [|done].
  apply Hmap; done.
Qed.

#[global] Instance hijo_key_le_po : PartialOrder hijo_key_le.
Proof.
  split; [split|].
  - apply lex_le_refl; apply _.
  - apply lex_le_trans; apply _.
  - apply lex_le_antisym; apply _.
Qed.

#[global] Instance hijo_key_le_total : Total hijo_key_le.
Proof. apply lex_le_total; apply _. Qed.

(** The frame that [update_dimensions_hijo] hands to its upsert. *)
Lemma df_base_rebuilt (placeholders_hijo : list string) (raw : list RawRow)
    (df_prest : list Prestacion) (df_padre_info : list DimPadre)
    (df_hist_hijo : list HijoHist) :
  rebuilt_hijo placeholders_hijo
    (query_base placeholders_hijo raw
       ≫= dim_hijo_rows df_prest df_padre_info df_hist_hijo).
Proof.
  intros d (r & Hd & Hr)%list_elem_of_bind.
  destruct (select_distinct_on_facts
              (fun r : RawRow => (raw_padre_key r, default "" (raw_folio_hijo r)))
              hijo_key_le (fun r : RawRow => Some (raw_fecha_registro r))
              (filter (folio_hijo_in placeholders_hijo) raw)) as (Hin & _).
  apply Hin, list_elem_of_filter in Hr as [Hf _].
  apply merge_left_singleton in Hd as [o ->]. simpl.
  unfold folio_hijo_in in Hf. by destruct (raw_folio_hijo r).
Qed.
(** ** Rules of the program logic *)

Lemma M_bind_unfold {A B : Type} (m : M A) (k : A → M B) db :
  (m ≫= k) db = match m db with
                | (db', Ok a) => k a db'
                | (db', Raise e) => (db', Raise e)
                end.
Proof. reflexivity. Qed.

Section HoareRules.
Context {A B : Type} (I : DB → Prop) (E : Exception → Prop) (faults : Op → bool).

Lemma hoare_ret (Q : A → Prop) (a : A) : Q a → hoare I (mret a) Q E.
Proof. intros Ha db Hdb. by split. Qed.

Lemma hoare_raise (Q : A → Prop) e : E e → hoare I (raise e) Q E.
Proof. intros He db Hdb. by split. Qed.

Lemma hoare_bind (Q : A → Prop) (Q' : B → Prop) (m : M A) (k : A → M B) :
  hoare I m Q E → (∀ a, Q a → hoare I (k a) Q' E) → hoare I (m ≫= k) Q' E.
Proof.
  intros Hm Hk db Hdb. specialize (Hm db Hdb). unfold_M.
  destruct (m db) as [db' [a|e]]; simpl in *; destruct Hm as [HI HQ].
  - by apply Hk.
  - done.
Qed.

Lemma hoare_fmap (Q : B → Prop) (f : A → B) (m : M A) :
  hoare I m (fun a => Q (f a)) E → hoare I (f <$> m) Q E.
Proof.
  intros Hm db Hdb. specialize (Hm db Hdb). unfold_M.
  by destruct (m db) as [db' [a|e]].
Qed.

Lemma hoare_try (Q : A → Prop) (m : M A) (h : Exception → M A) :
  hoare I m Q (fun _ => True) → (∀ e, hoare I (h e) Q E) →
  hoare I (try_except m h) Q E.
Proof.
  intros Hm Hh db Hdb. specialize (Hm db Hdb). unfold_M.
  destruct (m db) as [db' [a|e]]; simpl in *; destruct Hm as [HI HQ].
  - done.
  - by apply Hh.
Qed.

Lemma hoare_try_reraise (Q : A → Prop) (m : M A) :
  hoare I m Q E → hoare I (try_except m (fun e => raise e)) Q E.
Proof. intros Hm db Hdb. rewrite try_except_reraise. by apply Hm. Qed.

Lemma hoare_weaken (Q Q' : A → Prop) (E' : Exception → Prop) (m : M A) :
  hoare I m Q E' → (∀ a, Q a → Q' a) → (∀ e, E' e → E e) → hoare I m Q' E.
Proof.
  intros Hm HQ HE db Hdb. specialize (Hm db Hdb).
  destruct (m db) as [db' [a|e]]; simpl in *; destruct Hm; auto.
Qed.

Lemma hoare_read_rows (Q : list A → Prop) op (table : DB → list A) :
  (∀ db, I db → Q (table db)) →
  (faults op = true → E (OperationalError op)) →
  hoare I (read_rows faults op table) Q E.
Proof.
  intros HQ HE db Hdb. unfold read_rows. destruct (faults op); simpl; auto.
Qed.

Lemma hoare_read_table (Q : list A → Prop) op (table : DB → option (list A)) :
  (∀ db rows, I db → table db = Some rows → Q rows) →
  (faults op = true → E (OperationalError op)) →
  (∀ db, I db → table db = None → E (UndefinedTable op)) →
  hoare I (read_table faults op table) Q E.
Proof.
  intros HQ HE HU db Hdb. unfold read_table. destruct (faults op); simpl; auto.
  destruct (table db) eqn:Ht; simpl; eauto.
Qed.

Lemma hoare_to_sql_append (Q : unit → Prop) op (table : DB → option (list A)) set rows :
  (∀ db, I db → I (set (Some (default [] (table db) ++ rows)) db)) →
  Q tt →
  (faults op = true → E (OperationalError op)) →
  hoare I (to_sql_append faults op table set rows) Q E.
Proof.
  intros HI HQ HE db Hdb. unfold to_sql_append. destruct (faults op); simpl; auto.
Qed.

End HoareRules.

Ltac hoare_step :=
  first
    [ apply hoare_try_reraise
    | apply hoare_try
    | apply hoare_fmap
    | apply hoare_ret
    | apply hoare_bind with (Q := fun _ => True)
    | match goal with
      | |- hoare _ (match ?x with _ => _ end) _ _ => destruct x
      | |- hoare _ (if ?x then _ else _) _ _ => destruct x
      | |- ∀ _, _ => intros
      end ].

(** ** Invariant rules for the dimension rebuilders and for a whole run

    Whatever the faults, a computation keeps every property of the store
    that its writes keep, and ends with no other exception than the ones its
    unguarded calls raise. *)

Section DimLogic.
Variable faults : Op → bool.
Variable I : DB → Prop.
Variable E : Exception → Prop.

Lemma hoare_upsert_padre folios df :
  (∀ db, I db → I (upsert_padre faults folios df db).1) →
  (faults OpDimPadreInsert = true → E (OperationalError OpDimPadreInsert)) →
  hoare I (upsert_padre faults folios df) (fun _ => True) E.
Proof.
  intros I_upsert_padre E_padre_insert db Hdb. split; [by apply I_upsert_padre|].
  rewrite upsert_padre_spec. simpl.
  destruct (faults OpDimPadreInsert) eqn:Hf; [|done]. by apply E_padre_insert.
Qed.

Lemma hoare_upsert_hijo folios df :
  (∀ db, I db → I (upsert_hijo faults folios df db).1) →
  hoare I (upsert_hijo faults folios df) (fun _ => True) E.
Proof.
  intros I_upsert_hijo db Hdb. split; [by apply I_upsert_hijo|].
  rewrite upsert_hijo_spec.
  destruct (faults OpDimHijoDelete); [done|].
  destruct (dm_rn_folio_hijo db); [|done].
  by destruct (faults OpDimHijoInsert).
Qed.

(** A guarded read: its exception is logged and a default is returned. *)
Lemma hoare_guarded {A : Type} (m : M A) (a : A) :
  hoare I m (fun _ => True) (fun _ => True) →
  hoare I (try_except m (fun _ => mret a)) (fun _ => True) E.
Proof. intros Hm. apply hoare_try; [done|]. intros e. by apply hoare_ret. Qed.

(** [update_dimensions_padre]: the store property has to be kept by the
    upsert of a frame rebuilt for the folios of the call; the exceptions of
    the two unguarded calls have to be allowed. *)
Lemma hoare_update_dimensions_padre folios :
  (∀ db df, I db → rebuilt_padre folios df → I (upsert_padre faults folios df db).1) →
  (faults OpClientStarts = true → E (OperationalError OpClientStarts)) →
  (faults OpDimPadreInsert = true → E (OperationalError OpDimPadreInsert)) →
  hoare I (update_dimensions_padre faults folios) (fun _ => True) E.
Proof.
  intros I_upsert_padre E_client_starts E_padre_insert.
  unfold update_dimensions_padre. destruct folios as [|f fs]; [by apply hoare_ret|].
  apply hoare_bind with (Q := fun _ => True).
  { apply hoare_guarded, hoare_fmap, hoare_read_table; done. }
  intros history _.
  destruct (filter _ <$> history) as [[|h hs]|]; try by apply hoare_ret.
  apply hoare_bind with (Q := fun _ => True).
  { apply hoare_guarded, hoare_fmap, hoare_read_rows; done. }
  intros [raw|] _; [|by apply hoare_ret].
  change (query_static (f :: fs) <$> Some raw) with (Some (query_static (f :: fs) raw)).
  destruct (query_static (f :: fs) raw) as [|s ss] eqn:Hq; [by apply hoare_ret|].
  rewrite <- Hq.
  apply hoare_bind with (Q := fun cs : list (string * option Z) => NoDup cs.*1).
  { unfold get_static_client_start_dates. apply hoare_fmap, hoare_read_rows; [|done].
    intros db _. apply client_start_dates_NoDup. }
  intros client_starts Hcs.
  destruct (classify_padre _ _) as [|d ds] eqn:Hc; [by apply hoare_ret|].
  rewrite <- Hc.
  apply hoare_bind with (Q := fun _ => True).
  { apply hoare_guarded, hoare_fmap, hoare_read_rows; done. }
  intros details _.
  apply hoare_upsert_padre; [|done].
  intros db Hdb. apply I_upsert_padre; [done|]. by apply df_final_rebuilt.
Qed.

(** [update_dimensions_hijo]: the store property has to be kept by the
    upsert of a frame rebuilt for the child folios of the call. *)
Lemma hoare_update_dimensions_hijo keys :
  (∀ db df, I db → rebuilt_hijo (snd <$> remove_dups keys) df →
            I (upsert_hijo faults (snd <$> remove_dups keys) df db).1) →
  hoare I (update_dimensions_hijo faults keys) (fun _ => True) E.
Proof.
  intros I_upsert_hijo.
  unfold update_dimensions_hijo. destruct keys as [|k ks]; [by apply hoare_ret|].
  apply hoare_bind with (Q := fun _ => True).
  { apply hoare_guarded, hoare_fmap, hoare_read_rows; done. }
  intros [raw|] _; [|by apply hoare_ret].
  change (query_base ?p <$> Some raw) with (Some (query_base p raw)).
  apply hoare_bind with (Q := fun _ => True).
  { apply hoare_guarded, hoare_fmap, hoare_read_rows; done. }
  intros df_prest _.
  apply hoare_bind with (Q := fun _ => True).
  { destruct (query_base _ raw); [by apply hoare_ret|].
    apply hoare_guarded, hoare_fmap, hoare_read_table; done. }
  intros df_padre_info _.
  apply hoare_bind with (Q := fun _ => True).
  { apply hoare_guarded, hoare_fmap, hoare_read_table; done. }
  intros df_hist_hijo _.
  apply hoare_upsert_hijo.
  intros db Hdb. apply I_upsert_hijo; [done|]. apply df_base_rebuilt.
Qed.

End DimLogic.

Section RunLogic.
Variable faults : Op → bool.
Variable I : DB → Prop.
Variable E : Exception → Prop.

Hypothesis I_persist_padre : ∀ db rows, I db →
  I (set_dm_rn_fechas_folio_padre
       (Some (default [] (dm_rn_fechas_folio_padre db) ++ rows)) db).
Hypothesis I_persist_hijo : ∀ db rows, I db →
  I (set_dm_rn_fechas_folio_hijo
       (Some (default [] (dm_rn_fechas_folio_hijo db) ++ rows)) db).
Hypothesis I_upsert_padre : ∀ db folios df,
  I db → rebuilt_padre folios df → I (upsert_padre faults folios df db).1.
Hypothesis I_upsert_hijo : ∀ db folios df,
  I db → rebuilt_hijo folios df → I (upsert_hijo faults folios df db).1.
Hypothesis E_fatal : ∀ op, op ∈ fatal_ops → faults op = true → E (OperationalError op).
Hypothesis E_undefined_padre : ∀ db,
  I db → dm_rn_fechas_folio_padre db = None → E (UndefinedTable OpSuprimidosPadre).
Hypothesis E_undefined_hijo : ∀ db,
  I db → dm_rn_fechas_folio_hijo db = None → E (UndefinedTable OpSuprimidosHijo).

Ltac fatal := intros; apply E_fatal; [unfold fatal_ops; set_solver | done].

Lemma hoare_get_max_date :
  hoare I (get_max_date faults dm_rn_fechas_folio_padre) (fun _ => True) E.
Proof.
  intros db Hdb. destruct (faults OpMaxDate) eqn:Hf.
  - rewrite get_max_date_fault by done. split; [done|]. simpl. fatal.
  - by rewrite get_max_date_ok.
Qed.

Lemma hoare_extract_new_data w :
  hoare I (extract_new_data faults w) (fun _ => True) E.
Proof.
  unfold extract_new_data. repeat hoare_step.
  apply hoare_read_rows; [done | fatal].
Qed.

Lemma hoare_get_latest_state_from_db {R : Type} `{!HistoryFrame R} op
    (table : DB → option (list R)) :
  hoare I (get_latest_state_from_db faults op table) (fun _ => True) E.
Proof. intros db Hdb. by rewrite get_latest_state_from_db_spec. Qed.

Lemma hoare_detect_suprimidos {R : Type} `{!HistoryFrame R} op snapshot
    (table : DB → option (list R)) :
  (faults op = true → E (OperationalError op)) →
  (∀ db, I db → table db = None → E (UndefinedTable op)) →
  hoare I (detect_suprimidos faults op snapshot table) (fun _ => True) E.
Proof.
  intros HE HU db Hdb. rewrite detect_suprimidos_spec. split; [done|]. simpl.
  destruct (faults op); [by apply HE|].
  destruct (table db) eqn:Ht; [done|]. by eapply HU.
Qed.

Lemma hoare_process_folio_padre df_new snapshot :
  hoare I (process_folio_padre faults df_new snapshot) (fun _ => True) E.
Proof.
  unfold process_folio_padre.
  repeat first
    [ apply hoare_get_latest_state_from_db
    | apply hoare_detect_suprimidos; [fatal | apply E_undefined_padre]
    | apply hoare_update_dimensions_padre;
        [intros; by apply I_upsert_padre | fatal | fatal]
    | apply hoare_to_sql_append; [intros; by apply I_persist_padre | done | fatal]
    | hoare_step ]; done.
Qed.

Lemma hoare_process_folio_hijo df_new snapshot :
  hoare I (process_folio_hijo faults df_new snapshot) (fun _ => True) E.
Proof.
  unfold process_folio_hijo.
  repeat first
    [ apply hoare_get_latest_state_from_db
    | apply hoare_detect_suprimidos; [fatal | apply E_undefined_hijo]
    | apply hoare_update_dimensions_hijo; intros; by apply I_upsert_hijo
    | apply hoare_to_sql_append; [intros; by apply I_persist_hijo | done | fatal]
    | hoare_step ]; done.
Qed.

Lemma hoare_run : hoare I (run faults) (fun _ => True) E.
Proof.
  unfold run.
  repeat first
    [ apply hoare_get_max_date
    | apply hoare_extract_new_data
    | apply hoare_process_folio_padre
    | apply hoare_process_folio_hijo
    | hoare_step ]; done.
Qed.

End RunLogic.

(** ** What a run writes *)

Section UpsertWrites.
Variable faults : Op → bool.

(** The two upserts leave a store that differs from the one they found in
    their own dimension table only. *)
Lemma upsert_padre_writes_its_table folios df db :
  ∃ t, (upsert_padre faults folios df db).1 = set_dm_rn_folio_padre t db.
Proof.
  rewrite upsert_padre_spec. destruct db as [raw info prest hp hh dp dh]. simpl.
  destruct (faults OpDimPadreDelete), dp as [rows|], (faults OpDimPadreInsert);
    simpl; eauto.
Qed.

Lemma upsert_hijo_writes_its_table folios df db :
  ∃ t, (upsert_hijo faults folios df db).1 = set_dm_rn_folio_hijo t db.
Proof.
  rewrite upsert_hijo_spec. destruct db as [raw info prest hp hh dp dh]. simpl.
  destruct (faults OpDimHijoDelete), dh as [rows|], (faults OpDimHijoInsert);
    simpl; eauto.
Qed.

(** On a store without the table "dm_rn_folio_hijo" the child upsert does
    nothing: its DELETE raises, and the insert stands under the same [try]. *)
Lemma upsert_hijo_without_table folios df db :
  dm_rn_folio_hijo db = None → upsert_hijo faults folios df db = (db, Ok tt).
Proof.
  intros Hn. rewrite upsert_hijo_spec, Hn. by destruct (faults OpDimHijoDelete).
Qed.

End UpsertWrites.

(** X1. A run reads the raw snapshot table and the two detail tables and
    never writes them: whatever calls fail, and however the run ends, the
    three source tables are as the run found them. *)
Theorem run_never_writes_the_source_tables (faults : Op → bool) (db : DB) :
  rn_registro_casos_transi (run faults db).1 = rn_registro_casos_transi db
  ∧ rn_detalle_casos_info_general (run faults db).1 = rn_detalle_casos_info_general db
  ∧ rn_detalle_casos_prestaciones (run faults db).1 = rn_detalle_casos_prestaciones db.
Proof.
  pose (I := fun db' : DB =>
    rn_registro_casos_transi db' = rn_registro_casos_transi db
    ∧ rn_detalle_casos_info_general db' = rn_detalle_casos_info_general db
    ∧ rn_detalle_casos_prestaciones db' = rn_detalle_casos_prestaciones db).
  assert (hoare I (run faults) (fun _ => True) (fun _ => True)) as Hrun.
  { apply hoare_run; try done.
    - intros db' folios df HI _.
      destruct (upsert_padre_writes_its_table faults folios df db') as [t ->]. apply HI.
    - intros db' folios df HI _.
      destruct (upsert_hijo_writes_its_table faults folios df db') as [t ->]. apply HI. }
  by apply Hrun.
Qed.

(** X2. The two history tables are append-only: a run, whatever calls fail,
    leaves every record that it found in place and in order, and only adds
    records after them.  The watermark therefore never moves backwards. *)
Theorem histories_are_append_only (faults : Op → bool) (db : DB) :
  (∃ added, parent_history (run faults db).1 = parent_history db ++ added)
  ∧ (∃ added, child_history (run faults db).1 = child_history db ++ added)
  ∧ (∀ w, watermark db = Some w →
       ∃ w', watermark (run faults db).1 = Some w' ∧ w ≤ w').
Proof.
  pose (I := fun db' : DB =>
    (∃ added, parent_history db' = parent_history db ++ added)
    ∧ (∃ added, child_history db' = child_history db ++ added)).
  assert (hoare I (run faults) (fun _ => True) (fun _ => True)) as Hrun.
  { apply hoare_run; try done.
    - intros db' rows [[a Ha] Hh]. split; [|done].
      exists (a ++ rows). unfold parent_history in *. simpl. by rewrite Ha, (assoc_L (++)).
    - intros db' rows [Hp [a Ha]]. split; [done|].
      exists (a ++ rows). unfold child_history in *. simpl. by rewrite Ha, (assoc_L (++)).
    - intros db' folios df HI _.
      destruct (upsert_padre_writes_its_table faults folios df db') as [t ->]. apply HI.
    - intros db' folios df HI _.
      destruct (upsert_hijo_writes_its_table faults folios df db') as [t ->]. apply HI. }
  destruct (Hrun db) as [[Hp Hh] _].
  { split; exists []; by rewrite (right_id_L [] (++)). }
  split; [done|]. split; [done|].
  intros w Hw. destruct Hp as [added Hp]. unfold watermark in *. rewrite Hp, fmap_app.
  apply ts_max_in in Hw as Hin.
  destruct (ts_max_ge ((fecha_registro <$> parent_history db)
                       ++ (fecha_registro <$> added)) w) as (w' & Hw' & Hle).
  { apply elem_of_app. by left. }
  by exists w'.
Qed.

(** X3. The incremental pipeline cannot create the child dimension: on a
    store without the table "dm_rn_folio_hijo", [update_dimensions_hijo]
    changes nothing and reports nothing, and the table is still missing after
    a whole run. *)
Theorem run_never_creates_the_child_dimension (faults : Op → bool) (db : DB) :
  dm_rn_folio_hijo db = None →
  (∀ keys, update_dimensions_hijo faults keys db = (db, Ok tt))
  ∧ dm_rn_folio_hijo (run faults db).1 = None.
Proof.
  intros Hn. split.
  - intros keys.
    pose (I := fun db' : DB => db' = db).
    assert (hoare I (update_dimensions_hijo faults keys) (fun _ => True) (fun _ => False))
      as Hh.
    { apply hoare_update_dimensions_hijo.
      intros db' df -> _. unfold I. by rewrite upsert_hijo_without_table. }
    specialize (Hh db eq_refl).
    destruct (update_dimensions_hijo faults keys db) as [db' [[]|e]]; simpl in *.
    + destruct Hh as [-> _]. done.
    + by destruct Hh.
  - pose (I := fun db' : DB => dm_rn_folio_hijo db' = None).
    assert (hoare I (run faults) (fun _ => True) (fun _ => True)) as Hrun.
    { apply hoare_run; try done.
      - intros db' folios df HI _.
        destruct (upsert_padre_writes_its_table faults folios df db') as [t ->]. apply HI.
      - intros db' folios df HI. by rewrite upsert_hijo_without_table. }
    by apply Hrun.
Qed.

Lemma run_never_creates_the_child_dimension_witness :
  let db := cold_store
              [snapshot_row "107223" "F1" (Some "H1") "Asignado" "Pendiente" 100 (Some 90)] in
  update_dimensions_hijo no_faults [("107223", Some "F1", "H1")] db = (db, Ok tt)
  ∧ dm_rn_folio_hijo (run no_faults db).1 = None.
Proof.
  intros db.
  destruct (run_never_creates_the_child_dimension no_faults db eq_refl) as [H1 H2].
  split; [apply H1 | apply H2].
Defined.

(** X4. The exceptions of a run.  A run ends with an exception only when one
    of its eight unguarded database calls fails (the watermark query, the
    extraction, the two suppression queries, the two history inserts, the
    client start dates, the insert of the parent dimension), or when a
    suppression query meets a history table that does not exist.  A failure
    of any other call is logged and the run goes on. *)
Theorem run_raises_only_from_unguarded_calls (faults : Op → bool) (db : DB)
    (e : Exception) :
  (run faults db).2 = Raise e →
  (∃ op, op ∈ fatal_ops ∧ faults op = true ∧ e = OperationalError op)
  ∨ (e = UndefinedTable OpSuprimidosPadre ∧ dm_rn_fechas_folio_padre db = None)
  ∨ (e = UndefinedTable OpSuprimidosHijo ∧ dm_rn_fechas_folio_hijo db = None).
Proof.
  pose (I := fun db' : DB =>
    (is_Some (dm_rn_fechas_folio_padre db) → is_Some (dm_rn_fechas_folio_padre db'))
    ∧ (is_Some (dm_rn_fechas_folio_hijo db) → is_Some (dm_rn_fechas_folio_hijo db'))).
  pose (E := fun e : Exception =>
    (∃ op, op ∈ fatal_ops ∧ faults op = true ∧ e = OperationalError op)
    ∨ (e = UndefinedTable OpSuprimidosPadre ∧ dm_rn_fechas_folio_padre db = None)
    ∨ (e = UndefinedTable OpSuprimidosHijo ∧ dm_rn_fechas_folio_hijo db = None)).
  assert (hoare I (run faults) (fun _ => True) E) as Hrun.
  { apply hoare_run.
    - intros db' rows [Hp Hh]. split; [by eauto|done].
    - intros db' rows [Hp Hh]. split; [done|by eauto].
    - intros db' folios df HI _.
      destruct (upsert_padre_writes_its_table faults folios df db') as [t ->]. apply HI.
    - intros db' folios df HI _.
      destruct (upsert_hijo_writes_its_table faults folios df db') as [t ->]. apply HI.
    - intros op Hop Hf. left. by exists op.
    - intros db' [Hp _] Hn. right. left. split; [done|].
      destruct (dm_rn_fechas_folio_padre db); [|done].
      destruct Hp as [? Hp]; [by eexists|]. congruence.
    - intros db' [_ Hh] Hn. right. right. split; [done|].
      destruct (dm_rn_fechas_folio_hijo db); [|done].
      destruct Hh as [? Hh]; [by eexists|]. congruence. }
  intros Hr. destruct (Hrun db) as [_ HE]; [by split|].
  by rewrite Hr in HE.
Qed.

Lemma run_raises_only_from_unguarded_calls_witness :
  let db := empty_store
              [snapshot_row "107223" "F1" (Some "H1") "Asignado" "Pendiente" 100 (Some 90)] in
  (run (only OpPersistHijo) db).2 = Raise (OperationalError OpPersistHijo)
  ∧ ((∃ op, op ∈ fatal_ops ∧ only OpPersistHijo op = true
            ∧ OperationalError OpPersistHijo = OperationalError op)
     ∨ (OperationalError OpPersistHijo = UndefinedTable OpSuprimidosPadre
        ∧ dm_rn_fechas_folio_padre db = None)
     ∨ (OperationalError OpPersistHijo = UndefinedTable OpSuprimidosHijo
        ∧ dm_rn_fechas_folio_hijo db = None)).
Proof.
  intros db. split; [vm_compute; reflexivity|].
  apply (run_raises_only_from_unguarded_calls (only OpPersistHijo) db).
  vm_compute; reflexivity.
Defined.

(** ** The reads of the pipeline *)

Lemma ts_max_None (ts : list (option Z)) :
  ts_max ts = None ↔ ∀ t, t ∈ ts → t = None.
Proof.
  split.
  - intros Hn [t|] Hin; [|done].
    destruct (ts_max_ge ts t Hin) as (m & Hm & _). congruence.
  - induction ts as [|[t|] ts IH]; intros Hall; [done| |].
    + specialize (Hall (Some t)). discriminate Hall. by left.
    + simpl. apply IH. intros t Ht. apply Hall. by right.
Qed.

Section DistinctOnComplete.
Context {A K : Type} (key : A → K) (le : relation K) (fecha : A → option Z).
Context `{!EqDecision K, !RelDecision le}.

(** [DISTINCT ON] loses no key. *)
Lemma distinct_on_complete prev (l : list A) x :
  x ∈ l → Some (key x) = prev ∨ ∃ y, y ∈ distinct_on key prev l ∧ key y = key x.
Proof.
  revert prev. induction l as [|r l IH]; intros prev Hx; [by inversion Hx|].
  simpl. apply elem_of_cons in Hx as [->|Hx].
  - case_decide; [by left|]. right. exists r. split; [by left|done].
  - case_decide.
    + by apply IH.
    + destruct (IH (Some (key r)) Hx) as [Heq|(y & Hy & Hk)].
      * right. exists r. split; [by left|congruence].
      * right. exists y. split; [by right|done].
Qed.

Lemma select_distinct_on_complete (t : list A) x :
  x ∈ t → ∃ y, y ∈ select_distinct_on key le fecha t ∧ key y = key x.
Proof.
  intros Hx. unfold select_distinct_on.
  destruct (distinct_on_complete None
              (stable_sort (order_by_key_fecha_desc key le fecha) t) x) as [?|?];
    [by apply elem_of_stable_sort|done|done].
Qed.

End DistinctOnComplete.

(** X5. The watermark query.  When its call succeeds, [get_max_date] leaves
    the store alone and returns nothing for a table that does not exist or
    holds no dated record; otherwise it returns a timestamp that some record
    of the table carries and that no record of the table exceeds. *)
Theorem get_max_date_is_the_latest_timestamp {R : Type} `{!HistoryFrame R}
    (faults : Op → bool) (table : DB → option (list R)) (db : DB) :
  faults OpMaxDate = false →
  ∃ m, get_max_date faults table db = (db, Ok m)
       ∧ (table db = None → m = None)
       ∧ ∀ rows, table db = Some rows →
           (m = None ↔ ∀ r, r ∈ rows → fecha_registro r = None)
           ∧ ∀ w, m = Some w →
               (∃ r, r ∈ rows ∧ fecha_registro r = Some w)
               ∧ ∀ r t, r ∈ rows → fecha_registro r = Some t → t ≤ w.
Proof.
  intros Hf. unfold get_max_date, has_table, read_table.
  unfold try_except, mbind, M_bind, mret, M_ret. rewrite Hf.
  destruct (table db) as [rows|] eqn:Ht; simpl.
  - rewrite Ht. eexists. split; [done|]. split; [done|].
    intros ? [= <-]. split.
    + rewrite ts_max_None. split.
      * intros Hall r Hr. apply Hall. apply list_elem_of_fmap. by exists r.
      * intros Hall t (r & -> & Hr)%list_elem_of_fmap. by apply Hall.
    + intros w Hw. split.
      * apply ts_max_in, list_elem_of_fmap in Hw as (r & Hr & Hin). by exists r.
      * intros r t Hr Hd.
        destruct (ts_max_ge (fecha_registro <$> rows) t) as (m & Hm & Hle).
        { apply list_elem_of_fmap. by exists r. }
        congruence.
  - eexists. split; [done|]. split; [done|]. by intros.
Qed.

Lemma get_max_date_is_the_latest_timestamp_witness :
  let db := store_with_history []
              [padre_hist "107223" "F1" 300 "Aceptado";
               padre_hist "107223" "F2" 100 "Asignado"] in
  get_max_date no_faults dm_rn_fechas_folio_padre db = (db, Ok (Some 300))
  ∧ get_max_date no_faults dm_rn_fechas_folio_padre (cold_store []) = (cold_store [], Ok None).
Proof.
  intros db. split.
  - destruct (get_max_date_is_the_latest_timestamp no_faults dm_rn_fechas_folio_padre
                db eq_refl) as (m & -> & _ & Hm).
    destruct (Hm _ eq_refl) as [Hnone Hsome]. destruct m as [w|].
    + destruct (Hsome w eq_refl) as [(r & Hr & Hw) Hmax].
      specialize (Hmax (padre_hist "107223" "F1" 300 "Aceptado") 300).
      assert (300 ≤ w) by (apply Hmax; [by left|done]).
      assert (w = 300); [|by subst].
      apply elem_of_cons in Hr as [->|Hr]; [by injection Hw|].
      apply (list_elem_of_singleton (A:=PadreHist)) in Hr as ->.
      injection Hw as <-. lia.
    + discriminate (proj1 Hnone eq_refl (padre_hist "107223" "F1" 300 "Aceptado")).
      by left.
  - destruct (get_max_date_is_the_latest_timestamp no_faults dm_rn_fechas_folio_padre
                (cold_store []) eq_refl) as (m & -> & Hm & _).
    by rewrite Hm.
Defined.

(** X6. The extraction follows the watermark.  When the watermark query and
    the extraction succeed, the first two steps of a run write nothing and
    extract exactly the snapshot rows that are dated after every dated record
    of the parent history: a row dated at the watermark is not extracted
    again, and a history that is missing, empty or undated lets the whole
    snapshot table through. *)
Theorem extraction_follows_the_watermark (faults : Op → bool) (db : DB) :
  faults OpMaxDate = false → faults OpExtract = false →
  ∃ rows,
    (get_max_date faults dm_rn_fechas_folio_padre ≫= extract_new_data faults) db
    = (db, Ok rows)
    ∧ ∀ r, r ∈ rows
           ↔ r ∈ rn_registro_casos_transi db
             ∧ ∀ h t, h ∈ parent_history db → fecha_registro h = Some t →
                      t < raw_fecha_registro r.
Proof.
  intros Hm He. exists (new_batch db). split.
  { by rewrite M_bind_unfold, get_max_date_ok, extract_new_data_ok. }
  intros r. unfold new_batch. destruct (watermark db) as [w|] eqn:Hw.
  - rewrite list_elem_of_filter. unfold watermark in Hw. split.
    + intros [Hr Hin]. split; [done|]. intros h t Hh Ht.
      destruct (ts_max_ge (fecha_registro <$> parent_history db) t) as (w' & Hw' & Hle).
      { rewrite <- Ht. by apply list_elem_of_fmap_2. }
      rewrite Hw in Hw'. injection Hw' as <-. lia.
    + intros [Hin Hall]. split; [|done].
      apply ts_max_in, list_elem_of_fmap in Hw as (h & Hh & Hin'). by apply (Hall h).
  - split; [|by intros [? _]]. intros Hr. split; [done|]. intros h t Hh Ht.
    unfold watermark in Hw. rewrite ts_max_None in Hw.
    discriminate (Hw (Some t)). rewrite <- Ht. by apply list_elem_of_fmap_2.
Qed.

Lemma extraction_follows_the_watermark_witness :
  let old := snapshot_row "107223" "F1" None "Asignado" "" 100 (Some 90) in
  let new := snapshot_row "107223" "F1" None "Aceptado" "" 200 (Some 90) in
  let db := store_with_history [old; new] [padre_hist "107223" "F1" 100 "Asignado"] in
  (get_max_date no_faults dm_rn_fechas_folio_padre ≫= extract_new_data no_faults) db
  = (db, Ok [new])
  ∧ ∃ rows,
      (get_max_date no_faults dm_rn_fechas_folio_padre ≫= extract_new_data no_faults) db
      = (db, Ok rows)
      ∧ ∀ r, r ∈ rows
             ↔ r ∈ rn_registro_casos_transi db
               ∧ ∀ h t, h ∈ parent_history db → fecha_registro h = Some t →
                        t < raw_fecha_registro r.
Proof.
  intros old new db. split; [vm_compute; reflexivity|].
  apply (extraction_follows_the_watermark no_faults db); reflexivity.
Defined.

(** X7. The last-known-state query never raises and never writes.  It
    returns at most one row per key; every row it returns is a row of the
    table that no row of the same key is dated after; and when the call does
    not fail, every key of the table has its row.  A table that does not
    exist and a failed call both give the empty frame. *)
Theorem latest_state_query_returns_one_row_per_key {R : Type} `{!HistoryFrame R}
    (faults : Op → bool) (op : Op) (table : DB → option (list R)) (db : DB) :
  ∃ rows,
    get_latest_state_from_db faults op table db = (db, Ok rows)
    ∧ NoDup (group_cols <$> rows)
    ∧ (∀ x, x ∈ rows →
         ∃ history, table db = Some history ∧ x ∈ history
           ∧ ∀ y, y ∈ history → group_cols y = group_cols x →
                  ts_le (fecha_registro y) (fecha_registro x))
    ∧ (faults op = false → ∀ history y, table db = Some history → y ∈ history →
         ∃ x, x ∈ rows ∧ group_cols x = group_cols y)
    ∧ (faults op = true ∨ table db = None → rows = []).
Proof.
  rewrite get_latest_state_from_db_spec. eexists. split; [done|].
  destruct (faults op).
  { split; [constructor|]. split; [by intros ? ?%elem_of_nil|]. by split. }
  destruct (table db) as [history|].
  - destruct (latest_state_facts history) as (Hin & Hnd & Hmax).
    split; [done|]. split; [|split].
    + intros x Hx. exists history. eauto.
    + intros _ ? y [= <-] Hy. by apply select_distinct_on_complete.
    + by intros [?|?].
  - split; [constructor|]. split; [by intros ? ?%elem_of_nil|]. by split.
Qed.

(** X8. The suppression inferencer.  On a history table that exists, and
    when its query does not fail, [detect_suprimidos] writes nothing and
    returns at most one record per key; a record is returned for a key
    exactly when the last record of the key in the table does not carry
    "Folio suprimido" and the key has no row in the snapshot slice, and the
    record carries "Folio suprimido" and the latest timestamp of the slice. *)
Theorem detect_suprimidos_marks_the_missing_active_keys {R : Type} `{!HistoryFrame R}
    (faults : Op → bool) (op : Op) (snapshot : list R)
    (table : DB → option (list R)) (db : DB) (history : list R) :
  faults op = false → table db = Some history →
  ∃ sups,
    detect_suprimidos faults op snapshot table db = (db, Ok sups)
    ∧ NoDup (sup_key <$> sups)
    ∧ ∀ k estado fecha,
        {| sup_key := k; sup_estado := estado; sup_fecha := fecha |} ∈ sups
        ↔ estado = FOLIO_SUPRIMIDO
          ∧ fecha = ts_max (fecha_registro <$> snapshot)
          ∧ (k ∉ group_cols <$> snapshot)
          ∧ ∃ a, a ∈ latest_state history ∧ group_cols a = k
                 ∧ state_col a ≠ FOLIO_SUPRIMIDO.
Proof.
  intros Hf Ht. rewrite detect_suprimidos_spec, Hf, Ht. eexists. split; [done|].
  split.
  { apply suprimidos_of_NoDup. apply latest_state_facts. }
  intros k estado fecha. split.
  - intros Hu. by apply elem_of_suprimidos_of in Hu.
  - intros (-> & -> & Hk & a & Ha & <- & Hs).
    unfold suprimidos_of. destruct (latest_state history) as [|a0 st] eqn:Hst.
    { by apply elem_of_nil in Ha. }
    apply list_elem_of_fmap. exists a. split; [done|].
    apply list_elem_of_filter. split; [done|].
    apply list_elem_of_filter. by split.
Qed.

Lemma detect_suprimidos_marks_the_missing_active_keys_witness :
  let history := [padre_hist "107223" "F1" 100 "Asignado";
                  padre_hist "107223" "F2" 100 "Asignado"] in
  let snapshot := [padre_hist "107223" "F2" 200 "Asignado"] in
  let db := store_with_history [] history in
  detect_suprimidos no_faults OpSuprimidosPadre snapshot dm_rn_fechas_folio_padre db
  = (db, Ok [{| sup_key := ("107223", "F1"); sup_estado := FOLIO_SUPRIMIDO;
                sup_fecha := Some 200 |}])
  ∧ ∃ sups,
      detect_suprimidos no_faults OpSuprimidosPadre snapshot dm_rn_fechas_folio_padre db
      = (db, Ok sups)
      ∧ NoDup (sup_key <$> sups)
      ∧ ∀ k estado fecha,
          {| sup_key := k; sup_estado := estado; sup_fecha := fecha |} ∈ sups
          ↔ estado = FOLIO_SUPRIMIDO
            ∧ fecha = ts_max (fecha_registro <$> snapshot)
            ∧ (k ∉ group_cols <$> snapshot)
            ∧ ∃ a, a ∈ latest_state history ∧ group_cols a = k
                   ∧ state_col a ≠ FOLIO_SUPRIMIDO.
Proof.
  intros history snapshot db. split; [vm_compute; reflexivity|].
  apply (detect_suprimidos_marks_the_missing_active_keys no_faults OpSuprimidosPadre
           snapshot dm_rn_fechas_folio_padre db history); reflexivity.
Defined.

(** ** Which rows the change detector emits *)

Lemma filter_key_NoDup {A K : Type} `{!EqDecision K} (f : A → K) (l : list A) x :
  NoDup (f <$> l) → x ∈ l → filter (fun r => f r = f x) l = [x].
Proof.
  induction l as [|a l IH]; intros Hnd Hx; [by apply elem_of_nil in Hx|].
  rewrite fmap_cons in Hnd. apply NoDup_cons in Hnd as [Ha Hnd].
  rewrite filter_cons. apply elem_of_cons in Hx as [->|Hx].
  - rewrite decide_True by done. f_equal. apply filter_none.
    intros b Hb Hfb. apply Ha. rewrite <- Hfb. by apply list_elem_of_fmap_2.
  - rewrite decide_False; [by apply IH|].
    intros Hax. apply Ha. rewrite Hax. by apply list_elem_of_fmap_2.
Qed.

Section EmittedRows.
Context {R : Type} `{!HistoryFrame R}.

Lemma row_le_same_key (a b : R) :
  row_le a b → group_cols a = group_cols b →
  ts_le (fecha_registro a) (fecha_registro b).
Proof. intros [[Hne _]|[_ Hle]] Hk; [done|done]. Qed.

Lemma same_key_row_le (a b : R) :
  group_cols a = group_cols b → ts_le (fecha_registro a) (fecha_registro b) →
  row_le a b.
Proof. intros Hk Hle. right. by split. Qed.

(** The first row of a key in the sorted frame has no shifted status, so the
    comparison keeps it. *)
Lemma first_row_of_a_key_is_kept (y : R) (l : list R) :
  (filter state_changed (groupby_shift ∅ (y :: l))).*1
  = y :: (filter state_changed (groupby_shift {[group_cols y := state_col y]} l)).*1.
Proof.
  simpl. rewrite lookup_empty, filter_cons_True by done.
  by rewrite fmap_cons, insert_empty.
Qed.

(** A persisted row that is older than the whole batch is never emitted. *)
Lemma older_state_is_not_emitted (df_new df_db_state : list R) x :
  (∀ s n t, s ∈ df_db_state → n ∈ df_new → fecha_registro s = Some t →
            ts_lt (Some t) (fecha_registro n)) →
  x ∈ process_status_changes df_new df_db_state → x ∈ df_new.
Proof.
  intros Hold Hx. apply elem_of_process_status_changes in Hx as [[Hs|Hn] Hge]; [|done].
  exfalso. unfold fecha_ge in Hge.
  destruct (fecha_registro x) as [t|] eqn:Ht; [|done].
  destruct (ts_min (fecha_registro <$> df_new)) as [m|] eqn:Hm; [|done].
  apply ts_min_in, list_elem_of_fmap in Hm as (n & Hn & Hin).
  specialize (Hold x n t Hs Hin Ht). rewrite <- Hn in Hold. simpl in Hold. lia.
Qed.

(** X9. When every row of the last known state is older than every row of
    the batch, the change detector emits rows of the batch only, all of them
    dated; and an empty batch emits nothing. *)
Theorem change_detector_keeps_to_a_newer_batch (df_new df_db_state : list R) :
  (∀ s n t, s ∈ df_db_state → n ∈ df_new → fecha_registro s = Some t →
            ts_lt (Some t) (fecha_registro n)) →
  process_status_changes [] df_db_state = []
  ∧ ∀ x, x ∈ process_status_changes df_new df_db_state →
         x ∈ df_new ∧ is_Some (fecha_registro x).
Proof.
  intros Hold. split.
  - unfold process_status_changes. apply filter_none.
    intros x _ Hge. unfold fecha_ge in Hge. simpl in Hge.
    by destruct (fecha_registro x).
  - intros x Hx. split; [by eapply older_state_is_not_emitted|].
    apply elem_of_process_status_changes in Hx as [_ Hge].
    unfold fecha_ge in Hge. by destruct (fecha_registro x).
Qed.

(** X10. The rows of the last known state are told from the rows of the
    batch by their date only.  A row of the state that is dated on or after
    the earliest row of the batch, and not after the batch rows of its own
    key, is emitted once more, although it is already persisted. *)
Theorem persisted_row_in_the_batch_window_is_emitted_again
    (df_new df_db_state : list R) (x : R) (t m : Z) :
  NoDup (group_cols <$> df_db_state) →
  x ∈ df_db_state →
  fecha_registro x = Some t →
  (∀ n, n ∈ df_new → group_cols n = group_cols x → ts_le (Some t) (fecha_registro n)) →
  ts_min (fecha_registro <$> df_new) = Some m →
  m ≤ t →
  x ∈ process_status_changes df_new df_db_state.
Proof.
  intros Hnd Hx Ht Hnew Hm Hle.
  assert (x ∈ filter (fun r => group_cols r = group_cols x)
                (process_status_changes df_new df_db_state)) as Hin;
    [|by apply list_elem_of_filter in Hin as [_ ?]].
  rewrite process_status_changes_group, (filter_key_NoDup group_cols df_db_state x)
    by done.
  change ([x] ++ ?l) with (x :: l). unfold sort_values.
  change (stable_sort row_le (x :: ?l)) with (insert_sorted row_le x (stable_sort row_le l)).
  rewrite insert_sorted_head.
  - rewrite first_row_of_a_key_is_kept, filter_cons_True; [by left|].
    unfold fecha_ge. by rewrite Ht, Hm.
  - apply Forall_forall. intros n [Hk Hn]%elem_of_stable_sort%list_elem_of_filter.
    apply same_key_row_le; [done|]. rewrite Ht. by apply Hnew.
Qed.

(** X11. The first sight of a key is recorded.  When the last known state
    has no row for the key of a dated batch row, the change detector emits
    the earliest batch row of that key, whatever its status. *)
Theorem first_sight_of_a_key_is_recorded (df_new df_db_state : list R) (n : R) :
  n ∈ df_new → is_Some (fecha_registro n) →
  (∀ s, s ∈ df_db_state → group_cols s ≠ group_cols n) →
  ∃ y, y ∈ process_status_changes df_new df_db_state
       ∧ y ∈ df_new
       ∧ group_cols y = group_cols n
       ∧ ∀ n', n' ∈ df_new → group_cols n' = group_cols n →
               ts_le (fecha_registro y) (fecha_registro n').
Proof.
  intros Hn [t Ht] Hst.
  pose proof (process_status_changes_group (group_cols n) df_new df_db_state) as Hg.
  rewrite (filter_none _ df_db_state) in Hg by done. simpl in Hg.
  pose proof (sort_values_sorted
                (filter (fun r => group_cols r = group_cols n) df_new)) as Hs.
  assert (∀ z, z ∈ sort_values (filter (fun r => group_cols r = group_cols n) df_new)
               ↔ group_cols z = group_cols n ∧ z ∈ df_new) as Hel.
  { intros z. unfold sort_values. by rewrite elem_of_stable_sort, list_elem_of_filter. }
  destruct (sort_values (filter (fun r => group_cols r = group_cols n) df_new))
    as [|y l].
  { exfalso. eapply elem_of_nil. apply Hel. by split. }
  apply StronglySorted_inv in Hs as [_ Hy]. rewrite Forall_forall in Hy.
  assert (∀ z, z ∈ df_new → group_cols z = group_cols n →
               ts_le (fecha_registro y) (fecha_registro z)) as Hmin.
  { intros z Hz Hk. assert (z ∈ y :: l) as [->|Hzl]%elem_of_cons by by apply Hel.
    - done.
    - apply row_le_same_key; [by apply Hy|].
      destruct (proj1 (Hel y)) as [-> _]; [by left|done]. }
  destruct (proj1 (Hel y)) as [Hky Hyn]; [by left|].
  exists y. split; [|done].
  assert (y ∈ filter (fun r => group_cols r = group_cols n)
                (process_status_changes df_new df_db_state)) as Hin;
    [|by apply list_elem_of_filter in Hin as [_ ?]].
  rewrite Hg, first_row_of_a_key_is_kept, filter_cons_True; [by left|].
  specialize (Hmin n Hn eq_refl). rewrite Ht in Hmin.
  destruct (fecha_registro y) as [ty|] eqn:Hty; [|done].
  by eapply fecha_ge_new.
Qed.

End EmittedRows.

Lemma change_detector_keeps_to_a_newer_batch_witness :
  let df_db_state := [padre_hist "107223" "F1" 100 "Asignado"] in
  let df_new := [padre_hist "107223" "F1" 200 "Asignado";
                 padre_hist "107223" "F1" 300 "Aceptado"] in
  process_status_changes df_new df_db_state = [padre_hist "107223" "F1" 300 "Aceptado"]
  ∧ process_status_changes [] df_db_state = []
  ∧ ∀ x, x ∈ process_status_changes df_new df_db_state →
         x ∈ df_new ∧ is_Some (fecha_registro x).
Proof.
  intros df_db_state df_new. split; [vm_compute; reflexivity|].
  apply (change_detector_keeps_to_a_newer_batch df_new df_db_state).
  intros s n t Hs Hn [= <-]. apply list_elem_of_singleton in Hs as ->.
  apply elem_of_cons in Hn as [-> | Hn]; [simpl; lia|].
  apply list_elem_of_singleton in Hn as ->. simpl. lia.
Defined.

Lemma persisted_row_in_the_batch_window_is_emitted_again_witness :
  let x := {| hh_cliente := "107223"; hh_folio_padre := Some "F1"; hh_folio_hijo := "H1";
              hh_ppa_grd := Some "GRD"; hh_fecha_registro := Some 200;
              hh_estado_padre := Some "Asignado"; hh_estado_hijo := "Aceptado" |} in
  process_status_changes [x] [x] = [x]
  ∧ x ∈ process_status_changes [x] [x].
Proof.
  intros x. split; [vm_compute; reflexivity|].
  apply (persisted_row_in_the_batch_window_is_emitted_again [x] [x] x 200 200).
  - apply NoDup_singleton.
  - by left.
  - reflexivity.
  - intros n ->%list_elem_of_singleton _. simpl. lia.
  - reflexivity.
  - lia.
Defined.

Lemma first_sight_of_a_key_is_recorded_witness :
  let df_db_state := [padre_hist "107223" "F0" 50 "Asignado"] in
  let n := padre_hist "107223" "F1" 200 "Asignado" in
  let df_new := [n; padre_hist "107223" "F1" 100 "Asignado"] in
  process_status_changes df_new df_db_state = [padre_hist "107223" "F1" 100 "Asignado"]
  ∧ ∃ y, y ∈ process_status_changes df_new df_db_state
         ∧ y ∈ df_new
         ∧ group_cols y = group_cols n
         ∧ ∀ n', n' ∈ df_new → group_cols n' = group_cols n →
                 ts_le (fecha_registro y) (fecha_registro n').
Proof.
  intros df_db_state n df_new. split; [vm_compute; reflexivity|].
  apply (first_sight_of_a_key_is_recorded df_new df_db_state n).
  - by left.
  - by eexists.
  - intros s ->%list_elem_of_singleton. discriminate.
Defined.



(** ** The dimension rebuilders *)

Section GuardedReads.
Variable faults : Op → bool.

Lemma guarded_read_table {T : Type} op (table : DB → option (list T)) db :
  try_except (Some <$> read_table faults op table) (fun _ => mret None) db
  = (db, Ok (if faults op then None else table db)).
Proof.
  unfold read_table. unfold_M. destruct (faults op); [done|]. by destruct (table db).
Qed.

Lemma guarded_read_rows {T : Type} op (table : DB → list T) db :
  try_except (Some <$> read_rows faults op table) (fun _ => mret None) db
  = (db, Ok (if faults op then None else Some (table db))).
Proof. unfold read_rows. unfold_M. by destruct (faults op). Qed.

End GuardedReads.

(** X13. [update_dimensions_padre] gives up without a write and without an
    exception when there is nothing to rebuild or when one of its first two
    reads fails: an empty list of folios, a failed or impossible read of the
    parent history, no history record for the folios, a failed read of the
    static rows, or no snapshot row for the folios. *)
Theorem update_dimensions_padre_returns_early (faults : Op → bool)
    (folios : list string) (db : DB) :
  folios = []
  ∨ faults OpDimPadreHistory = true
  ∨ dm_rn_fechas_folio_padre db = None
  ∨ (∀ h, h ∈ parent_history db → ph_folio_padre h ∉ folios)
  ∨ faults OpDimPadreStatic = true
  ∨ (∀ r, r ∈ rn_registro_casos_transi db → raw_folio_padre r ∉ folios) →
  update_dimensions_padre faults folios db = (db, Ok tt).
Proof.
  intros H. unfold update_dimensions_padre.
  destruct folios as [|f fs]; [done|].
  rewrite M_bind_unfold, guarded_read_table.
  destruct H as [H|[H|[H|[H|H]]]]; [done|by rewrite H| | |].
  - rewrite H. by destruct (faults OpDimPadreHistory).
  - destruct (faults OpDimPadreHistory); [done|].
    unfold parent_history in H.
    destruct (dm_rn_fechas_folio_padre db) as [rows|]; [|done]. simpl in *.
    by rewrite (filter_none _ rows).
  - destruct (filter _ <$> _) as [[|h hs]|]; try done.
    rewrite M_bind_unfold, guarded_read_rows.
    destruct H as [H|H]; [by rewrite H|].
    destruct (faults OpDimPadreStatic); [done|]. simpl.
    unfold query_static. by rewrite (filter_none _ (rn_registro_casos_transi db)).
Qed.

Lemma update_dimensions_padre_returns_early_witness :
  let db := store_with_history
              [snapshot_row "107223" "F1" None "Asignado" "" 100 (Some 90)]
              [padre_hist "107223" "F1" 100 "Asignado"] in
  update_dimensions_padre no_faults [] db = (db, Ok tt)
  ∧ update_dimensions_padre (only OpDimPadreHistory) ["F1"] db = (db, Ok tt)
  ∧ update_dimensions_padre no_faults ["F2"] db = (db, Ok tt).
Proof.
  intros db. split; [|split].
  - apply (update_dimensions_padre_returns_early no_faults [] db). by left.
  - apply (update_dimensions_padre_returns_early (only OpDimPadreHistory) ["F1"] db).
    right. left. reflexivity.
  - apply (update_dimensions_padre_returns_early no_faults ["F2"] db).
    right. right. right. left.
    intros h ->%list_elem_of_singleton Hin. by apply list_elem_of_singleton in Hin.
Defined.

(** X14. [update_dimensions_hijo] swallows every database error: whatever
    calls fail and whatever the store holds, it returns normally, and the
    store it leaves differs from the one it found in the table
    "dm_rn_folio_hijo" only. *)
Theorem update_dimensions_hijo_swallows_every_error (faults : Op → bool)
    (keys : list HijoKey) (db : DB) :
  ∃ t, update_dimensions_hijo faults keys db = (set_dm_rn_folio_hijo t db, Ok tt).
Proof.
  pose (I := fun db' : DB => ∃ t, db' = set_dm_rn_folio_hijo t db).
  assert (hoare I (update_dimensions_hijo faults keys) (fun _ => True) (fun _ => False))
    as Hh.
  { apply hoare_update_dimensions_hijo. intros db' df [t ->] _.
    destruct (upsert_hijo_writes_its_table faults (snd <$> remove_dups keys) df
                (set_dm_rn_folio_hijo t db)) as [t' ->].
    by exists t'. }
  destruct (Hh db) as [[t Ht] Hr].
  { exists (dm_rn_folio_hijo db). by destruct db. }
  exists t. destruct (update_dimensions_hijo faults keys db) as [db' [[]|e]]; simpl in *.
  - by rewrite Ht.
  - done.
Qed.

(** X15. [update_dimensions_padre] writes the table "dm_rn_folio_padre" and
    nothing else, and the only exceptions that leave it are those of its two
    unguarded calls: the query of the client start dates and the final
    insert. *)
Theorem update_dimensions_padre_effects (faults : Op → bool)
    (folios : list string) (db : DB) :
  (∃ t, (update_dimensions_padre faults folios db).1 = set_dm_rn_folio_padre t db)
  ∧ ∀ e, (update_dimensions_padre faults folios db).2 = Raise e →
         (e = OperationalError OpClientStarts ∧ faults OpClientStarts = true)
         ∨ (e = OperationalError OpDimPadreInsert ∧ faults OpDimPadreInsert = true).
Proof.
  pose (I := fun db' : DB => ∃ t, db' = set_dm_rn_folio_padre t db).
  pose (E := fun e : Exception =>
    (e = OperationalError OpClientStarts ∧ faults OpClientStarts = true)
    ∨ (e = OperationalError OpDimPadreInsert ∧ faults OpDimPadreInsert = true)).
  assert (hoare I (update_dimensions_padre faults folios) (fun _ => True) E) as Hh.
  { apply hoare_update_dimensions_padre.
    - intros db' df [t ->] _.
      destruct (upsert_padre_writes_its_table faults folios df
                  (set_dm_rn_folio_padre t db)) as [t' ->].
      by exists t'.
    - intros Hf. by left.
    - intros Hf. by right. }
  destruct (Hh db) as [Ht Hr].
  { exists (dm_rn_folio_padre db). by destruct db. }
  split; [done|]. intros e He. by rewrite He in Hr.
Qed.

(** X16. The rebuild of the parent dimension touches the rows of the
    affected folios only: a row of any other folio is in the table after the
    call exactly when it was there before, whatever calls fail. *)
Theorem parent_rebuild_keeps_the_other_folios (faults : Op → bool)
    (folios : list string) (db : DB) (d : DimPadre) :
  dp_folio_padre d ∉ folios →
  d ∈ padre_dimension (update_dimensions_padre faults folios db).1
  ↔ d ∈ padre_dimension db.
Proof.
  intros Hd.
  pose (I := fun db' : DB => d ∈ padre_dimension db' ↔ d ∈ padre_dimension db).
  assert (hoare I (update_dimensions_padre faults folios) (fun _ => True) (fun _ => True))
    as Hh; [|by apply Hh].
  apply hoare_update_dimensions_padre; [|done|done].
  intros db' df HI [_ Hdf]. unfold I in *. rewrite <- HI.
  rewrite upsert_padre_spec. unfold padre_dimension.
  assert (d ∉ df) as Hnin. { intros Hin. apply Hd. by apply Hdf. }
  destruct (faults OpDimPadreDelete), (dm_rn_folio_padre db') as [rows|] eqn:Hrows,
    (faults OpDimPadreInsert); simpl; rewrite ?Hrows; simpl;
    rewrite ?elem_of_app, ?list_elem_of_filter, ?elem_of_nil; tauto.
Qed.

Lemma parent_rebuild_keeps_the_other_folios_witness :
  let db := store_after_first_run in
  padre_dimension db = [first_run_dim_padre]
  ∧ (first_run_dim_padre ∈ padre_dimension (update_dimensions_padre no_faults ["F2"] db).1
     ↔ first_run_dim_padre ∈ padre_dimension db).
Proof.
  intros db. split; [vm_compute; reflexivity|].
  apply (parent_rebuild_keeps_the_other_folios no_faults ["F2"] db first_run_dim_padre).
  intros Hin. by apply list_elem_of_singleton in Hin.
Defined.

(** X17. The rebuild of the child dimension touches the rows of the child
    folios it was called for only: a row of any other child folio is in the
    table after the call exactly when it was there before. *)
Theorem child_rebuild_keeps_the_other_folios (faults : Op → bool)
    (keys : list HijoKey) (db : DB) (d : DimHijo) :
  dh_folio_hijo d ∉ snd <$> keys →
  d ∈ hijo_dimension (update_dimensions_hijo faults keys db).1
  ↔ d ∈ hijo_dimension db.
Proof.
  intros Hd.
  pose (I := fun db' : DB => d ∈ hijo_dimension db' ↔ d ∈ hijo_dimension db).
  assert (hoare I (update_dimensions_hijo faults keys) (fun _ => True) (fun _ => True))
    as Hh; [|by apply Hh].
  apply hoare_update_dimensions_hijo.
  intros db' df HI Hdf. unfold I in *. rewrite <- HI.
  rewrite upsert_hijo_spec. unfold hijo_dimension.
  assert (dh_folio_hijo d ∉ snd <$> remove_dups keys) as Hd'.
  { intros (k & Hk & Hin)%list_elem_of_fmap. apply Hd. rewrite Hk.
    apply list_elem_of_fmap_2. by rewrite elem_of_remove_dups in Hin. }
  assert (d ∉ df) as Hnin. { intros Hin. apply Hd'. by apply Hdf. }
  destruct (faults OpDimHijoDelete), (dm_rn_folio_hijo db') as [rows|] eqn:Hrows,
    (faults OpDimHijoInsert); simpl; rewrite ?Hrows; simpl;
    rewrite ?elem_of_app, ?list_elem_of_filter, ?elem_of_nil; tauto.
Qed.

Lemma child_rebuild_keeps_the_other_folios_witness :
  let db := store_after_first_run in
  hijo_dimension db = [first_run_dim_hijo]
  ∧ (first_run_dim_hijo
       ∈ hijo_dimension (update_dimensions_hijo no_faults [("107223", Some "F1", "H2")] db).1
     ↔ first_run_dim_hijo ∈ hijo_dimension db).
Proof.
  intros db. split; [vm_compute; reflexivity|].
  apply (child_rebuild_keeps_the_other_folios no_faults [("107223", Some "F1", "H2")] db
           first_run_dim_hijo).
  intros Hin. by apply list_elem_of_singleton in Hin.
Defined.

Section UpsertRows.
Variable faults : Op → bool.

(** The rows of the parent dimension after an upsert: rows that were there,
    and rows of the frame. *)
Lemma elem_of_upsert_padre folios df db d :
  d ∈ padre_dimension (upsert_padre faults folios df db).1 →
  d ∈ padre_dimension db ∨ d ∈ df.
Proof.
  rewrite upsert_padre_spec. unfold padre_dimension.
  destruct (faults OpDimPadreDelete), (dm_rn_folio_padre db) as [rows|] eqn:Hrows,
    (faults OpDimPadreInsert); simpl; rewrite ?Hrows; simpl;
    rewrite ?elem_of_app, ?list_elem_of_filter, ?elem_of_nil; tauto.
Qed.

(** An upsert whose DELETE does not fail keeps the parent dimension keyed. *)
Lemma upsert_padre_keeps_keys folios df db :
  faults OpDimPadreDelete = false →
  rebuilt_padre folios df →
  NoDup (dim_padre_key <$> padre_dimension db) →
  NoDup (dim_padre_key <$> padre_dimension (upsert_padre faults folios df db).1).
Proof.
  intros Hf [Hdf Hrows] Hnd. rewrite upsert_padre_spec, Hf. unfold padre_dimension in *.
  destruct (dm_rn_folio_padre db) as [rows|] eqn:Ht; simpl in *.
  - assert (NoDup (dim_padre_key <$>
                     filter (fun d => dp_folio_padre d ∉ folios) rows ++ df)) as Happ.
    { rewrite fmap_app. apply NoDup_app.
      split; [by apply NoDup_fmap_filter|]. split; [|done].
      intros k (x & -> & [Hx _]%list_elem_of_filter)%list_elem_of_fmap
               (y & Hk & Hy)%list_elem_of_fmap.
      apply Hx. destruct (Hrows y Hy) as [Hin _].
      unfold dim_padre_key in Hk. by injection Hk as _ ->. }
    destruct (faults OpDimPadreInsert); simpl; [by apply NoDup_fmap_filter|done].
  - destruct (faults OpDimPadreInsert); simpl; rewrite ?Ht; simpl; [constructor|done].
Qed.

End UpsertRows.

(** X18. The parent dimension stays keyed.  As long as the DELETE of the
    parent upsert does not fail, a table "dm_rn_folio_padre" that holds at
    most one row per (cliente, folio_padre) still does after a rebuild, for
    any folios, and after a whole run, whatever else fails. *)
Theorem parent_dimension_stays_keyed (faults : Op → bool) (db : DB) :
  faults OpDimPadreDelete = false →
  NoDup (dim_padre_key <$> padre_dimension db) →
  (∀ folios,
     NoDup (dim_padre_key
              <$> padre_dimension (update_dimensions_padre faults folios db).1))
  ∧ NoDup (dim_padre_key <$> padre_dimension (run faults db).1).
Proof.
  intros Hf Hnd.
  pose (I := fun db' : DB => NoDup (dim_padre_key <$> padre_dimension db')).
  split.
  - intros folios.
    assert (hoare I (update_dimensions_padre faults folios) (fun _ => True)
              (fun _ => True)) as Hh; [|by apply Hh].
    apply hoare_update_dimensions_padre; [|done|done].
    intros db' df HI Hdf. by apply (upsert_padre_keeps_keys faults folios).
  - assert (hoare I (run faults) (fun _ => True) (fun _ => True)) as Hh;
      [|by apply Hh].
    apply hoare_run; try done.
    + intros db' folios df HI Hdf. by apply (upsert_padre_keeps_keys faults folios).
    + intros db' folios df HI _.
      destruct (upsert_hijo_writes_its_table faults folios df db') as [t ->]. apply HI.
Qed.

Lemma parent_dimension_stays_keyed_witness :
  let db := store_after_first_run in
  NoDup (dim_padre_key <$> padre_dimension db)
  ∧ (∀ folios,
       NoDup (dim_padre_key
                <$> padre_dimension (update_dimensions_padre no_faults folios db).1))
  ∧ NoDup (dim_padre_key <$> padre_dimension (run no_faults db).1).
Proof.
  intros db.
  assert (NoDup (dim_padre_key <$> padre_dimension db)) as Hnd.
  { change (NoDup [("107223", "F1")]). apply NoDup_singleton. }
  split; [done|].
  apply (parent_dimension_stays_keyed no_faults db); [reflexivity|done].
Defined.

(** X19. No row enters the parent dimension unclassified.  Every row that
    a run leaves in "dm_rn_folio_padre", whatever calls fail, was there
    before the run, or carries the label "current" or "legacy", an assignment
    date, and a url that does not hold "codificado". *)
Theorem parent_dimension_rows_are_classified (faults : Op → bool) (db : DB)
    (d : DimPadre) :
  d ∈ padre_dimension (run faults db).1 →
  d ∈ padre_dimension db
  ∨ ((dp_tipo_seguimiento d = "current" ∨ dp_tipo_seguimiento d = "legacy")
     ∧ is_Some (dp_fecha_asignacion d)
     ∧ ∀ u, dp_url_ficha d = Some u → contains "codificado" u = false).
Proof.
  pose (I := fun db' : DB =>
    d ∈ padre_dimension db' →
    d ∈ padre_dimension db
    ∨ ((dp_tipo_seguimiento d = "current" ∨ dp_tipo_seguimiento d = "legacy")
       ∧ is_Some (dp_fecha_asignacion d)
       ∧ ∀ u, dp_url_ficha d = Some u → contains "codificado" u = false)).
  assert (hoare I (run faults) (fun _ => True) (fun _ => True)) as Hh.
  { apply hoare_run; try done.
    - intros db' folios df HI [_ Hdf] [Hd|Hd]%elem_of_upsert_padre; [by apply HI|].
      right. by apply Hdf.
    - intros db' folios df HI _.
      destruct (upsert_hijo_writes_its_table faults folios df db') as [t ->]. apply HI. }
  apply Hh. by left.
Qed.

Lemma parent_dimension_rows_are_classified_witness :
  let db := empty_store
              [snapshot_row "107223" "F1" (Some "H1") "Asignado" "Pendiente" 100 (Some 90)] in
  let d := first_run_dim_padre in
  padre_dimension (run no_faults db).1 = [d]
  ∧ (d ∈ padre_dimension db
     ∨ ((dp_tipo_seguimiento d = "current" ∨ dp_tipo_seguimiento d = "legacy")
        ∧ is_Some (dp_fecha_asignacion d)
        ∧ ∀ u, dp_url_ficha d = Some u → contains "codificado" u = false)).
Proof.
  intros db d.
  assert (padre_dimension (run no_faults db).1 = [d]) as Hrun by (vm_compute; reflexivity).
  split; [done|].
  apply (parent_dimension_rows_are_classified no_faults db d). rewrite Hrun. by left.
Defined.

(** ** The child branch of a run *)

Section ChildBranch.
Variable faults : Op → bool.

Lemma update_dimensions_hijo_preserves_child_history keys :
  preserves dm_rn_fechas_folio_hijo (update_dimensions_hijo faults keys).
Proof. unfold update_dimensions_hijo, upsert_hijo. effects. Qed.


(** The child branch, call by call. *)
Lemma process_folio_hijo_spec df_new snapshot db :
  process_folio_hijo faults df_new snapshot db
  = match omap hijo_cols df_new with
    | [] => (db, Ok tt)
    | _ =>
      if faults OpSuprimidosHijo
      then (db, Raise (OperationalError OpSuprimidosHijo))
      else match dm_rn_fechas_folio_hijo db with
           | None => (db, Raise (UndefinedTable OpSuprimidosHijo))
           | Some rows =>
             match child_changes (faults OpLatestStateHijo) (faults OpFullStateHijo)
                     df_new snapshot rows with
             | [] => (db, Ok tt)
             | changes =>
               if faults OpPersistHijo
               then (db, Raise (OperationalError OpPersistHijo))
               else update_dimensions_hijo faults
                      ((hijo_key_of_row <$> omap hijo_cols df_new)
                       ++ (hijo_key_of_suprimido
                             <$> suprimidos_of (omap hijo_cols snapshot)
                                   (latest_state rows)))
                      (set_dm_rn_fechas_folio_hijo (Some (rows ++ changes)) db)
             end
           end
    end.
Proof.
  unfold process_folio_hijo.
  destruct (omap hijo_cols df_new) as [|h0 hs] eqn:Hraw; [done|]. rewrite <- Hraw.
  unfold mbind at 1. unfold M_bind. rewrite get_latest_state_from_db_spec.
  unfold mbind at 1. unfold M_bind. rewrite detect_suprimidos_spec.
  destruct (faults OpSuprimidosHijo); [done|].
  destruct (dm_rn_fechas_folio_hijo db) as [rows|] eqn:E; [|done].
  unfold child_changes.
  assert (∀ changes : list HijoHist,
            match changes with
            | [] => mret ()
            | _ :: _ =>
                to_sql_append faults OpPersistHijo dm_rn_fechas_folio_hijo
                  set_dm_rn_fechas_folio_hijo changes;;
                update_dimensions_hijo faults
                  ((hijo_key_of_row <$> omap hijo_cols df_new)
                   ++ (hijo_key_of_suprimido
                         <$> suprimidos_of (omap hijo_cols snapshot)
                               (latest_state rows)))
            end db
            = match changes with
              | [] => (db, Ok tt)
              | c0 :: cs0 =>
                if faults OpPersistHijo
                then (db, Raise (OperationalError OpPersistHijo))
                else update_dimensions_hijo faults
                       ((hijo_key_of_row <$> omap hijo_cols df_new)
                        ++ (hijo_key_of_suprimido
                              <$> suprimidos_of (omap hijo_cols snapshot)
                                    (latest_state rows)))
                       (set_dm_rn_fechas_folio_hijo (Some (rows ++ c0 :: cs0)) db)
              end) as Hpersist.
  { intros [|c cs]; [done|]. unfold mbind, M_bind, to_sql_append.
    destruct (faults OpPersistHijo); by rewrite ?E. }
  destruct (suprimidos_of (omap hijo_cols snapshot) (latest_state rows))
    as [|s ss] eqn:Hs.
  { unfold mbind at 1. unfold M_bind. unfold mret at 1. unfold M_ret.
    rewrite (right_id_L [] (++)). apply Hpersist. }
  unfold mbind at 1. unfold M_bind.
  unfold mbind at 1. unfold M_bind. rewrite get_latest_state_from_db_spec, E.
  destruct (if faults OpFullStateHijo then [] else latest_state rows) as [|f fs] eqn:Hf;
    unfold mret at 1; unfold M_ret.
  - rewrite (right_id_L [] (++)). apply Hpersist.
  - apply Hpersist.
Qed.


End ChildBranch.

(** The rows of a left merge: every left row, with one of its matching right
    rows, or with none when nothing matches. *)
Lemma elem_of_merge_left {A B C : Type} (on : A → B → bool)
    (combine : A → option B → C) (left : list A) (right : list B) (c : C) :
  c ∈ merge_left on combine left right
  ↔ ∃ a, a ∈ left
         ∧ ((filter (fun b => on a b = true) right = [] ∧ c = combine a None)
            ∨ ∃ b, b ∈ right ∧ on a b = true ∧ c = combine a (Some b)).
Proof.
  unfold merge_left. rewrite list_elem_of_bind. split.
  - intros (a & Hc & Ha). exists a. split; [done|].
    destruct (filter (fun b => on a b = true) right) as [|b0 bs] eqn:Hf.
    + left. split; [done|]. by apply list_elem_of_singleton in Hc.
    + right. apply list_elem_of_fmap in Hc as (b & -> & Hb).
      rewrite <- Hf in Hb. apply list_elem_of_filter in Hb as [Hon Hb]. by exists b.
  - intros (a & Ha & [[Hf ->]|(b & Hb & Hon & ->)]); exists a; (split; [|done]).
    + rewrite Hf. by left.
    + assert (b ∈ filter (fun b => on a b = true) right) as Hin
        by by apply list_elem_of_filter.
      destruct (filter (fun b => on a b = true) right) as [|b0 bs];
        [by apply elem_of_nil in Hin|].
      apply list_elem_of_fmap. by exists b.
Qed.



(** X21. Undated suppression records.  The child branch dates its
    suppression records at the latest timestamp of the child rows of the
    snapshot slice.  When the batch has child rows but the slice has none,
    every child key whose last record does not carry "Folio suprimido" gets a
    suppression record without a date in the child history. *)
Theorem child_slice_without_child_rows_gives_undated_records (faults : Op → bool)
    (df_new snapshot : list RawRow) (db : DB) (rows : list HijoHist) (a : HijoHist) :
  omap hijo_cols df_new ≠ [] →
  omap hijo_cols snapshot = [] →
  dm_rn_fechas_folio_hijo db = Some rows →
  faults OpSuprimidosHijo = false →
  faults OpFullStateHijo = false →
  faults OpPersistHijo = false →
  a ∈ latest_state rows →
  hh_estado_hijo a ≠ FOLIO_SUPRIMIDO →
  {| hh_cliente := hh_cliente a;
     hh_folio_padre := hh_folio_padre a;
     hh_folio_hijo := hh_folio_hijo a;
     hh_ppa_grd := hh_ppa_grd a;
     hh_fecha_registro := None;
     hh_estado_padre := hh_estado_padre a;
     hh_estado_hijo := FOLIO_SUPRIMIDO |}
    ∈ child_history (process_folio_hijo faults df_new snapshot db).1.
Proof.
  intros Hraw Hsnap Ht Hfs Hff Hfp Ha Hsa.
  set (u := {| sup_key := group_cols a; sup_estado := FOLIO_SUPRIMIDO;
               sup_fecha := None |}).
  set (c := {| hh_cliente := hh_cliente a; hh_folio_padre := hh_folio_padre a;
               hh_folio_hijo := hh_folio_hijo a; hh_ppa_grd := hh_ppa_grd a;
               hh_fecha_registro := None; hh_estado_padre := hh_estado_padre a;
               hh_estado_hijo := FOLIO_SUPRIMIDO |}).
  assert (u ∈ suprimidos_of (omap hijo_cols snapshot) (latest_state rows)) as Hu.
  { rewrite Hsnap. unfold suprimidos_of.
    destruct (latest_state rows) as [|a0 st] eqn:Hst; [by apply elem_of_nil in Ha|].
    apply list_elem_of_fmap. exists a. split; [done|].
    apply list_elem_of_filter. split; [apply not_elem_of_nil|].
    by apply list_elem_of_filter. }
  assert (c ∈ child_changes (faults OpLatestStateHijo) (faults OpFullStateHijo)
                df_new snapshot rows) as Hc.
  { unfold child_changes. apply elem_of_app. right. rewrite Hff.
    destruct (suprimidos_of _ _) as [|s0 ss] eqn:Hsup; [by apply elem_of_nil in Hu|].
    destruct (latest_state rows) as [|f0 fs] eqn:Hfull; [by apply elem_of_nil in Ha|].
    rewrite <- Hsup. apply elem_of_merge_left. exists u. split; [by rewrite Hsup|].
    right. exists a. split; [done|]. split; [by apply bool_decide_eq_true|done]. }
  rewrite process_folio_hijo_spec, Hfs, Ht.
  destruct (omap hijo_cols df_new) as [|h0 hs] eqn:Hcols; [done|]. rewrite <- Hcols.
  destruct (child_changes _ _ _ _ rows) as [|c0 cs] eqn:Hch; [by apply elem_of_nil in Hc|].
  rewrite Hfp. unfold child_history.
  rewrite update_dimensions_hijo_preserves_child_history. simpl.
  apply elem_of_app. by right.
Qed.

Lemma child_slice_without_child_rows_gives_undated_records_witness :
  let a := {| hh_cliente := "107223"; hh_folio_padre := Some "F1"; hh_folio_hijo := "H1";
              hh_ppa_grd := Some "GRD"; hh_fecha_registro := Some 100;
              hh_estado_padre := Some "Asignado"; hh_estado_hijo := "Pendiente" |} in
  let df_new := [snapshot_row "107223" "F1" (Some "H1") "Asignado" "Pendiente" 200 (Some 90);
                 snapshot_row "107223" "F1" None "Asignado" "" 300 (Some 90)] in
  let db := set_dm_rn_fechas_folio_hijo (Some [a]) (empty_store df_new) in
  latest_snapshot df_new = [snapshot_row "107223" "F1" None "Asignado" "" 300 (Some 90)]
  ∧ {| hh_cliente := "107223"; hh_folio_padre := Some "F1"; hh_folio_hijo := "H1";
       hh_ppa_grd := Some "GRD"; hh_fecha_registro := None;
       hh_estado_padre := Some "Asignado"; hh_estado_hijo := FOLIO_SUPRIMIDO |}
      ∈ child_history (process_folio_hijo no_faults df_new (latest_snapshot df_new) db).1.
Proof.
  intros a df_new db. split; [vm_compute; reflexivity|].
  apply (child_slice_without_child_rows_gives_undated_records no_faults df_new
           (latest_snapshot df_new) db [a] a); try reflexivity; try done.
  by left.
Defined.

(** ** The full rebuild and the first incremental run *)

Section SortedUnique.
Context {A : Type} (R : relation A) `{!RelDecision R, !Total R, !Transitive R}.

Lemma ties_refl x : ties R x x.
Proof. split; by destruct (total R x x). Qed.

(** A sorted list is determined by its rows and by the order of the rows
    that tie. *)
Lemma sorted_unique (l1 l2 : list A) :
  StronglySorted R l1 → StronglySorted R l2 → l1 ≡ₚ l2 →
  (∀ x, filter (ties R x) l1 = filter (ties R x) l2) →
  l1 = l2.
Proof.
  revert l2. induction l1 as [|x t1 IH]; intros l2 Hs1 Hs2 Hp Hf.
  { symmetry. by apply Permutation_nil_r. }
  destruct l2 as [|y t2].
  { by apply Permutation_nil_r in Hp. }
  apply StronglySorted_inv in Hs1 as [Hs1 Hx], Hs2 as [Hs2 Hy].
  rewrite Forall_forall in Hx, Hy.
  assert (ties R x y) as Hxy.
  { split.
    - assert (y ∈ x :: t1) as [->|Hin]%elem_of_cons by (rewrite Hp; by left).
      + apply ties_refl.
      + by apply Hx.
    - assert (x ∈ y :: t2) as [->|Hin]%elem_of_cons by (rewrite <- Hp; by left).
      + apply ties_refl.
      + by apply Hy. }
  assert (x = y) as <-.
  { specialize (Hf x). rewrite !filter_cons in Hf.
    rewrite decide_True in Hf by apply ties_refl.
    rewrite decide_True in Hf by done. by injection Hf. }
  f_equal. apply IH; [done|done|by apply Permutation_cons_inv in Hp|].
  intros z. specialize (Hf z). rewrite !filter_cons in Hf.
  destruct (decide (ties R z x)); [by injection Hf|done].
Qed.

Lemma pairwise_sorted (R' : relation A) (l : list A) :
  (∀ a b, a ∈ l → b ∈ l → R' a b) → StronglySorted R' l.
Proof.
  induction l as [|x l IH]; intros Hall; constructor.
  - apply IH. intros a b Ha Hb. apply Hall; by right.
  - apply Forall_forall. intros b Hb. apply Hall; [by left|by right].
Qed.

(** A stable sort by [R'] in front of a stable sort by [R] changes nothing
    when the rows that tie for [R] are in order for [R']. *)
Lemma stable_sort_twice (R' : relation A) `{!RelDecision R', !Total R', !Transitive R'}
    (l : list A) :
  (∀ x y, ties R x y → R' x y) →
  stable_sort R (stable_sort R' l) = stable_sort R l.
Proof.
  intros Hties. apply sorted_unique.
  - by apply stable_sort_StronglySorted.
  - by apply stable_sort_StronglySorted.
  - by rewrite !stable_sort_Permutation.
  - intros x. rewrite !(filter_stable_sort R) by done.
    rewrite (filter_stable_sort R') by done.
    f_equal. apply stable_sort_sorted, pairwise_sorted.
    intros a b [[Hxa Hax] _]%list_elem_of_filter [[Hxb Hbx] _]%list_elem_of_filter.
    apply Hties. split; by etrans.
Qed.

End SortedUnique.

Section CompressFacts.
Context {R : Type} `{!HistoryFrame R}.

#[global] Instance cliente_fecha_le_total : Total (cliente_fecha_le (R:=R)).
Proof.
  intros r1 r2. unfold cliente_fecha_le.
  apply (lex_le_total String.le ts_le).
Qed.

#[global] Instance cliente_fecha_le_trans : Transitive (cliente_fecha_le (R:=R)).
Proof.
  intros r1 r2 r3. unfold cliente_fecha_le.
  apply (lex_le_trans String.le ts_le).
Qed.

(** The first of the two sorts of [fix_ETL.py] is absorbed by the second. *)
Lemma sort_values_after_cliente_fecha (df : list R) :
  sort_values (stable_sort cliente_fecha_le df) = sort_values df.
Proof.
  apply (stable_sort_twice row_le cliente_fecha_le).
  intros x y [Hxy Hyx].
  assert (group_cols x = group_cols y) as Hk.
  { apply (anti_symm key_le); by apply row_le_key. }
  right. simpl. split; [by rewrite Hk|]. by apply row_le_same_key.
Qed.

Lemma compress_changes_sorted (df : list R) :
  compress_changes df = transitions None (sort_values df).
Proof. by rewrite compress_changes_transitions, sort_values_after_cliente_fecha. Qed.

Lemma transitions_sorted prev (l : list R) :
  StronglySorted row_le l → StronglySorted row_le (transitions prev l).
Proof.
  intros Hs. revert prev. induction Hs as [|r l Hl IH Hr]; intros prev; [constructor|].
  simpl. case_decide; [|by apply IH]. constructor; [by apply IH|].
  rewrite Forall_forall in *. intros x Hx. apply Hr. by eapply elem_of_transitions.
Qed.

Lemma filter_all (P : R → Prop) `{!∀ x, Decision (P x)} (l : list R) :
  (∀ x, x ∈ l → P x) → filter P l = l.
Proof.
  induction l as [|x l IH]; intros Hall; [done|].
  rewrite filter_cons, decide_True by (apply Hall; by left).
  f_equal. apply IH. intros y Hy. apply Hall. by right.
Qed.

(** Without a last known state, and on a batch whose rows are all dated, the
    change detector of the incremental path computes what the compression of
    the full rebuild computes. *)
Lemma process_status_changes_from_scratch (df_new : list R) :
  (∀ r, r ∈ df_new → is_Some (fecha_registro r)) →
  process_status_changes df_new [] = compress_changes df_new.
Proof.
  intros Hd. rewrite process_status_changes_transitions, compress_changes_sorted.
  apply filter_all. intros x Hx%elem_of_transitions. simpl in Hx.
  unfold sort_values in Hx. apply elem_of_stable_sort in Hx.
  destruct (Hd x Hx) as [t Ht]. by eapply fecha_ge_new.
Qed.

(** The earliest row of every key passes the shift-and-compare. *)
Lemma earliest_row_of_a_key_is_kept (df : list R) n :
  n ∈ df →
  ∃ y, y ∈ compress_changes df ∧ y ∈ df ∧ group_cols y = group_cols n
       ∧ ∀ n', n' ∈ df → group_cols n' = group_cols n →
               ts_le (fecha_registro y) (fecha_registro n').
Proof.
  intros Hn.
  assert (filter (fun r => group_cols r = group_cols n) (compress_changes df)
          = (filter state_changed
               (groupby_shift ∅
                  (sort_values (filter (fun r => group_cols r = group_cols n) df)))).*1)
    as Hg.
  { unfold compress_changes. rewrite sort_values_after_cliente_fecha.
    rewrite (changes_of_group (group_cols n) ∅ ∅) by done.
    by rewrite sort_values_filter. }
  pose proof (sort_values_sorted
                (filter (fun r => group_cols r = group_cols n) df)) as Hs.
  assert (∀ z, z ∈ sort_values (filter (fun r => group_cols r = group_cols n) df)
               ↔ group_cols z = group_cols n ∧ z ∈ df) as Hel.
  { intros z. unfold sort_values. by rewrite elem_of_stable_sort, list_elem_of_filter. }
  destruct (sort_values (filter (fun r => group_cols r = group_cols n) df)) as [|y l].
  { exfalso. eapply elem_of_nil. apply Hel. by split. }
  apply StronglySorted_inv in Hs as [_ Hy]. rewrite Forall_forall in Hy.
  destruct (proj1 (Hel y)) as [Hky Hyn]; [by left|].
  exists y. split; [|split; [done|split; [done|]]].
  - assert (y ∈ filter (fun r => group_cols r = group_cols n) (compress_changes df))
      as Hin; [|by apply list_elem_of_filter in Hin as [_ ?]].
    rewrite Hg, first_row_of_a_key_is_kept. by left.
  - intros z Hz Hk. assert (z ∈ y :: l) as [->|Hzl]%elem_of_cons by by apply Hel.
    + done.
    + apply row_le_same_key; [by apply Hy|]. by rewrite Hky.
Qed.

End CompressFacts.

(** X22. The first incremental run rebuilds the parent history.  On a store
    whose parent history exists and is empty, a run in which the watermark
    query, the extraction, the suppression query and the insert of the parent
    history succeed leaves as parent history the change-compressed frame that
    [fix_ETL.py] computes from the whole snapshot table; and when no folio is
    stale on the day of the rebuild, that is the very table that [fix_ETL.py]
    writes. *)
Theorem first_run_rebuilds_the_parent_history (faults : Op → bool) (db : DB)
    (fecha_hoy : Z) :
  dm_rn_fechas_folio_padre db = Some [] →
  faults OpMaxDate = false → faults OpExtract = false →
  faults OpSuprimidosPadre = false → faults OpPersistPadre = false →
  parent_history (run faults db).1
    = compress_changes (padre_cols <$> rn_registro_casos_transi db)
  ∧ (suprimidos_df_padre fecha_hoy (rn_registro_casos_transi db) = [] →
     parent_history (run faults db).1
       = fix_dm_rn_fechas_folio_padre fecha_hoy (rn_registro_casos_transi db)).
Proof.
  intros Ht Hm He Hs Hp.
  assert (parent_history (run faults db).1
          = compress_changes (padre_cols <$> rn_registro_casos_transi db)) as Hrun.
  { rewrite run_spec by done.
    assert (new_batch db = rn_registro_casos_transi db) as ->.
    { unfold new_batch, watermark, parent_history. by rewrite Ht. }
    destruct (rn_registro_casos_transi db) as [|r raw] eqn:Hraw.
    { unfold parent_history. simpl. by rewrite Ht. }
    rewrite <- Hraw. unfold parent_history.
    rewrite (bind_preserved dm_rn_fechas_folio_padre)
      by (intros; apply process_folio_hijo_preserves_history).
    rewrite process_folio_padre_spec, Hs, Ht, Hp. unfold parent_changes.
    assert (latest_state (@nil PadreHist) = []) as -> by done.
    assert ((if faults OpLatestStatePadre then [] else []) = @nil PadreHist) as ->
      by by destruct (faults OpLatestStatePadre).
    change (suprimidos_of _ []) with (@nil Suprimido).
    rewrite fmap_nil, (right_id_L [] (++)).
    rewrite process_status_changes_from_scratch
      by (intros ? (x & -> & _)%list_elem_of_fmap; by eexists).
    destruct (compress_changes _) as [|c cs] eqn:Hc; [simpl; by rewrite Ht|].
    by rewrite update_dimensions_padre_preserves_history. }
  split; [done|]. intros Hsup. rewrite Hrun.
  unfold fix_dm_rn_fechas_folio_padre. rewrite Hsup, (right_id_L [] (++)).
  symmetry. apply stable_sort_sorted. rewrite compress_changes_sorted.
  apply transitions_sorted, sort_values_sorted.
Qed.

Lemma first_run_rebuilds_the_parent_history_witness :
  let raw := [snapshot_row "107223" "F1" None "Asignado" "" (10 * 86400) (Some 90);
              snapshot_row "107223" "F1" None "Asignado" "" (10 * 86400 + 3600) (Some 90);
              snapshot_row "107223" "F1" None "Aceptado" "" (10 * 86400 + 7200) (Some 90)] in
  let db := empty_store raw in
  suprimidos_df_padre 10 raw = []
  ∧ parent_history (run no_faults db).1
    = [padre_hist "107223" "F1" (10 * 86400) "Asignado";
       padre_hist "107223" "F1" (10 * 86400 + 7200) "Aceptado"]
  ∧ parent_history (run no_faults db).1 = compress_changes (padre_cols <$> raw)
  ∧ parent_history (run no_faults db).1 = fix_dm_rn_fechas_folio_padre 10 raw.
Proof.
  intros raw db.
  assert (suprimidos_df_padre 10 raw = []) as Hsup by (vm_compute; reflexivity).
  split; [done|]. split; [vm_compute; reflexivity|].
  destruct (first_run_rebuilds_the_parent_history no_faults db 10) as [H1 H2];
    try reflexivity.
  split; [exact H1 | exact (H2 Hsup)].
Defined.

(** X23. The full rebuild records every folio.  For every (cliente,
    folio_padre) of the snapshot table, the parent history that [fix_ETL.py]
    writes holds the earliest snapshot row of that key, with the status it
    had then. *)
Theorem full_rebuild_records_every_folio (fecha_hoy : Z) (df_global : list RawRow)
    (r : RawRow) :
  r ∈ df_global →
  ∃ r0, r0 ∈ df_global
        ∧ raw_padre_key r0 = raw_padre_key r
        ∧ (∀ r', r' ∈ df_global → raw_padre_key r' = raw_padre_key r →
                 raw_fecha_registro r0 ≤ raw_fecha_registro r')
        ∧ padre_cols r0 ∈ fix_dm_rn_fechas_folio_padre fecha_hoy df_global.
Proof.
  intros Hr.
  destruct (earliest_row_of_a_key_is_kept (padre_cols <$> df_global) (padre_cols r))
    as (y & Hy & (r0 & -> & Hr0)%list_elem_of_fmap & Hk & Hmin).
  { by apply list_elem_of_fmap_2. }
  exists r0. split; [done|]. split; [done|]. split.
  - intros r' Hr' Hk'. apply (Hmin (padre_cols r')); [by apply list_elem_of_fmap_2|done].
  - unfold fix_dm_rn_fechas_folio_padre, sort_values.
    apply elem_of_stable_sort, elem_of_app. by left.
Qed.

Lemma full_rebuild_records_every_folio_witness :
  let r := snapshot_row "107223" "F1" None "Aceptado" "" 200 (Some 90) in
  let df_global := [r; snapshot_row "107223" "F1" None "Asignado" "" 100 (Some 90)] in
  ∃ r0, r0 ∈ df_global
        ∧ raw_padre_key r0 = raw_padre_key r
        ∧ (∀ r', r' ∈ df_global → raw_padre_key r' = raw_padre_key r →
                 raw_fecha_registro r0 ≤ raw_fecha_registro r')
        ∧ padre_cols r0 ∈ fix_dm_rn_fechas_folio_padre 0 df_global.
Proof.
  intros r df_global.
  apply (full_rebuild_records_every_folio 0 df_global r). by left.
Defined.

(** ** The snapshot store helpers *)

#[global] Instance fecha_desc_total : Total db_manager.fecha_desc.
Proof. intros a b. unfold db_manager.fecha_desc. lia. Qed.

#[global] Instance fecha_desc_trans : Transitive db_manager.fecha_desc.
Proof. intros a b c. unfold db_manager.fecha_desc. lia. Qed.

(** The first query of [revisar_ultima_actualizacion] returns no row when
    the client has none, and otherwise the latest timestamp of the client. *)
Lemma ultima_fecha_registro_spec (cliente_id : string) (raw : list RawRow) :
  match db_manager.ultima_fecha_registro cliente_id raw with
  | [] => ∀ r, r ∈ raw → raw_cliente r ≠ cliente_id
  | m :: _ =>
      (∃ r, r ∈ raw ∧ raw_cliente r = cliente_id ∧ raw_fecha_registro r = m)
      ∧ ∀ r, r ∈ raw → raw_cliente r = cliente_id → raw_fecha_registro r ≤ m
  end.
Proof.
  unfold db_manager.ultima_fecha_registro.
  set (fechas := raw_fecha_registro <$> filter (fun r => raw_cliente r = cliente_id) raw).
  pose proof (stable_sort_StronglySorted db_manager.fecha_desc fechas) as Hs.
  assert (∀ t, t ∈ stable_sort db_manager.fecha_desc fechas
               ↔ ∃ r, r ∈ raw ∧ raw_cliente r = cliente_id ∧ raw_fecha_registro r = t)
    as Hel.
  { intros t. rewrite elem_of_stable_sort. unfold fechas.
    rewrite list_elem_of_fmap. split.
    - intros (r & -> & [Hc Hr]%list_elem_of_filter). by exists r.
    - intros (r & Hr & Hc & <-). exists r. split; [done|].
      by apply list_elem_of_filter. }
  destruct (stable_sort db_manager.fecha_desc fechas) as [|m rest]; simpl.
  - intros r Hr Hc. eapply elem_of_nil. apply Hel. by exists r.
  - apply StronglySorted_inv in Hs as [_ Hm]. rewrite Forall_forall in Hm.
    split; [apply Hel; by left|].
    intros r Hr Hc.
    assert (raw_fecha_registro r ∈ m :: rest) as [->|Hin]%elem_of_cons.
    { apply Hel. by exists r. }
    + done.
    + by apply Hm.
Qed.

(** X24. [revisar_ultima_actualizacion] returns the latest snapshot of a
    client: when its two queries succeed and the client has rows, it returns
    the rows of the client that no row of the client is dated after, and
    there is at least one; when the client has no row at all it fails with
    an IndexError. *)
Theorem revisar_ultima_actualizacion_returns_the_latest_snapshot
    (faults : db_manager.Query → bool) (cliente_id : string) (db : DB) :
  faults db_manager.QryUltimaFecha = false →
  faults db_manager.QryUltimoRegistro = false →
  ((∀ r, r ∈ rn_registro_casos_transi db → raw_cliente r ≠ cliente_id) →
     db_manager.revisar_ultima_actualizacion faults cliente_id db
     = inl db_manager.IndexError)
  ∧ ((∃ r, r ∈ rn_registro_casos_transi db ∧ raw_cliente r = cliente_id) →
     ∃ rows,
       db_manager.revisar_ultima_actualizacion faults cliente_id db = inr rows
       ∧ rows ≠ []
       ∧ ∀ r, r ∈ rows
              ↔ r ∈ rn_registro_casos_transi db
                ∧ raw_cliente r = cliente_id
                ∧ ∀ r', r' ∈ rn_registro_casos_transi db →
                        raw_cliente r' = cliente_id →
                        raw_fecha_registro r' ≤ raw_fecha_registro r).
Proof.
  intros Hf1 Hf2. unfold db_manager.revisar_ultima_actualizacion. rewrite Hf1.
  pose proof (ultima_fecha_registro_spec cliente_id (rn_registro_casos_transi db)) as Hu.
  destruct (db_manager.ultima_fecha_registro cliente_id (rn_registro_casos_transi db))
    as [|m rest].
  - split; [done|]. intros (r & Hr & Hc). by destruct (Hu r Hr).
  - destruct Hu as [(rm & Hrm & Hcm & Hm) Hmax]. rewrite Hf2. split.
    { intros Hno. by destruct (Hno rm Hrm). }
    intros _. eexists. split; [done|]. split.
    + intros Hnil. eapply elem_of_nil. rewrite <- Hnil.
      apply list_elem_of_filter. by split.
    + intros r. rewrite list_elem_of_filter. split.
      * intros [[Hc Hd] Hr]. split; [done|]. split; [done|].
        intros r' Hr' Hc'. rewrite Hd. by apply Hmax.
      * intros (Hr & Hc & Hlast). split; [|done]. split; [done|].
        specialize (Hlast rm Hrm Hcm). specialize (Hmax r Hr Hc). lia.
Qed.

Lemma revisar_ultima_actualizacion_returns_the_latest_snapshot_witness :
  let old := snapshot_row "107223" "F1" None "Asignado" "" 100 (Some 90) in
  let new1 := snapshot_row "107223" "F1" None "Aceptado" "" 200 (Some 90) in
  let new2 := snapshot_row "107223" "F2" None "Asignado" "" 200 (Some 90) in
  let other := snapshot_row "111202" "F9" None "Asignado" "" 300 (Some 90) in
  let db := empty_store [old; new1; other; new2] in
  db_manager.revisar_ultima_actualizacion (fun _ => false) "107223" db = inr [new1; new2]
  ∧ db_manager.revisar_ultima_actualizacion (fun _ => false) "200842" db
    = inl db_manager.IndexError.
Proof.
  intros old new1 new2 other db. split; [vm_compute; reflexivity|].
  apply (revisar_ultima_actualizacion_returns_the_latest_snapshot
           (fun _ => false) "200842" db); [reflexivity|reflexivity|].
  intros r Hr. repeat (apply elem_of_cons in Hr as [->|Hr]; [discriminate|]).
  by apply elem_of_nil in Hr.
Defined.

(** X25. Saving a snapshot and reading it back.  After [guardar_en_db] has
    appended to the snapshot table a non-empty frame of rows of one client,
    all dated later than every row that the table held for that client,
    [revisar_ultima_actualizacion] returns the rows of that frame, each as
    often as it was saved, and no other row. *)
Theorem guardar_then_revisar_returns_the_saved_snapshot
    (faults : db_manager.Query → bool) (datos : list RawRow)
    (cliente_id : string) (t : Z) (db : DB) :
  (∀ q, faults q = false) →
  datos ≠ [] →
  (∀ r, r ∈ datos → raw_cliente r = cliente_id ∧ raw_fecha_registro r = t) →
  (∀ r, r ∈ rn_registro_casos_transi db → raw_cliente r = cliente_id →
        raw_fecha_registro r < t) →
  ∃ db',
    db_manager.guardar_en_db faults datos db_manager.TABLA_REGISTRO_CASOS db
    = (db', inr tt)
    ∧ ∃ rows,
        db_manager.revisar_ultima_actualizacion faults cliente_id db' = inr rows
        ∧ rows ≡ₚ datos.
Proof.
  intros Hf Hne Hdatos Hold. unfold db_manager.guardar_en_db. rewrite Hf.
  eexists. split; [done|]. exists datos. split; [|done].
  unfold db_manager.revisar_ultima_actualizacion. rewrite Hf. simpl.
  pose proof (ultima_fecha_registro_spec cliente_id
                (rn_registro_casos_transi db ++ datos)) as Hu.
  destruct datos as [|d0 ds]; [done|].
  destruct (Hdatos d0) as [Hc0 Ht0]; [by left|].
  destruct (db_manager.ultima_fecha_registro cliente_id
              (rn_registro_casos_transi db ++ d0 :: ds)) as [|m rest].
  { destruct (Hu d0); [|done]. apply elem_of_app. right. by left. }
  destruct Hu as [(rm & Hrm & Hcm & Hm) Hmax]. rewrite Hf. f_equal.
  assert (m = t) as ->.
  { assert (t ≤ m).
    { rewrite <- Ht0. apply Hmax; [|done]. apply elem_of_app. right. by left. }
    apply elem_of_app in Hrm as [Hrm|Hrm].
    - specialize (Hold rm Hrm Hcm). lia.
    - destruct (Hdatos rm Hrm) as [_ ?]. lia. }
  rewrite filter_app, (filter_none _ (rn_registro_casos_transi db)).
  - simpl. apply filter_all. intros r Hr. by apply Hdatos.
  - intros r Hr [Hc Hd]. specialize (Hold r Hr Hc). lia.
Qed.

Lemma guardar_then_revisar_returns_the_saved_snapshot_witness :
  let old := snapshot_row "107223" "F1" None "Asignado" "" 100 (Some 90) in
  let other := snapshot_row "111202" "F9" None "Asignado" "" 300 (Some 90) in
  let datos := [snapshot_row "107223" "F1" None "Aceptado" "" 200 (Some 90);
                snapshot_row "107223" "F2" None "Asignado" "" 200 (Some 90)] in
  let db := empty_store [old; other] in
  ∃ db',
    db_manager.guardar_en_db (fun _ => false) datos db_manager.TABLA_REGISTRO_CASOS db
    = (db', inr tt)
    ∧ ∃ rows,
        db_manager.revisar_ultima_actualizacion (fun _ => false) "107223" db' = inr rows
        ∧ rows ≡ₚ datos.
Proof.
  intros old other datos db.
  apply (guardar_then_revisar_returns_the_saved_snapshot
           (fun _ => false) datos "107223" 200 db).
  - done.
  - done.
  - intros r Hr. repeat (apply elem_of_cons in Hr as [->|Hr]; [by split|]).
    by apply elem_of_nil in Hr.
  - intros r Hr Hc.
    apply elem_of_cons in Hr as [->|Hr]; [simpl; lia|].
    apply elem_of_cons in Hr as [->|Hr]; [discriminate|].
    by apply elem_of_nil in Hr.
Defined.

(** ** The formatted code *)













